(** * ai-code-connect: a shallow embedding of the process supervisor,
      the session layer and the output sanitizers

    The development follows the TypeScript sources file by file:
    - [utils.ts]            : [stripAnsi], [truncate]
    - [adapters/gemini.ts]  : [GeminiAdapter.cleanResponse] and the session
                              state of the adapter
    - [daemon.ts]           : [ToolDaemon] and [DaemonManager]
    - [session.ts]          : [SessionManager]
    - [sdk-session.ts]      : [SDKSession], [stripAnsiLength], [colorize]

    A JavaScript string is a sequence of UTF-16 code units; it is modelled as
    a list of code units ([list N]).  Regular expressions are kept as syntax
    and run by a backtracking matcher with the priorities of the ECMAScript
    matcher (leftmost, greedy, first alternative first).

    An object that the program mutates is a record that each operation takes
    and gives back.  What an operation does to the world outside (spawning a
    process, writing to a pty, settling a promise) is appended to a list of
    effects kept in the record.  An [async] method is cut at its [await]:
    the part before it is a function, the part after it runs when the event
    that settles the awaited promise is delivered.  Timers and events of
    child processes are actions of a transition system; time itself is not
    modelled.

    Left out: console output, the terminal-resize listeners, the
    persistence of sessions and configuration, [DaemonManager.startAll]
    and the interactive mode of [SDKSession]. *)

From Stdlib Require Import NArith ZArith String Ascii DecimalString.
From stdpp Require Import gmap list fin_maps.

Abbreviation jsstring := (list N).

Local Open Scope N_scope.

(* ===================================================================== *)
(** ** JavaScript strings                                                *)
(* ===================================================================== *)

Module JS.

(** An ASCII literal of the source, as code units. *)
Definition lit (s : string) : jsstring :=
  map N_of_ascii (list_ascii_of_string s).
#[global] Arguments lit : simpl never.

(** The two control characters the sources spell with escapes. *)
Definition ESC : N := 0x1B.
Definition LF : N := 0x0A.

(** [LineTerminator] of ECMAScript: LF, CR, LS, PS. *)
Definition isLineTerminator (c : N) : bool :=
  (c =? 0x0A) || (c =? 0x0D) || (c =? 0x2028) || (c =? 0x2029).

(** [WhiteSpace] or [LineTerminator]: what [String.prototype.trim] removes
    and what [\s] matches. *)
Definition isSpace (c : N) : bool :=
  (c =? 0x09) || (c =? 0x0B) || (c =? 0x0C) || (c =? 0x20) || (c =? 0xA0)
  || (c =? 0x1680) || ((0x2000 <=? c) && (c <=? 0x200A))
  || (c =? 0x202F) || (c =? 0x205F) || (c =? 0x3000) || (c =? 0xFEFF)
  || isLineTerminator c.

Fixpoint trimStart (s : jsstring) : jsstring :=
  match s with
  | c :: s' => if isSpace c then trimStart s' else s
  | [] => []
  end.

Definition trimEnd (s : jsstring) : jsstring := rev (trimStart (rev s)).

(** [s.trim()] *)
Definition trim (s : jsstring) : jsstring := trimEnd (trimStart s).

(** Truthiness of a string: only the empty string is falsy. *)
Definition truthy (s : jsstring) : bool :=
  match s with [] => false | _ :: _ => true end.

(** Truthiness of [string | undefined]. *)
Definition truthy_opt (o : option jsstring) : bool :=
  match o with Some s => truthy s | None => false end.

(** [a || b] on strings. *)
Definition or_else (a : option jsstring) (b : jsstring) : jsstring :=
  match a with
  | Some s => if truthy s then s else b
  | None => b
  end.

(** [a === b] on strings. *)
Definition eqb (a b : jsstring) : bool := bool_decide (a = b).

(** [s.substring(n)] for [0 <= n]. *)
Definition substring (n : nat) (s : jsstring) : jsstring := drop n s.

(** [s.lastIndexOf(c)] for a one-unit needle; [None] stands for -1. *)
Fixpoint lastIndexOf (c : N) (s : jsstring) : option nat :=
  match s with
  | [] => None
  | x :: s' =>
      match lastIndexOf c s' with
      | Some i => Some (S i)
      | None => if x =? c then Some O else None
      end
  end.

(** [s.split(sep)] for a one-unit separator: never an empty array. *)
Fixpoint split (sep : N) (s : jsstring) : list jsstring :=
  match s with
  | [] => [[]]
  | c :: s' =>
      if c =? sep then [] :: split sep s'
      else match split sep s' with
           | l :: ls => (c :: l) :: ls
           | [] => [[c]]
           end
  end.

(** [lines.join(sep)] *)
Fixpoint join (sep : jsstring) (ls : list jsstring) : jsstring :=
  match ls with
  | [] => []
  | [l] => l
  | l :: ls' => l ++ sep ++ join sep ls'
  end.

End JS.

(* ===================================================================== *)
(** ** Regular expressions                                               *)
(* ===================================================================== *)

Module Regex.

(** Syntax.  A character atom carries its class as a predicate on code
    units; the [i] flag is folded into the predicate, the [m] flag into the
    anchors. *)
Inductive re : Type :=
| Eps : re
| Chr (p : N -> bool) : re
| Seq (r1 r2 : re) : re
| Alt (r1 r2 : re) : re
| Star (r : re) : re
| Bol (multiline : bool) : re
| Eol (multiline : bool) : re.

(** [^]: at the start of the input or, with [m], after a line terminator.
    [prev] is the code unit before the current position. *)
Definition at_bol (ml : bool) (prev : option N) : bool :=
  match prev with
  | None => true
  | Some c => ml && JS.isLineTerminator c
  end.

(** [$]: at the end of the input or, with [m], before a line terminator. *)
Definition at_eol (ml : bool) (s : jsstring) : bool :=
  match s with
  | [] => true
  | c :: _ => ml && JS.isLineTerminator c
  end.

Section Matcher.
Context {R : Type}.

(** A continuation receives the position reached: the code unit before
    it and the rest of the input. *)
Definition cont : Type := option N -> jsstring -> option R.

(** Greedy iteration.  An iteration that consumes nothing is not taken
    (ECMAScript's empty check), so [length s] rounds are enough. *)
Fixpoint star_loop (body : option N -> jsstring -> cont -> option R)
    (n : nat) (prev : option N) (s : jsstring) (k : cont) : option R :=
  match n with
  | O => k prev s
  | S n' =>
      match body prev s (fun prev' s' =>
              if (length s' <? length s)%nat
              then star_loop body n' prev' s' k else None) with
      | Some x => Some x
      | None => k prev s
      end
  end.

Fixpoint run (r : re) (prev : option N) (s : jsstring) (k : cont) : option R :=
  match r with
  | Eps => k prev s
  | Chr p =>
      match s with
      | c :: s' => if p c then k (Some c) s' else None
      | [] => None
      end
  | Seq r1 r2 => run r1 prev s (fun prev' s' => run r2 prev' s' k)
  | Alt r1 r2 =>
      match run r1 prev s k with
      | Some x => Some x
      | None => run r2 prev s k
      end
  | Star r' => star_loop (run r') (length s) prev s k
  | Bol ml => if at_bol ml prev then k prev s else None
  | Eol ml => if at_eol ml s then k prev s else None
  end.
End Matcher.

(** The match that starts at the current position, if any: the position
    just after it. *)
Definition match_here (r : re) (prev : option N) (s : jsstring)
  : option (option N * jsstring) :=
  run r prev s (fun p' s' => Some (p', s')).

(** [regex.test(s)] for a regex without the [g] flag: is there a match at
    some position. *)
Fixpoint test_from (r : re) (prev : option N) (s : jsstring) : bool :=
  match match_here r prev s with
  | Some _ => true
  | None =>
      match s with
      | [] => false
      | c :: t => test_from r (Some c) t
      end
  end.

Definition test (r : re) (s : jsstring) : bool := test_from r None s.

(** [s.replace(/r/g, rep)] with a replacement text free of [$] patterns:
    the matches are found left to right, each search resuming where the
    previous match ended (one unit further after an empty match). *)
Fixpoint replace_loop (r : re) (rep : jsstring) (n : nat)
    (prev : option N) (s : jsstring) : jsstring :=
  match n with
  | O => s
  | S n' =>
      let skip :=
        match s with
        | [] => []
        | c :: t => c :: replace_loop r rep n' (Some c) t
        end in
      match match_here r prev s with
      | Some (p', s') =>
          if (length s' <? length s)%nat
          then rep ++ replace_loop r rep n' p' s'
          else rep ++ skip
      | None => skip
      end
  end.

Definition replaceAll (r : re) (rep : jsstring) (s : jsstring) : jsstring :=
  replace_loop r rep (S (length s)) None s.

(** The end offsets of the successive matches that a
    [while ((m = regex.exec(s)) !== null)] loop over a [g] regex visits,
    [pos] being the offset of the current position.  (The loop of the
    source would not terminate on an empty match; none of its patterns
    matches the empty string, and here the scan just moves on.) *)
Fixpoint exec_ends (r : re) (n : nat) (prev : option N) (s : jsstring)
    (pos : nat) : list nat :=
  match n with
  | O => []
  | S n' =>
      match match_here r prev s with
      | Some (p', s') =>
          let e := (pos + (length s - length s'))%nat in
          if (length s' <? length s)%nat
          then e :: exec_ends r n' p' s' e
          else match s with
               | [] => [e]
               | c :: t => e :: exec_ends r n' (Some c) t (S pos)
               end
      | None =>
          match s with
          | [] => []
          | c :: t => exec_ends r n' (Some c) t (S pos)
          end
      end
  end.

Definition matchEnds (r : re) (s : jsstring) : list nat :=
  exec_ends r (S (length s)) None s O.

(** *** Atoms and derived forms *)

Definition code (a : N) : N -> bool := fun c => c =? a.
Definition range (lo hi : N) : N -> bool := fun c => (lo <=? c) && (c <=? hi).
Definition oneOf (l : list N) : N -> bool := fun c => existsb (N.eqb c) l.
Definition union (p q : N -> bool) : N -> bool := fun c => p c || q c.
Definition except (p : N -> bool) : N -> bool := fun c => negb (p c).

(** [\d], [\w], [\s] and [.] *)
Definition digit : N -> bool := range 0x30 0x39.
Definition word : N -> bool :=
  union (range 0x61 0x7A) (union (range 0x41 0x5A) (union digit (code 0x5F))).
Definition space : N -> bool := JS.isSpace.
Definition dot : N -> bool := except JS.isLineTerminator.

(** An ASCII letter under the [i] flag matches in either case; any other
    ASCII code unit matches itself only (canonicalisation never maps a
    code unit above 127 to one below). *)
Definition fold_case (a : N) : N -> bool :=
  if range 0x61 0x7A a then union (code a) (code (a - 0x20))
  else if range 0x41 0x5A a then union (code a) (code (a + 0x20))
  else code a.

Definition Opt (r : re) : re := Alt r Eps.
Definition Plus (r : re) : re := Seq r (Star r).

Fixpoint seqs (rs : list re) : re :=
  match rs with
  | [] => Eps
  | [r] => r
  | r :: rs' => Seq r (seqs rs')
  end.

(** A literal run of the pattern, with and without the [i] flag. *)
Definition str (s : string) : re := seqs (map (fun a => Chr (code a)) (JS.lit s)).
Definition str_i (s : string) : re := seqs (map (fun a => Chr (fold_case a)) (JS.lit s)).

(** Two properties of a matcher that the loops rely on: it uses its
    continuation only through the results the continuation gives, and it
    succeeds only through its continuation. *)
Definition extensional {R} (body : option N -> jsstring -> @cont R -> option R) : Prop :=
  ∀ prev s k1 k2, (∀ p s', k1 p s' = k2 p s') -> body prev s k1 = body prev s k2.

Definition strict {R} (body : option N -> jsstring -> @cont R -> option R) : Prop :=
  ∀ prev s k, (∀ p s', k p s' = None) -> body prev s k = None.

End Regex.

(* ===================================================================== *)
(** ** utils.ts                                                          *)
(* ===================================================================== *)

Import Regex.

(** [/\x1B(?:[@-Z\\-_]|\[[0-?]*[ -/]*[@-~])/g] *)
Definition ansiPattern : re :=
  Seq (Chr (code JS.ESC))
      (Alt (Chr (union (range 0x40 0x5A) (range 0x5C 0x5F)))
           (seqs [ Chr (code 0x5B);
                   Star (Chr (range 0x30 0x3F));
                   Star (Chr (range 0x20 0x2F));
                   Chr (range 0x40 0x7E) ])).

(** [stripAnsi(str)]: strip ANSI escape codes from a string. *)
Definition stripAnsi (str : jsstring) : jsstring :=
  replaceAll ansiPattern [] str.

(* ===================================================================== *)
(** ** adapters/gemini.ts                                                *)
(* ===================================================================== *)

Module GeminiAdapter.

(** [\s*], [\s+], [\w+], [.*], and [^], [$] under the [m] flag. *)
Definition sp : re := Star (Chr space).
Definition sp1 : re := Plus (Chr space).
Definition w1 : re := Plus (Chr word).
Definition any : re := Star (Chr dot).
Definition bol : re := Bol true.
Definition eol : re := Eol true.
Definition esc : re := Chr (code JS.ESC).

(** The replacements of [cleanResponse] that delete their matches, in the
    order of the source. *)
Definition removals : list re :=
  [ (* /\x1b\[[0-9;]*[a-zA-Z]/g *)
    seqs [esc; str "["; Star (Chr (union digit (code 0x3B)));
          Chr (union (range 0x61 0x7A) (range 0x41 0x5A))];
    (* /\x1b\[\??\d+[hl]/g *)
    seqs [esc; str "["; Opt (str "?"); Plus (Chr digit); Chr (oneOf [0x68; 0x6C])];
    (* /\x1b\[\d* ?q/g *)
    seqs [esc; str "["; Star (Chr digit); Opt (str " "); str "q"];
    (* /\x1b\][^\x07]*\x07/g *)
    seqs [esc; str "]"; Star (Chr (except (code 0x07))); Chr (code 0x07)];
    (* /Loaded cached credentials\.?\s*/g *)
    seqs [str "Loaded cached credentials"; Opt (str "."); sp];
    (* spinner frames *)
    Chr (oneOf [0x280B; 0x2819; 0x2839; 0x2838; 0x283C;
                0x2834; 0x2826; 0x2827; 0x2807; 0x280F]);
    (* box drawing characters *)
    Chr (oneOf [0x256D; 0x256E; 0x2570; 0x256F; 0x2502; 0x2500; 0x250C;
                0x2510; 0x2514; 0x2518; 0x251C; 0x2524; 0x252C; 0x2534;
                0x253C; 0x2551; 0x2550; 0x2554; 0x2557; 0x255A; 0x255D;
                0x2560; 0x2563; 0x2566; 0x2569; 0x256C]);
    (* /^\s*Using:.*MCP servers?\s*$/gm *)
    seqs [bol; sp; str "Using:"; any; str "MCP server"; Opt (str "s"); sp; eol];
    (* /^\s*~\/.*\(main\*?\).*$/gm *)
    seqs [bol; sp; str "~/"; any; str "(main"; Opt (str "*"); str ")"; any; eol];
    (* /^\s*~\/[^\n]*$/gm *)
    seqs [bol; sp; str "~/"; Star (Chr (except (code JS.LF))); eol];
    (* /^\s*no sandbox.*$/gim *)
    seqs [bol; sp; str_i "no sandbox"; any; eol];
    (* /^\s*auto\s*$/gm *)
    seqs [bol; sp; str "auto"; sp; eol];
    (* /^\s*Reading.*\(esc to cancel.*\)\s*$/gm *)
    seqs [bol; sp; str "Reading"; any; str "(esc to cancel"; any; str ")"; sp; eol];
    (* /^\s*Type your message or @path.*$/gm *)
    seqs [bol; sp; str "Type your message or @path"; any; eol];
    (* /^\s*>\s*Type your message.*$/gm *)
    seqs [bol; sp; str ">"; sp; str "Type your message"; any; eol];
    (* /^\s*\?\s*for shortcuts\s*$/gm *)
    seqs [bol; sp; str "?"; sp; str "for shortcuts"; sp; eol];
    (* /^\s*Try ".*"\s*$/gm *)
    seqs [bol; sp; str "Try "; Chr (code 0x22); any; Chr (code 0x22); sp; eol];
    (* thinking / incubating indicators *)
    seqs [bol; sp; Chr (code 0x2234); str " Thought for"; any; eol];
    seqs [bol; sp; Chr (code 0x273D); str " Incubating"; any; eol];
    (* /\(ctrl\+o to show thinking\)/gi *)
    str_i "(ctrl+o to show thinking)";
    (* /\(esc to interrupt\)/gi *)
    str_i "(esc to interrupt)";
    (* /\(esc to cancel.*\)/gi *)
    seqs [str_i "(esc to cancel"; any; str ")"];
    (* tool status lines *)
    seqs [bol; sp; Chr (oneOf [0x2713; 0x2717]); sp1; w1; any; eol];
    (* /^>\s*$/gm *)
    seqs [bol; str ">"; sp; eol];
    (* /\.\.\.\s*generating more\s*\.\.\./gi *)
    seqs [str "..."; sp; str_i "generating more"; sp; str "..."] ].

(** [streamingPatterns], all with the flags [gi]. *)
Definition streamingPatterns : list re :=
  [ str_i "Defining the Response Strategy";
    seqs [str_i "Formulating"; sp1; w1; sp1; str_i "Code"];
    seqs [str_i "Formulating"; sp1; w1; sp1; str_i "Response"];
    seqs [str_i "Considering"; sp1; str_i "the"; sp1; str_i "Response"; sp1; str_i "Format"];
    seqs [str_i "Presenting"; sp1; str_i "the"; sp1; str_i "Code"];
    seqs [str_i "Presenting"; sp1; str_i "the"; sp1; str_i "Response"];
    seqs [str_i "Providing"; sp1; w1; sp1; str_i "Code"; sp1; str_i "Example"];
    seqs [str_i "Generating"; sp1; w1; sp1; str_i "Code"];
    seqs [str_i "Writing"; sp1; str_i "the"; sp1; str_i "Code"] ].

(** The position after the LAST streaming indicator, 0 when there is none. *)
Definition lastIndicatorEnd (output : jsstring) : nat :=
  foldl (fun acc pattern => foldl Nat.max acc (matchEnds pattern output))
        O streamingPatterns.

(** [/^[\s│─╭╮╰╯]*$/], without flags. *)
Definition emptyUiLine : re :=
  seqs [Bol false;
        Star (Chr (union space (oneOf [0x2502; 0x2500; 0x256D; 0x256E; 0x2570; 0x256F])));
        Eol false].

Definition keepLine (line : jsstring) : bool :=
  let trimmed := JS.trim line in
  negb (test emptyUiLine trimmed && (length trimmed <? 3)%nat).

(** [cleanResponse(rawOutput)] *)
Definition cleanResponse (rawOutput : jsstring) : jsstring :=
  let output := foldl (fun out r => replaceAll r [] out) rawOutput removals in
  let output :=
    let e := lastIndicatorEnd output in
    if (0 <? e)%nat then JS.trim (JS.substring e output)
    else match JS.lastIndexOf 0x2726 output with
         | Some i => JS.trim (JS.substring (S i) output)
         | None => output
         end in
  let cleanedLines := filter (fun line => keepLine line = true) (JS.split JS.LF output) in
  let output := JS.join [JS.LF] cleanedLines in
  (* /\n{3,}/g  ->  '\n\n' *)
  let output :=
    replaceAll (seqs [Chr (code JS.LF); Chr (code JS.LF); Chr (code JS.LF);
                      Star (Chr (code JS.LF))]) [JS.LF; JS.LF] output in
  (* /^\s+$/gm *)
  let output := replaceAll (seqs [bol; sp1; eol]) [] output in
  JS.trim output.

End GeminiAdapter.

(* ===================================================================== *)
(** ** daemon.ts: ToolDaemon                                             *)
(* ===================================================================== *)

(** What a call does: it returns, or it throws an [Error] with a message
    (for an [async] method: the returned promise is rejected with it). *)
Inductive outcome (A : Type) : Type :=
| Return (a : A)
| Throw (message : jsstring).
Arguments Return {A} a.
Arguments Throw {A} message.

(** The fate of a promise. *)
Inductive Settled : Type :=
| Pending
| Fulfilled
| RejectedWith (message : jsstring).

#[global] Instance Settled_eq_dec : EqDecision Settled.
Proof. solve_decision. Defined.

Module Daemon.

Inductive DaemonState : Type := starting | ready | busy | interactive | dead.

#[global] Instance DaemonState_eq_dec : EqDecision DaemonState.
Proof. solve_decision. Defined.

Definition stateName (s : DaemonState) : jsstring :=
  JS.lit match s with
         | starting => "starting"
         | ready => "ready"
         | busy => "busy"
         | interactive => "interactive"
         | dead => "dead"
         end.

Record DaemonConfig : Type := mkConfig {
  name : jsstring;
  displayName : jsstring;
  command : jsstring;
  args : list jsstring;
  cwd : option jsstring;
  (** Regex pattern to detect when tool is ready for input *)
  promptPattern : option re;
  (** Timeout (ms) to assume response is complete if no new output *)
  responseTimeout : option N;
  (** Timeout (ms) to wait for initial startup *)
  startupTimeout : option N;
}.

(** What the daemon does to the world around it. Handles of ptys are the
    numbers of the [start] calls that spawned them, handles of send promises
    the numbers of the [send] calls that created them.  Console output and
    the terminal-resize listener are left out. *)
Inductive Effect : Type :=
| Spawn (command : jsstring) (args : list jsstring)
| PtyWrite (h : nat) (data : jsstring)
| PtyKill (h : nat)
| ResolveSend (p : nat) (response : jsstring)   (* responseResolver(response) *)
| EmitData (data : jsstring)                    (* this.emit('data', data) *)
| EmitExit (exitCode : Z)                       (* this.emit('exit', exitCode) *)
| StdinRawModeIfTTY (raw : bool)
| StdinResume
| StdinOnData
| StdinRemoveData.

(** The closure state of one [start()] call: its promise, the startup
    timeout, and the five-second readiness timer armed when there is no
    prompt pattern.  A live timer holds its delay. *)
Record StartCall : Type := mkStartCall {
  startPromise : Settled;
  startupTimer : option N;
  graceTimer : option N;
}.

Record ToolDaemon : Type := mkToolDaemon {
  pty : option nat;
  config : DaemonConfig;
  state : DaemonState;
  outputBuffer : jsstring;
  responseBuffer : jsstring;
  lastResponse : jsstring;
  responseResolver : option nat;
  responseTimeoutId : option N;
  interactiveStdinHandler : bool;
  (** [EventEmitter]: number of listeners of ['data'] *)
  dataListeners : nat;
  (** number of the daemon's handlers listening on [process.stdin]: the one
      held in [interactiveStdinHandler] and those an earlier
      [enterInteractiveMode] left behind *)
  stdinListeners : nat;
  (** the [start()] calls made so far, and the send promises created *)
  startCalls : list StartCall;
  sendCalls : nat;
  (** the effects so far, oldest first *)
  io : list Effect;
}.

(** Field updates. *)
Definition set_pty (v : option nat) (d : ToolDaemon) : ToolDaemon :=
  mkToolDaemon v (config d) (state d) (outputBuffer d) (responseBuffer d)
    (lastResponse d) (responseResolver d) (responseTimeoutId d)
    (interactiveStdinHandler d) (dataListeners d) (stdinListeners d) (startCalls d) (sendCalls d) (io d).
Definition set_state (v : DaemonState) (d : ToolDaemon) : ToolDaemon :=
  mkToolDaemon (pty d) (config d) v (outputBuffer d) (responseBuffer d)
    (lastResponse d) (responseResolver d) (responseTimeoutId d)
    (interactiveStdinHandler d) (dataListeners d) (stdinListeners d) (startCalls d) (sendCalls d) (io d).
Definition set_outputBuffer (v : jsstring) (d : ToolDaemon) : ToolDaemon :=
  mkToolDaemon (pty d) (config d) (state d) v (responseBuffer d)
    (lastResponse d) (responseResolver d) (responseTimeoutId d)
    (interactiveStdinHandler d) (dataListeners d) (stdinListeners d) (startCalls d) (sendCalls d) (io d).
Definition set_responseBuffer (v : jsstring) (d : ToolDaemon) : ToolDaemon :=
  mkToolDaemon (pty d) (config d) (state d) (outputBuffer d) v
    (lastResponse d) (responseResolver d) (responseTimeoutId d)
    (interactiveStdinHandler d) (dataListeners d) (stdinListeners d) (startCalls d) (sendCalls d) (io d).
Definition set_lastResponse (v : jsstring) (d : ToolDaemon) : ToolDaemon :=
  mkToolDaemon (pty d) (config d) (state d) (outputBuffer d) (responseBuffer d)
    v (responseResolver d) (responseTimeoutId d)
    (interactiveStdinHandler d) (dataListeners d) (stdinListeners d) (startCalls d) (sendCalls d) (io d).
Definition set_responseResolver (v : option nat) (d : ToolDaemon) : ToolDaemon :=
  mkToolDaemon (pty d) (config d) (state d) (outputBuffer d) (responseBuffer d)
    (lastResponse d) v (responseTimeoutId d)
    (interactiveStdinHandler d) (dataListeners d) (stdinListeners d) (startCalls d) (sendCalls d) (io d).
Definition set_responseTimeoutId (v : option N) (d : ToolDaemon) : ToolDaemon :=
  mkToolDaemon (pty d) (config d) (state d) (outputBuffer d) (responseBuffer d)
    (lastResponse d) (responseResolver d) v
    (interactiveStdinHandler d) (dataListeners d) (stdinListeners d) (startCalls d) (sendCalls d) (io d).
Definition set_interactiveStdinHandler (v : bool) (d : ToolDaemon) : ToolDaemon :=
  mkToolDaemon (pty d) (config d) (state d) (outputBuffer d) (responseBuffer d)
    (lastResponse d) (responseResolver d) (responseTimeoutId d)
    v (dataListeners d) (stdinListeners d) (startCalls d) (sendCalls d) (io d).
Definition set_dataListeners (v : nat) (d : ToolDaemon) : ToolDaemon :=
  mkToolDaemon (pty d) (config d) (state d) (outputBuffer d) (responseBuffer d)
    (lastResponse d) (responseResolver d) (responseTimeoutId d)
    (interactiveStdinHandler d) v (stdinListeners d) (startCalls d) (sendCalls d) (io d).
Definition set_stdinListeners (v : nat) (d : ToolDaemon) : ToolDaemon :=
  mkToolDaemon (pty d) (config d) (state d) (outputBuffer d) (responseBuffer d)
    (lastResponse d) (responseResolver d) (responseTimeoutId d)
    (interactiveStdinHandler d) (dataListeners d) v (startCalls d) (sendCalls d) (io d).
Definition set_startCalls (v : list StartCall) (d : ToolDaemon) : ToolDaemon :=
  mkToolDaemon (pty d) (config d) (state d) (outputBuffer d) (responseBuffer d)
    (lastResponse d) (responseResolver d) (responseTimeoutId d)
    (interactiveStdinHandler d) (dataListeners d) (stdinListeners d) v (sendCalls d) (io d).
Definition set_sendCalls (v : nat) (d : ToolDaemon) : ToolDaemon :=
  mkToolDaemon (pty d) (config d) (state d) (outputBuffer d) (responseBuffer d)
    (lastResponse d) (responseResolver d) (responseTimeoutId d)
    (interactiveStdinHandler d) (dataListeners d) (stdinListeners d) (startCalls d) v (io d).
Definition effect (e : Effect) (d : ToolDaemon) : ToolDaemon :=
  mkToolDaemon (pty d) (config d) (state d) (outputBuffer d) (responseBuffer d)
    (lastResponse d) (responseResolver d) (responseTimeoutId d)
    (interactiveStdinHandler d) (dataListeners d) (stdinListeners d) (startCalls d) (sendCalls d)
    (io d ++ [e]).

(** [new ToolDaemon(config)]: the defaults [responseTimeout: 3000] and
    [startupTimeout: 60000] are overridden by the keys present in [config]. *)
Definition new (cfg : DaemonConfig) : ToolDaemon :=
  {| pty := None;
     config := {| name := name cfg; displayName := displayName cfg;
                  command := command cfg; args := args cfg; cwd := cwd cfg;
                  promptPattern := promptPattern cfg;
                  responseTimeout := Some (default 3000 (responseTimeout cfg));
                  startupTimeout := Some (default 60000 (startupTimeout cfg)) |};
     state := starting;
     outputBuffer := [];
     responseBuffer := [];
     lastResponse := [];
     responseResolver := None;
     responseTimeoutId := None;
     interactiveStdinHandler := false;
     dataListeners := O;
     stdinListeners := O;
     startCalls := [];
     sendCalls := O;
     io := [] |}.

Definition getState (d : ToolDaemon) : DaemonState := state d.
Definition getLastResponse (d : ToolDaemon) : jsstring := lastResponse d.
Definition isReady (d : ToolDaemon) : bool := bool_decide (state d = ready).

(** The delay [this.config.responseTimeout] of the idle timer. *)
Definition idleDelay (d : ToolDaemon) : N := default 0 (responseTimeout (config d)).

(** *** start() *)

(** [resolve()] and [reject(err)] of start call [h]: a settled promise
    stays as it is. *)
Definition resolveStart (c : StartCall) : StartCall :=
  match startPromise c with
  | Pending => mkStartCall Fulfilled (startupTimer c) (graceTimer c)
  | _ => c
  end.
Definition rejectStart (msg : jsstring) (c : StartCall) : StartCall :=
  match startPromise c with
  | Pending => mkStartCall (RejectedWith msg) (startupTimer c) (graceTimer c)
  | _ => c
  end.
Definition clearStartupTimer (c : StartCall) : StartCall :=
  mkStartCall (startPromise c) None (graceTimer c).
Definition clearGraceTimer (c : StartCall) : StartCall :=
  mkStartCall (startPromise c) (startupTimer c) None.

(** The daemon reaches its initial ready state in start call [h]:
    [this.state = 'ready'; clearTimeout(startupTimeout); resolve()]. *)
Definition becomeReady (h : nat) (d : ToolDaemon) : ToolDaemon :=
  set_startCalls (alter (fun c => resolveStart (clearStartupTimer c)) h (startCalls d))
    (set_state ready d).

(** [start()]: throws when a pty is held; otherwise spawns one with the
    command and arguments of the configuration, and returns the number of
    the call, whose promise is pending.  ([pty.spawn] is taken to return a
    pty: a missing executable shows as the exit event of that pty.) *)
Definition start (d : ToolDaemon) : outcome nat * ToolDaemon :=
  match pty d with
  | Some _ => (Throw (displayName (config d) ++ JS.lit " daemon is already running"), d)
  | None =>
      let h := length (startCalls d) in
      let call := {| startPromise := Pending;
                     startupTimer := Some (default 0 (startupTimeout (config d)));
                     graceTimer := match promptPattern (config d) with
                                   | None => Some 5000
                                   | Some _ => None
                                   end |} in
      (Return h,
       set_pty (Some h)
         (effect (Spawn (command (config d)) (args (config d)))
            (set_startCalls (startCalls d ++ [call]) d)))
  end.

(** [resetResponseTimeout()]: the old timer, if any, is cleared and a new
    one armed. *)
Definition resetResponseTimeout (d : ToolDaemon) : ToolDaemon :=
  set_responseTimeoutId (Some (idleDelay d)) d.

(** [completeResponse()] *)
Definition completeResponse (d : ToolDaemon) : ToolDaemon :=
  let d := set_responseTimeoutId None d in
  match responseResolver d with
  | Some p =>
      let response := responseBuffer d in
      let d := set_lastResponse (JS.trim (stripAnsi response)) d in
      let d := effect (ResolveSend p response) d in
      let d := set_responseResolver None d in
      let d := set_responseBuffer [] d in
      set_state ready d
  | None => d
  end.

(** The [onData] handler of the pty of start call [h]. *)
Definition onData (h : nat) (data : jsstring) (d : ToolDaemon) : ToolDaemon :=
  let d := set_outputBuffer (outputBuffer d ++ data) d in
  let d := effect (EmitData data) d in
  let d :=
    if bool_decide (state d = busy) && bool_decide (is_Some (responseResolver d))
    then resetResponseTimeout (set_responseBuffer (responseBuffer d ++ data) d)
    else d in
  if bool_decide (state d = starting)
  then match promptPattern (config d) with
       | Some pattern =>
           if test pattern (stripAnsi (outputBuffer d)) then becomeReady h d else d
       | None => d
       end
  else d.

(** The [onExit] handler. *)
Definition onExit (exitCode : Z) (d : ToolDaemon) : ToolDaemon :=
  effect (EmitExit exitCode) (set_state dead d).

(** The five-second timer of start call [h] fires. *)
Definition onGraceTimer (h : nat) (d : ToolDaemon) : ToolDaemon :=
  let d := set_startCalls (alter clearGraceTimer h (startCalls d)) d in
  if bool_decide (state d = starting) then becomeReady h d else d.

(** The startup timeout of start call [h] fires: [reject(...)]. *)
Definition onStartupTimeout (h : nat) (d : ToolDaemon) : ToolDaemon :=
  set_startCalls
    (alter (fun c => rejectStart (displayName (config d) ++ JS.lit " startup timeout")
                       (clearStartupTimer c)) h (startCalls d)) d.

(** [send(command)]: rejects, or returns the number of the promise that
    waits for the response.  The promise is built from [resolve] alone:
    [responseResolver] is the only way to settle it. *)
Definition send (cmd : jsstring) (d : ToolDaemon) : outcome nat * ToolDaemon :=
  match pty d with
  | None => (Throw (displayName (config d) ++ JS.lit " daemon is not running"), d)
  | Some h =>
      if bool_decide (state d = ready) then
        let p := sendCalls d in
        let d := set_sendCalls (S p) d in
        let d := set_state busy d in
        let d := set_responseBuffer [] d in
        let d := set_responseResolver (Some p) d in
        let d := effect (PtyWrite h (cmd ++ [JS.LF])) d in
        (Return p, resetResponseTimeout d)
      else
        (Throw (displayName (config d) ++ JS.lit " is not ready (state: "
                ++ stateName (state d) ++ JS.lit ")"), d)
  end.

(** [enterInteractiveMode()] *)
Definition enterInteractiveMode (d : ToolDaemon) : outcome unit * ToolDaemon :=
  match pty d with
  | None => (Throw (displayName (config d) ++ JS.lit " daemon is not running"), d)
  | Some _ =>
      let d := set_state interactive d in
      let d := effect (StdinRawModeIfTTY true) d in
      let d := effect StdinResume d in
      let d := set_interactiveStdinHandler true d in
      (Return (), set_stdinListeners (S (stdinListeners d)) (effect StdinOnData d))
  end.

(** [exitInteractiveMode()] *)
Definition exitInteractiveMode (d : ToolDaemon) : ToolDaemon :=
  let d :=
    if interactiveStdinHandler d
    then set_interactiveStdinHandler false
           (set_stdinListeners (pred (stdinListeners d)) (effect StdinRemoveData d))
    else d in
  let d := effect (StdinRawModeIfTTY false) d in
  set_state ready d.

(** [write(data)] *)
Definition write (data : jsstring) (d : ToolDaemon) : ToolDaemon :=
  match pty d with
  | Some h => effect (PtyWrite h data) d
  | None => d
  end.

(** Input on [process.stdin]: each of the daemon's handlers forwards it,
    [if (this.pty) this.pty.write(data.toString())]. *)
Definition onStdinData (data : jsstring) (d : ToolDaemon) : ToolDaemon :=
  Nat.iter (stdinListeners d) (write data) d.

(** [stop()] *)
Definition stop (d : ToolDaemon) : ToolDaemon :=
  let d := if interactiveStdinHandler d then exitInteractiveMode d else d in
  let d :=
    match pty d with
    | Some h => set_pty None (effect (PtyKill h) d)
    | None => d
    end in
  set_state dead d.

(** *** The daemon as a transition system *)

(** What can happen to a daemon: a method is called, the terminal delivers
    input, a pty reports data or its exit, a timer fires.  Terminal input
    reaches the daemon while it has a handler on [process.stdin]; a pty
    event or start timer belongs to a start call that was made (the events
    of a pty are not restricted further: data after an exit is allowed); a
    timer fires only while it is armed. *)
Inductive Action : Type :=
| CallStart
| CallSend (command : jsstring)
| CallEnterInteractiveMode
| CallExitInteractiveMode
| CallWrite (data : jsstring)
| CallStop
| StdinData (data : jsstring)
| PtyData (h : nat) (data : jsstring)
| PtyExit (h : nat) (exitCode : Z)
| GraceTimer (h : nat)
| StartupTimeout (h : nat)
| IdleTimeout.

Definition enabled (a : Action) (d : ToolDaemon) : bool :=
  match a with
  | StdinData _ => bool_decide (stdinListeners d ≠ O)
  | PtyData h _ | PtyExit h _ => bool_decide (h < length (startCalls d))%nat
  | GraceTimer h =>
      bool_decide (is_Some (startCalls d !! h ≫= graceTimer))
  | StartupTimeout h =>
      bool_decide (is_Some (startCalls d !! h ≫= startupTimer))
  | IdleTimeout => bool_decide (is_Some (responseTimeoutId d))
  | _ => true
  end.

Definition step (d : ToolDaemon) (a : Action) : ToolDaemon :=
  if enabled a d then
    match a with
    | CallStart => (start d).2
    | CallSend cmd => (send cmd d).2
    | CallEnterInteractiveMode => (enterInteractiveMode d).2
    | CallExitInteractiveMode => exitInteractiveMode d
    | CallWrite data => write data d
    | CallStop => stop d
    | StdinData data => onStdinData data d
    | PtyData h data => onData h data d
    | PtyExit _ exitCode => onExit exitCode d
    | GraceTimer h => onGraceTimer h d
    | StartupTimeout h => onStartupTimeout h d
    | IdleTimeout => completeResponse d
    end
  else d.

(** The state after a history of actions, from a fresh daemon. *)
Definition after (cfg : DaemonConfig) (history : list Action) : ToolDaemon :=
  foldl step (new cfg) history.

(** The states a daemon can be in. *)
Definition reachable (d : ToolDaemon) : Prop :=
  ∃ cfg history, d = after cfg history.

End Daemon.

(* ===================================================================== *)
(** ** daemon.ts: DaemonManager                                          *)
(* ===================================================================== *)

Module Manager.
Import Daemon.

(** [daemons] is the [Map] from tool name to daemon object; the daemon
    objects are shared with whoever obtained them through [get], so every
    method call and event on a daemon goes through the map ([deliver]).
    [awaiting] holds the [startOne] calls suspended at
    [await this.setupAndStartDaemon(daemon)]: the tool name and the number
    of the start call they wait for.  [display] is what the data handlers
    installed by [setupAndStartDaemon] wrote to the display sink. *)
Record DaemonManager : Type := mkManager {
  daemons : gmap jsstring ToolDaemon;
  activeDaemon : option jsstring;
  displayHandler : bool;
  awaiting : list (jsstring * nat);
  display : list jsstring;
}.

Definition empty : DaemonManager :=
  {| daemons := ∅; activeDaemon := None; displayHandler := false;
     awaiting := []; display := [] |}.

Definition set_daemons (v : gmap jsstring ToolDaemon) (m : DaemonManager) : DaemonManager :=
  mkManager v (activeDaemon m) (displayHandler m) (awaiting m) (display m).
Definition set_activeDaemon (v : option jsstring) (m : DaemonManager) : DaemonManager :=
  mkManager (daemons m) v (displayHandler m) (awaiting m) (display m).
Definition set_awaiting (v : list (jsstring * nat)) (m : DaemonManager) : DaemonManager :=
  mkManager (daemons m) (activeDaemon m) (displayHandler m) v (display m).
Definition set_display (v : list jsstring) (m : DaemonManager) : DaemonManager :=
  mkManager (daemons m) (activeDaemon m) (displayHandler m) (awaiting m) v.

(** [register(config)]; a daemon object replaced in the map is no longer
    followed, nor are the [startOne] calls waiting for it. *)
Definition register (cfg : DaemonConfig) (m : DaemonManager) : DaemonManager :=
  set_awaiting (filter (fun w => w.1 ≠ name cfg) (awaiting m))
    (set_daemons (<[name cfg := new cfg]> (daemons m)) m).

(** [get(name)] *)
Definition get (n : jsstring) (m : DaemonManager) : option ToolDaemon :=
  daemons m !! n.

(** [getActive()] *)
Definition getActive (m : DaemonManager) : option ToolDaemon :=
  match activeDaemon m with
  | Some n => if JS.truthy n then daemons m !! n else None
  | None => None
  end.

(** [setActive(name)] *)
Definition setActive (n : jsstring) (m : DaemonManager) : outcome unit * DaemonManager :=
  match daemons m !! n with
  | None => (Throw (JS.lit "Unknown tool: " ++ n), m)
  | Some _ =>
      let m :=
        match activeDaemon m, getActive m with
        | Some prev, Some previousDaemon =>
            if bool_decide (getState previousDaemon = interactive)
            then set_daemons (<[prev := exitInteractiveMode previousDaemon]> (daemons m)) m
            else m
        | _, _ => m
        end in
      (Return (), set_activeDaemon (Some n) m)
  end.

(** [setDisplayHandler(handler)] *)
Definition setDisplayHandler (m : DaemonManager) : DaemonManager :=
  mkManager (daemons m) (activeDaemon m) true (awaiting m) (display m).

(** What [startOne] does before it returns or suspends. *)
Inductive StartOne : Type :=
| Resolved                       (* returned: the promise is fulfilled *)
| Rejected (message : jsstring)
| Awaiting (h : nat).            (* suspended on start call [h] *)

(** [setupAndStartDaemon(daemon)], up to the [await]. *)
Definition setupAndStartDaemon (d : ToolDaemon) : outcome nat * ToolDaemon :=
  let d := if bool_decide (dataListeners d = O) then set_dataListeners 1%nat d else d in
  start d.

(** [startOne(name)], up to its [await]; the rest of it,
    [this.activeDaemon = name], runs in [deliver] when the start call is
    fulfilled. *)
Definition startOne (n : jsstring) (m : DaemonManager) : StartOne * DaemonManager :=
  match daemons m !! n with
  | None => (Rejected (JS.lit "Unknown tool: " ++ n), m)
  | Some daemon =>
      if bool_decide (getState daemon ≠ starting) && bool_decide (getState daemon ≠ dead)
      then (Resolved, m)
      else
        match setupAndStartDaemon daemon with
        | (Throw msg, daemon') => (Rejected msg, set_daemons (<[n := daemon']> (daemons m)) m)
        | (Return h, daemon') =>
            (Awaiting h,
             set_awaiting (awaiting m ++ [(n, h)])
               (set_daemons (<[n := daemon']> (daemons m)) m))
        end
  end.

(** The state of the start call a suspended [startOne] waits for. *)
Definition awaited (m : DaemonManager) (w : jsstring * nat) : Settled :=
  match daemons m !! w.1 ≫= (fun d => startCalls d !! w.2) with
  | Some c => startPromise c
  | None => Pending
  end.

(** Resume the suspended [startOne] calls whose start call is settled:
    a fulfilled one sets [activeDaemon], a rejected one just ends. *)
Definition resume (m : DaemonManager) : DaemonManager :=
  foldl (fun m w =>
           match awaited m w with
           | Fulfilled => set_activeDaemon (Some w.1) m
           | _ => m
           end)
        (set_awaiting (filter (fun w => awaited m w = Pending) (awaiting m)) m)
        (awaiting m).

(** An action on the daemon registered as [n]: a method called on the
    object that [get(n)] returns, or an event of its pty or timers.  Data
    of the pty is shown when a data handler is installed and the daemon is
    the active one. *)
Definition deliver (n : jsstring) (a : Action) (m : DaemonManager) : DaemonManager :=
  match daemons m !! n with
  | None => m
  | Some d =>
      let m :=
        match a with
        | PtyData _ data =>
            if enabled a d && bool_decide (dataListeners d ≠ O)
               && bool_decide (activeDaemon m = Some (name (config d)))
            then set_display (display m ++ [data]) m else m
        | _ => m
        end in
      resume (set_daemons (<[n := step d a]> (daemons m)) m)
  end.

(** [stopAll()]: every daemon is stopped and the registry cleared; the
    stopped daemons are no longer followed. *)
Definition stopAll (m : DaemonManager) : DaemonManager :=
  mkManager ∅ None (displayHandler m) [] (display m).

(** The daemons that hold Interactive state. *)
Definition interactiveDaemons (m : DaemonManager) : gmap jsstring ToolDaemon :=
  filter (fun kv => state kv.2 = interactive) (daemons m).

End Manager.

(* ===================================================================== *)
(** ** session.ts: SessionManager                                        *)
(* ===================================================================== *)

Inductive Role : Type := user | assistant.

#[global] Instance Role_eq_dec : EqDecision Role.
Proof. solve_decision. Defined.

Module Session.

Record Message : Type := mkMessage {
  role : Role;
  tool : jsstring;
  content : jsstring;
  timestamp : N;
}.

(** The part of a [ToolAdapter] (declared in adapters/base.ts, which is not
    among the sources) that [SessionManager] uses.  What the wrapped tool
    answers is not decided by this program: [send] gives, for each prompt,
    the response or the error of the adapter. *)
Module Adapter.
Record ToolAdapter : Type := mkAdapter {
  name : jsstring;
  displayName : jsstring;
  isAvailable : bool;
  send : jsstring -> outcome jsstring;
}.
End Adapter.
Abbreviation ToolAdapter := Adapter.ToolAdapter.

Record SessionManager : Type := mkSession {
  messages : list Message;
  defaultTool : jsstring;
}.

Section WithRegistry.
(** [this.registry.get(name)] *)
Variable registry : jsstring -> option ToolAdapter.

(** [getLastResponse(toolName?)] *)
Definition getLastResponse (toolName : option jsstring) (s : SessionManager)
  : option Message :=
  let filtered :=
    match toolName with
    | Some t =>
        if JS.truthy t
        then filter (fun m => tool m = t ∧ role m = assistant) (messages s)
        else filter (fun m => role m = assistant) (messages s)
    | None => filter (fun m => role m = assistant) (messages s)
    end in
  last filtered.

(** [addUserMessage(content, tool)], at time [now] *)
Definition addUserMessage (c t : jsstring) (now : N) (s : SessionManager) : SessionManager :=
  mkSession (messages s ++ [mkMessage user t c now]) (defaultTool s).

(** [addAssistantMessage(content, tool)], at time [now] *)
Definition addAssistantMessage (c t : jsstring) (now : N) (s : SessionManager) : SessionManager :=
  mkSession (messages s ++ [mkMessage assistant t c now]) (defaultTool s).

(** [this.messages.pop()] *)
Definition pop (s : SessionManager) : SessionManager :=
  mkSession (removelast (messages s)) (defaultTool s).

(** [send(prompt, toolName?)]; [t1] and [t2] are the times at which the
    user message and the assistant message are created. *)
Definition send (prompt : jsstring) (toolName : option jsstring) (t1 t2 : N)
    (s : SessionManager) : outcome jsstring * SessionManager :=
  let key := JS.or_else toolName (defaultTool s) in
  match registry key with
  | None => (Throw (JS.lit "Unknown tool: " ++ key), s)
  | Some adapter =>
      if negb (Adapter.isAvailable adapter)
      then (Throw (JS.lit "Tool " ++ Adapter.displayName adapter ++ JS.lit " is not available"), s)
      else
        let s := addUserMessage prompt (Adapter.name adapter) t1 s in
        match Adapter.send adapter prompt with
        | Return response =>
            (Return response, addAssistantMessage response (Adapter.name adapter) t2 s)
        | Throw error =>
            (* Remove the user message if the request failed *)
            (Throw error, pop s)
        end
  end.

(** The default prefix of [forward]. *)
Definition defaultPrefix (fromAdapter : option ToolAdapter) (fromTool : jsstring) : jsstring :=
  JS.lit "Another AI assistant ("
  ++ JS.or_else (Adapter.displayName <$> fromAdapter) fromTool
  ++ JS.lit ") proposed the following. Please review and provide feedback:"
  ++ [JS.LF; JS.LF] ++ JS.lit "---" ++ [JS.LF].

Definition forwardSuffix (additionalPrompt : option jsstring) : jsstring :=
  match additionalPrompt with
  | Some a =>
      if JS.truthy a
      then [JS.LF] ++ JS.lit "---" ++ [JS.LF; JS.LF] ++ JS.lit "Additional context: " ++ a
      else []
  | None => []
  end.

(** [forward(fromTool, toTool, additionalPrompt?, options?)], [prefix]
    being [options?.prefix]. *)
Definition forward (fromTool toTool : jsstring) (additionalPrompt : option jsstring)
    (prefix : option jsstring) (t1 t2 : N) (s : SessionManager)
  : outcome jsstring * SessionManager :=
  match getLastResponse (Some fromTool) s with
  | None =>
      (Throw (JS.lit "No response found from " ++ fromTool ++ JS.lit " to forward"), s)
  | Some lastResponse =>
      let fromAdapter := registry fromTool in
      match registry toTool with
      | None => (Throw (JS.lit "Unknown tool: " ++ toTool), s)
      | Some _ =>
          let prefix := JS.or_else prefix (defaultPrefix fromAdapter fromTool) in
          let suffix := forwardSuffix additionalPrompt in
          let forwardPrompt := prefix ++ content lastResponse ++ suffix in
          send forwardPrompt (Some toTool) t1 t2 s
      end
  end.

End WithRegistry.

End Session.

(* ===================================================================== *)
(** ** sdk-session.ts: SDKSession                                        *)
(* ===================================================================== *)

Module SDK.

Inductive Tool : Type := claude | gemini.

Definition toolName (t : Tool) : jsstring :=
  JS.lit match t with claude => "claude" | gemini => "gemini" end.

Record Message : Type := mkMessage {
  tool : jsstring;
  role : Role;
  content : jsstring;
}.

(** How the child process of a print-mode request ends: its ['close']
    event with the exit code ([None] for [null]) and what it wrote, or an
    ['error'] event. *)
Inductive ProcessResult : Type :=
| Close (code : option Z) (stdout stderr : jsstring)
| Error (message : jsstring).

(** The print-mode part of [SDKSession]; [spawned] lists the
    [spawn(command, args)] calls made so far, oldest first. *)
Record SDKSession : Type := mkSDK {
  activeTool : Tool;
  conversationHistory : list Message;
  claudeHasSession : bool;
  geminiHasSession : bool;
  spawned : list (jsstring * list jsstring);
}.

Definition set_activeTool (v : Tool) (s : SDKSession) : SDKSession :=
  mkSDK v (conversationHistory s) (claudeHasSession s) (geminiHasSession s) (spawned s).
Definition set_conversationHistory (v : list Message) (s : SDKSession) : SDKSession :=
  mkSDK (activeTool s) v (claudeHasSession s) (geminiHasSession s) (spawned s).
Definition set_claudeHasSession (v : bool) (s : SDKSession) : SDKSession :=
  mkSDK (activeTool s) (conversationHistory s) v (geminiHasSession s) (spawned s).
Definition set_geminiHasSession (v : bool) (s : SDKSession) : SDKSession :=
  mkSDK (activeTool s) (conversationHistory s) (claudeHasSession s) v (spawned s).
Definition spawn (cmd : jsstring) (args : list jsstring) (s : SDKSession) : SDKSession :=
  mkSDK (activeTool s) (conversationHistory s) (claudeHasSession s) (geminiHasSession s)
        (spawned s ++ [(cmd, args)]).

(** [`${code}`] for an exit code. *)
Definition showCode (code : option Z) : jsstring :=
  match code with
  | Some z => JS.lit (DecimalString.NilZero.string_of_int (Z.to_int z))
  | None => JS.lit "null"
  end.

(** The settlement of the promise of [sendToClaude] / [sendToGemini] once
    the child process has ended as [res]. *)
Definition settle (who : string) (res : ProcessResult)
    (markSession : SDKSession -> SDKSession) (s : SDKSession)
  : outcome jsstring * SDKSession :=
  match res with
  | Close code stdout stderr =>
      if bool_decide (code ≠ Some 0%Z)
      then (Throw (JS.lit who ++ JS.lit " exited with code " ++ showCode code
                   ++ JS.lit ": " ++ JS.or_else (Some stderr) stdout), s)
      else (Return (JS.trim (stripAnsi stdout)), markSession s)
  | Error msg => (Throw msg, s)
  end.

(** [sendToClaude(message)] *)
Definition sendToClaude (message : jsstring) (res : ProcessResult) (s : SDKSession)
  : outcome jsstring * SDKSession :=
  let args := [JS.lit "-p"]
              ++ (if claudeHasSession s then [JS.lit "--continue"] else [])
              ++ [message] in
  settle "Claude" res (set_claudeHasSession true) (spawn (JS.lit "claude") args s).

(** [sendToGemini(message)] *)
Definition sendToGemini (message : jsstring) (res : ProcessResult) (s : SDKSession)
  : outcome jsstring * SDKSession :=
  let args := (if geminiHasSession s then [JS.lit "--resume"; JS.lit "latest"] else [])
              ++ [message] in
  settle "Gemini" res (set_geminiHasSession true) (spawn (JS.lit "gemini") args s).

(** [sendToTool(message)], the child process ending as [res]. *)
Definition sendToTool (message : jsstring) (res : ProcessResult) (s : SDKSession)
  : SDKSession :=
  (* Record user message *)
  let s := set_conversationHistory
             (conversationHistory s ++ [mkMessage (toolName (activeTool s)) user message]) s in
  let r := match activeTool s with
           | claude => sendToClaude message res s
           | gemini => sendToGemini message res s
           end in
  match r with
  | (Return response, s) =>
      (* Record assistant response *)
      set_conversationHistory
        (conversationHistory s ++ [mkMessage (toolName (activeTool s)) assistant response]) s
  | (Throw _, s) =>
      (* Remove the user message if failed *)
      set_conversationHistory (removelast (conversationHistory s)) s
  end.

Definition displayNameOf (t : jsstring) : jsstring :=
  if JS.eqb t (JS.lit "claude") then JS.lit "Claude Code" else JS.lit "Gemini CLI".

(** The forward prompt built by [handleForward]. *)
Definition forwardPrompt (sourceDisplayName content additionalMessage : jsstring) : jsstring :=
  let forwardPrompt :=
    JS.lit "Another AI assistant (" ++ sourceDisplayName
    ++ JS.lit ") provided this response. Please review and share your thoughts:"
    ++ [JS.LF; JS.LF] ++ JS.lit "---" ++ [JS.LF] ++ content ++ [JS.LF] ++ JS.lit "---" in
  if JS.truthy additionalMessage
  then forwardPrompt ++ [JS.LF; JS.LF] ++ JS.lit "Additional context: " ++ additionalMessage
  else forwardPrompt.

(** [handleForward(additionalMessage)] *)
Definition handleForward (additionalMessage : jsstring) (res : ProcessResult)
    (s : SDKSession) : SDKSession :=
  (* Find the last assistant response *)
  match List.find (fun m => bool_decide (role m = assistant)) (rev (conversationHistory s)) with
  | None => s
  | Some lastResponse =>
      (* Switch to the other tool *)
      let sourceTool := tool lastResponse in
      let targetTool := if JS.eqb sourceTool (JS.lit "claude") then gemini else claude in
      let s := set_activeTool targetTool s in
      let sourceDisplayName := displayNameOf sourceTool in
      sendToTool (forwardPrompt sourceDisplayName (content lastResponse) additionalMessage) res s
  end.

End SDK.

(* ===================================================================== *)
(** ** Vocabulary of the statements                                      *)
(* ===================================================================== *)

Module Spec.
Import Daemon.

(** An escape sequence as [stripAnsi] recognises it: ESC and one code unit
    of [@-Z\\-_], or ESC [ followed by parameter units [0-?], intermediate
    units [ -/] and a final unit [@-~]. *)
Inductive ansiSequence : jsstring -> Prop :=
| ansi_single (c : N) :
    union (range 0x40 0x5A) (range 0x5C 0x5F) c = true ->
    ansiSequence [JS.ESC; c]
| ansi_csi (params inter : jsstring) (final : N) :
    Forall (fun c => range 0x30 0x3F c = true) params ->
    Forall (fun c => range 0x20 0x2F c = true) inter ->
    range 0x40 0x7E final = true ->
    ansiSequence ([JS.ESC; 0x5B] ++ params ++ inter ++ [final]).

Definition containsAnsi (s : jsstring) : Prop :=
  ∃ pre m post, s = pre ++ m ++ post ∧ ansiSequence m.

(** The text starts, or ends, with a code unit that [trim] removes. *)
Definition leadingSpace (s : jsstring) : Prop :=
  ∃ c t, s = c :: t ∧ JS.isSpace c = true.
Definition trailingSpace (s : jsstring) : Prop :=
  ∃ t c, s = t ++ [c] ∧ JS.isSpace c = true.

(** A [ToolDaemon] has no field for session continuation.  What a restart
    would resume with is decided by the launch arguments alone, which
    [start()] takes from the configuration: the sources ask a tool to
    resume with [--continue] (claude) or [--resume latest] (gemini). *)
Definition isResumeHint (a : jsstring) : bool :=
  JS.eqb a (JS.lit "--continue") || JS.eqb a (JS.lit "--resume").
Definition resumesSession (d : ToolDaemon) : bool :=
  existsb isResumeHint (args (config d)).

(** The fate of the promise of send call [p]: fulfilled once
    [responseResolver] was called for it, pending until then.  (No effect
    rejects it.) *)
Definition resolves (p : nat) (e : Effect) : bool :=
  match e with ResolveSend q _ => Nat.eqb p q | _ => false end.
Definition sendSettled (p : nat) (d : ToolDaemon) : Settled :=
  if existsb (resolves p) (io d) then Fulfilled else Pending.

(** The response buffer is non-empty only in state Busy; only while a
    send is pending. *)
Definition bufferOnlyWhileBusy (d : ToolDaemon) : Prop :=
  responseBuffer d ≠ [] -> state d = busy.
Definition bufferOnlyWhilePending (d : ToolDaemon) : Prop :=
  responseBuffer d ≠ [] -> is_Some (responseResolver d).
(** A pending send has its idle timer armed. *)
Definition timerWhilePending (d : ToolDaemon) : Prop :=
  is_Some (responseResolver d) -> is_Some (responseTimeoutId d).
(** Only promises of send calls that were made have been resolved, and the
    promise held in [responseResolver] has not. *)
Definition pendingUnsettled (d : ToolDaemon) : Prop :=
  (∀ q, existsb (resolves q) (io d) = true -> (q < sendCalls d)%nat) ∧
  (∀ p, responseResolver d = Some p ->
        (p < sendCalls d)%nat ∧ existsb (resolves p) (io d) = false).
End Spec.

Module SpecEscape.

(** "ANSI escape sequence" in the sense of the standards behind the name
    (ECMA-35, ECMA-48): ESC, any number of intermediate units [ -/] and a
    final unit [0-~].  ESC c resets the terminal, ESC 7 saves the cursor,
    ESC ( B selects a character set.  [stripAnsi] recognises fewer: see
    [Spec.ansiSequence]. *)
Inductive escapeSequence : jsstring -> Prop :=
| escape_sequence (inter : jsstring) (final : N) :
    Forall (fun c => range 0x20 0x2F c = true) inter ->
    range 0x30 0x7E final = true ->
    escapeSequence ([JS.ESC] ++ inter ++ [final]).

Definition containsEscape (s : jsstring) : Prop :=
  ∃ pre m post, s = pre ++ m ++ post ∧ escapeSequence m.

End SpecEscape.


Module Example.
Import Daemon.

(** A tool without prompt pattern, launched as [cat] with no arguments. *)
Definition echoConfig : DaemonConfig :=
  {| name := JS.lit "echo"; displayName := JS.lit "Echo"; command := JS.lit "cat";
     args := []; cwd := None; promptPattern := None;
     responseTimeout := None; startupTimeout := None |}.

(** Started, ready after five seconds, sent "hi", and "partial" received. *)
Definition answering : ToolDaemon :=
  after echoConfig
    [CallStart; GraceTimer 0; CallSend (JS.lit "hi"); PtyData 0 (JS.lit "partial")].

(** ... and then the process exits with code 1. *)
Definition exited : ToolDaemon := step answering (PtyExit 0 1%Z).

(** Received a coloured answer with a trailing newline. *)
Definition coloured : ToolDaemon :=
  after echoConfig
    [CallStart; GraceTimer 0; CallSend (JS.lit "hi");
     PtyData 0 ([JS.ESC] ++ JS.lit "[32mhello" ++ [JS.ESC] ++ JS.lit "[0m" ++ [JS.LF])].

End Example.

Module ExampleEscape.
Import Daemon.

(** Received an answer that starts with ESC c, the sequence that resets
    the terminal. *)
Definition afterReset : ToolDaemon :=
  after Example.echoConfig
    [CallStart; GraceTimer 0; CallSend (JS.lit "hi");
     PtyData 0 ([JS.ESC] ++ JS.lit "chello")].

(** ... and one that selects the ASCII character set with ESC ( B. *)
Definition afterCharset : ToolDaemon :=
  after Example.echoConfig
    [CallStart; GraceTimer 0; CallSend (JS.lit "hi");
     PtyData 0 ([JS.ESC] ++ JS.lit "(Bhello")].

End ExampleEscape.

Module ExampleManager.
Import Daemon Manager.

Definition claudeConfig : DaemonConfig :=
  {| name := JS.lit "claude"; displayName := JS.lit "Claude Code";
     command := JS.lit "claude"; args := []; cwd := None; promptPattern := None;
     responseTimeout := None; startupTimeout := None |}.
Definition geminiConfig : DaemonConfig :=
  {| name := JS.lit "gemini"; displayName := JS.lit "Gemini CLI";
     command := JS.lit "gemini"; args := []; cwd := None; promptPattern := None;
     responseTimeout := None; startupTimeout := None |}.

Definition registered : DaemonManager :=
  register geminiConfig (register claudeConfig Manager.empty).

(** [startOne("claude")], ready after five seconds: claude is active. *)
Definition claudeReady : DaemonManager :=
  deliver (JS.lit "claude") (GraceTimer 0) (startOne (JS.lit "claude") registered).2.

(** The active daemon, claude, enters interactive mode. *)
Definition claudeAttached : DaemonManager :=
  deliver (JS.lit "claude") CallEnterInteractiveMode claudeReady.

Definition attachedClaude : ToolDaemon :=
  Eval vm_compute in
    default (new claudeConfig) (daemons claudeAttached !! JS.lit "claude").

(** [startOne("gemini")], ready after five seconds: gemini is active. *)
Definition geminiStarted : DaemonManager :=
  deliver (JS.lit "gemini") (GraceTimer 0) (startOne (JS.lit "gemini") claudeAttached).2.

(** [setActive("gemini")], then the active daemon enters interactive mode. *)
Definition geminiSelected : DaemonManager := (setActive (JS.lit "gemini") geminiStarted).2.
Definition bothAttached : DaemonManager :=
  deliver (JS.lit "gemini") CallEnterInteractiveMode geminiSelected.



End ExampleManager.

Module SpecRelay.

(** The envelope as the specification words it, for the display name of the
    source tool, the forwarded content, and the additional message if one
    was supplied. *)
Definition specEnvelope (displayName content : jsstring) (message : option jsstring)
  : jsstring :=
  JS.lit "Another AI assistant (" ++ displayName
  ++ JS.lit ") provided this response. Please review and share your thoughts:"
  ++ [JS.LF; JS.LF] ++ JS.lit "---" ++ [JS.LF] ++ content ++ [JS.LF] ++ JS.lit "---"
  ++ match message with
     | Some m => [JS.LF; JS.LF] ++ JS.lit "Additional context: " ++ m
     | None => []
     end.

(** An additional message is supplied when the argument is a non-empty
    string. *)
Definition supplied (additionalMessage : jsstring) : option jsstring :=
  if JS.truthy additionalMessage then Some additionalMessage else None.

(** The arguments that precede the message in a print-mode request to
    [target]: [-p] and [--continue] for claude, [--resume latest] for
    gemini, the resume arguments only when the tool has a session. *)
Definition printModeFlags (target : SDK.Tool) (s : SDK.SDKSession) : list jsstring :=
  match target with
  | SDK.claude =>
      [JS.lit "-p"] ++ (if SDK.claudeHasSession s then [JS.lit "--continue"] else [])
  | SDK.gemini =>
      if SDK.geminiHasSession s then [JS.lit "--resume"; JS.lit "latest"] else []
  end.

(** A print-mode request fails when the child process cannot be spawned or
    closes with an exit code other than 0. *)
Definition failed (res : SDK.ProcessResult) : Prop :=
  match res with
  | SDK.Close code _ _ => code ≠ Some 0%Z
  | SDK.Error _ => True
  end.

End SpecRelay.

Module ExampleRelay.

(** "ESC ESC [0m [0m": an escape sequence inside the pieces of another. *)
Definition nested : jsstring := [JS.ESC; JS.ESC] ++ JS.lit "[0m[0m".

(** An adapter that is available and answers with the prompt it was sent. *)
Definition echoAdapter (name displayName : string) : Session.ToolAdapter :=
  {| Session.Adapter.name := JS.lit name; Session.Adapter.displayName := JS.lit displayName;
     Session.Adapter.isAvailable := true; Session.Adapter.send := fun prompt => Return prompt |}.

(** An adapter whose requests fail. *)
Definition failingAdapter (name displayName : string) : Session.ToolAdapter :=
  {| Session.Adapter.name := JS.lit name; Session.Adapter.displayName := JS.lit displayName;
     Session.Adapter.isAvailable := true;
     Session.Adapter.send := fun _ => Throw (JS.lit "Gemini CLI exited with code 1: quota") |}.

Definition registry (key : jsstring) : option Session.ToolAdapter :=
  if JS.eqb key (JS.lit "claude") then Some (echoAdapter "claude" "Claude Code")
  else if JS.eqb key (JS.lit "gemini") then Some (echoAdapter "gemini" "Gemini CLI")
  else None.

Definition failingRegistry (key : jsstring) : option Session.ToolAdapter :=
  if JS.eqb key (JS.lit "claude") then Some (echoAdapter "claude" "Claude Code")
  else if JS.eqb key (JS.lit "gemini") then Some (failingAdapter "gemini" "Gemini CLI")
  else None.

(** A session in which claude has answered "X". *)
Definition answered : Session.SessionManager :=
  {| Session.messages :=
       [ Session.mkMessage user (JS.lit "claude") (JS.lit "question") 1;
         Session.mkMessage assistant (JS.lit "claude") (JS.lit "X") 2 ];
     Session.defaultTool := JS.lit "claude" |}.

Definition answeredSDK : SDK.SDKSession :=
  {| SDK.activeTool := SDK.claude;
     SDK.conversationHistory :=
       [ SDK.mkMessage (JS.lit "claude") user (JS.lit "question");
         SDK.mkMessage (JS.lit "claude") assistant (JS.lit "X") ];
     SDK.claudeHasSession := true;
     SDK.geminiHasSession := false;
     SDK.spawned := [(JS.lit "claude", [JS.lit "-p"; JS.lit "question"])] |}.

End ExampleRelay.


(* ===================================================================== *)
(** ** utils.ts: truncate                                                *)
(* ===================================================================== *)

Module Utils.

(** [s.slice(0, end)] for an integer [end]: a negative [end] counts from
    the end of the string. *)
Definition slice0 (e : Z) (s : jsstring) : jsstring :=
  let len := Z.of_nat (length s) in
  take (Z.to_nat (if (e <? 0)%Z then Z.max (len + e) 0 else Z.min e len)) s.

(** [truncate(text, maxLength)], for an integer [maxLength]. *)
Definition truncate (text : jsstring) (maxLength : Z) : jsstring :=
  if (Z.of_nat (length text) <=? maxLength)%Z then text
  else slice0 (maxLength - 3) text ++ JS.lit "...".

End Utils.

(* ===================================================================== *)
(** ** sdk-session.ts: display helpers                                   *)
(* ===================================================================== *)

Module SDKDisplay.

(** [colors.reset] *)
Definition reset : jsstring := [JS.ESC] ++ JS.lit "[0m".

(** [/\x1b\[[0-9;]*m/g] *)
Definition sgrPattern : re :=
  seqs [ Chr (code JS.ESC); Chr (code 0x5B);
         Star (Chr (union digit (code 0x3B)));
         Chr (code 0x6D) ].

(** [stripAnsiLength(str)] *)
Definition stripAnsiLength (str : jsstring) : nat :=
  length (replaceAll sgrPattern [] str).

(** [colorize(text, color)] *)
Definition colorize (text color : jsstring) : jsstring :=
  color ++ text ++ reset.

(** A colour code as [stripAnsiLength] recognises it: ESC [, digits and
    semicolons, and a final m. *)
Inductive sgrSequence : jsstring -> Prop :=
| sgr (params : jsstring) :
    Forall (fun c => union digit (code 0x3B) c = true) params ->
    sgrSequence ([JS.ESC; 0x5B] ++ params ++ [0x6D]).

End SDKDisplay.

(* ===================================================================== *)
(** ** adapters/gemini.ts: the session of the adapter                    *)
(* ===================================================================== *)

Module GeminiSession.

(** The mutable fields of a [GeminiAdapter]. *)
Record GeminiAdapter : Type := mkGemini {
  hasActiveSession : bool;
  hasStartedInteractiveSession : bool;
}.

(** [new GeminiAdapter()] *)
Definition new : GeminiAdapter := mkGemini false false.

(** What [runCommand] resolves with. *)
Record RunResult : Type := mkRunResult {
  stdout : jsstring;
  stderr : jsstring;
  exitCode : Z;
}.

(** [options?.continueSession !== false], the option being absent ([None])
    or a boolean. *)
Definition continues (continueSession : option bool) : bool :=
  negb (bool_decide (continueSession = Some false)).

(** [getCommand(prompt, options?)] *)
Definition getCommand (prompt : jsstring) (continueSession : option bool)
    (a : GeminiAdapter) : list jsstring :=
  let shouldContinue := continues continueSession && hasActiveSession a in
  let args := (if shouldContinue then [JS.lit "--resume"; JS.lit "latest"] else [])
              ++ [prompt] in
  JS.lit "gemini" :: args.

(** [getInteractiveCommand(options?)] *)
Definition getInteractiveCommand (continueSession : option bool) (a : GeminiAdapter)
  : list jsstring :=
  let args := if continues continueSession && hasActiveSession a
              then [JS.lit "--resume"; JS.lit "latest"] else [] in
  JS.lit "gemini" :: args.

(** [getPersistentArgs()] *)
Definition getPersistentArgs (a : GeminiAdapter) : list jsstring :=
  if hasActiveSession a || hasStartedInteractiveSession a
  then [JS.lit "--resume"; JS.lit "latest"]
  else [].

(** [send(prompt, options?)]; [runCommand] gives what
    [runCommand('gemini', args, ...)] settles with for the arguments it is
    called with. *)
Definition send (prompt : jsstring) (continueSession : option bool)
    (runCommand : list jsstring -> outcome RunResult) (a : GeminiAdapter)
  : outcome jsstring * GeminiAdapter :=
  let args := drop 1 (getCommand prompt continueSession a) in
  match runCommand args with
  | Throw err => (Throw err, a)
  | Return result =>
      if bool_decide (exitCode result ≠ 0%Z) then
        let errorMsg :=
          JS.or_else (Some (JS.trim (stderr result)))
            (JS.or_else (Some (JS.trim (stdout result))) (JS.lit "Unknown error")) in
        (Throw (JS.lit "Gemini CLI exited with code "
                ++ SDK.showCode (Some (exitCode result)) ++ JS.lit ": " ++ errorMsg), a)
      else
        (Return (JS.trim (stdout result)),
         mkGemini true (hasStartedInteractiveSession a))
  end.

(** [resetContext()] *)
Definition resetContext (a : GeminiAdapter) : GeminiAdapter := mkGemini false false.

(** [markInteractiveSessionStarted()] *)
Definition markInteractiveSessionStarted (a : GeminiAdapter) : GeminiAdapter :=
  mkGemini (hasActiveSession a) true.

(** [hasSession()] *)
Definition hasSession (a : GeminiAdapter) : bool := hasActiveSession a.

(** [setHasSession(value)] *)
Definition setHasSession (value : bool) (a : GeminiAdapter) : GeminiAdapter :=
  mkGemini value (hasStartedInteractiveSession a).

End GeminiSession.

Module ExampleGemini.
Import GeminiSession.

(** A gemini that answers every request with " pong" and a line feed. *)
Definition pong (args : list jsstring) : outcome RunResult :=
  Return (mkRunResult (JS.lit " pong" ++ [JS.LF]) [] 0).

(** A gemini that fails with exit code 1 and nothing but blanks on its
    output streams. *)
Definition failing (args : list jsstring) : outcome RunResult :=
  Return (mkRunResult (JS.lit "  ") [JS.LF] 1).

End ExampleGemini.

(* ===================================================================== *)
(** ** Vocabulary of the further properties                              *)
(* ===================================================================== *)

(** A matcher hands its continuation a suffix of the input. *)
Definition consuming {R} (body : option N -> jsstring -> @cont R -> option R) : Prop :=
  ∀ prev s k x, body prev s k = Some x ->
    ∃ p' s', s' `suffix_of` s ∧ k p' s' = Some x.

Module SpecMore.
Import Daemon.

(** How often the promise of send call [p] was resolved. *)
Definition resolutions (p : nat) (d : ToolDaemon) : nat :=
  length (List.filter (Spec.resolves p) (io d)).

(** The data that the daemon emitted as ['data'] events, in order. *)
Definition emitted (effects : list Effect) : list jsstring :=
  omap (fun e => match e with EmitData data => Some data | _ => None end) effects.

(** What the daemon did to ptys: spawning, writing, killing. *)
Definition ptyEffect (e : Effect) : bool :=
  match e with Spawn _ _ | PtyWrite _ _ | PtyKill _ => true | _ => false end.
Definition ptyEffects (d : ToolDaemon) : list Effect := List.filter ptyEffect (io d).

(** The pty events of a response: data chunks, each from some pty. *)
Definition deliverChunks (chunks : list (nat * jsstring)) (d : ToolDaemon) : ToolDaemon :=
  foldl (fun d chunk => onData chunk.1 chunk.2 d) d chunks.

(** [n] calls of [enterInteractiveMode()] in a row. *)
Definition enterTimes (n : nat) (d : ToolDaemon) : ToolDaemon :=
  Nat.iter n (fun d => (enterInteractiveMode d).2) d.

(** An update of a start call that does not fulfil its promise. *)
Definition keepsUnfulfilled (f : StartCall -> StartCall) : Prop :=
  ∀ c, startPromise (f c) = Fulfilled -> startPromise c = Fulfilled.

End SpecMore.

Module ExampleMore.
Import Daemon.

(** Started and ready after five seconds. *)
Definition idle : ToolDaemon := after Example.echoConfig [CallStart; GraceTimer 0].

(** Sent "hi", then attached to the terminal and detached again before any
    answer: Ready, with the send of "hi" still pending. *)
Definition detoured : ToolDaemon :=
  after Example.echoConfig
    [CallStart; GraceTimer 0; CallSend (JS.lit "hi");
     CallEnterInteractiveMode; CallExitInteractiveMode].

(** Answered "hello" to "hi", and was then stopped. *)
Definition stopped : ToolDaemon :=
  after Example.echoConfig
    [CallStart; GraceTimer 0; CallSend (JS.lit "hi"); PtyData 0 (JS.lit "hello");
     IdleTimeout; CallStop].

End ExampleMore.

Module ManagerRuns.
Import Daemon Manager.

(** What can happen to a manager: one of its methods is called, or
    something happens to a registered daemon. *)
Inductive Call : Type :=
| CallRegister (cfg : DaemonConfig)
| CallSetActive (n : jsstring)
| CallSetDisplayHandler
| CallStartOne (n : jsstring)
| OnDaemon (n : jsstring) (a : Action)
| CallStopAll.

Definition perform (m : DaemonManager) (c : Call) : DaemonManager :=
  match c with
  | CallRegister cfg => register cfg m
  | CallSetActive n => (setActive n m).2
  | CallSetDisplayHandler => setDisplayHandler m
  | CallStartOne n => (startOne n m).2
  | OnDaemon n a => deliver n a m
  | CallStopAll => stopAll m
  end.

(** The states of a manager, from [new DaemonManager()]. *)
Definition attainable (m : DaemonManager) : Prop :=
  ∃ calls, m = foldl perform Manager.empty calls.

(** Every daemon is registered under the name of its configuration, and the
    active name is a registered one. *)
Definition keyedByName (m : DaemonManager) : Prop :=
  ∀ n d, daemons m !! n = Some d -> name (config d) = n.
Definition activeRegistered (m : DaemonManager) : Prop :=
  ∀ n, activeDaemon m = Some n -> is_Some (daemons m !! n).

End ManagerRuns.

Module SpecRelayMore.

(** A log made of complete exchanges: each user message is followed by the
    answer of the tool it was sent to. *)
Inductive exchanges : list Session.Message -> Prop :=
| exchanges_nil : exchanges []
| exchanges_snoc (l : list Session.Message) (q a : Session.Message) :
    exchanges l ->
    Session.role q = user -> Session.role a = assistant ->
    Session.tool q = Session.tool a ->
    exchanges (l ++ [q; a]).

(** A print-mode request succeeds when the child process closes with exit
    code 0; its answer is then the ANSI-stripped, trimmed output. *)
Definition succeeded (res : SDK.ProcessResult) : Prop :=
  match res with
  | SDK.Close code _ _ => code = Some 0%Z
  | SDK.Error _ => False
  end.
Definition answerOf (res : SDK.ProcessResult) : jsstring :=
  match res with
  | SDK.Close _ stdout _ => JS.trim (stripAnsi stdout)
  | SDK.Error _ => []
  end.

(** Whether [tool] has a session to resume. *)
Definition toolHasSession (tool : SDK.Tool) (s : SDK.SDKSession) : bool :=
  match tool with
  | SDK.claude => SDK.claudeHasSession s
  | SDK.gemini => SDK.geminiHasSession s
  end.

(** The other tool. *)
Definition other (tool : SDK.Tool) : SDK.Tool :=
  match tool with SDK.claude => SDK.gemini | SDK.gemini => SDK.claude end.

(** The arguments that ask a tool to resume its session. *)
Definition resumeFlags (tool : SDK.Tool) : list jsstring :=
  match tool with
  | SDK.claude => [JS.lit "-p"; JS.lit "--continue"]
  | SDK.gemini => [JS.lit "--resume"; JS.lit "latest"]
  end.

(** The last assistant message, as [handleForward] finds it. *)
Definition lastAssistant (s : SDK.SDKSession) : option SDK.Message :=
  List.find (fun m => bool_decide (SDK.role m = assistant)) (rev (SDK.conversationHistory s)).

End SpecRelayMore.

Module SpecGemini.

(** The spinner frames and the box drawing characters that
    [cleanResponse] removes. *)
Definition spinnerFrame : N -> bool :=
  oneOf [0x280B; 0x2819; 0x2839; 0x2838; 0x283C;
         0x2834; 0x2826; 0x2827; 0x2807; 0x280F].
Definition boxDrawing : N -> bool :=
  oneOf [0x256D; 0x256E; 0x2570; 0x256F; 0x2502; 0x2500; 0x250C;
         0x2510; 0x2514; 0x2518; 0x251C; 0x2524; 0x252C; 0x2534;
         0x253C; 0x2551; 0x2550; 0x2554; 0x2557; 0x255A; 0x255D;
         0x2560; 0x2563; 0x2566; 0x2569; 0x256C].

End SpecGemini.


(* ===================================================================== *)
(** ** Facts about strings and the matcher                               *)
(* ===================================================================== *)

Import Spec.

Section StringFacts.

Lemma trimStart_suffix (s : jsstring) : ∃ pre, s = pre ++ JS.trimStart s.
Proof.
  induction s as [|c s [pre IH]]; simpl.
  - by exists [].
  - destruct (JS.isSpace c).
    + exists (c :: pre). by rewrite IH at 1.
    + by exists [].
Qed.

Lemma trimStart_head (s : jsstring) c t :
  JS.trimStart s = c :: t -> JS.isSpace c = false.
Proof.
  induction s as [|x s IH]; simpl; [done|].
  destruct (JS.isSpace x) eqn:E; [done|]. by intros [= <- _].
Qed.

Lemma trimEnd_prefix (s : jsstring) : ∃ post, s = JS.trimEnd s ++ post.
Proof.
  unfold JS.trimEnd. destruct (trimStart_suffix (rev s)) as [pre E].
  exists (rev pre). rewrite <- rev_app_distr, <- E. by rewrite rev_involutive.
Qed.

Lemma trim_head (s : jsstring) c t : JS.trim s = c :: t -> JS.isSpace c = false.
Proof.
  unfold JS.trim. intros E.
  destruct (trimEnd_prefix (JS.trimStart s)) as [post E'].
  rewrite E in E'. simpl in E'. by apply trimStart_head in E'.
Qed.

Lemma trim_last (s : jsstring) t c : JS.trim s = t ++ [c] -> JS.isSpace c = false.
Proof.
  unfold JS.trim, JS.trimEnd. intros E.
  apply (f_equal (@rev N)) in E. rewrite rev_involutive, rev_app_distr in E.
  simpl in E. by apply trimStart_head in E.
Qed.

Lemma trim_length (s : jsstring) : (length (JS.trim s) <= length s)%nat.
Proof.
  unfold JS.trim.
  destruct (trimStart_suffix s) as [pre E].
  destruct (trimEnd_prefix (JS.trimStart s)) as [post E'].
  rewrite E at 2. rewrite E' at 2. rewrite !length_app. lia.
Qed.

End StringFacts.

Section Fuel.

Lemma star_loop_ext {R} (body : option N -> jsstring -> @cont R -> option R) :
  extensional body -> ∀ n, extensional (star_loop body n).
Proof.
  intros Hb n. induction n as [|n IH]; intros prev s k1 k2 Hk; simpl; [apply Hk|].
  rewrite (Hb prev s _ (fun prev' s' =>
             if (length s' <? length s)%nat then star_loop body n prev' s' k2 else None)).
  - by rewrite Hk.
  - intros p s'. destruct (length s' <? length s)%nat; [by apply IH|done].
Qed.

Lemma run_ext {R} (r : re) : extensional (@run R r).
Proof.
  induction r as [|p|r1 IH1 r2 IH2|r1 IH1 r2 IH2|r IH|ml|ml];
    intros prev s k1 k2 Hk; simpl.
  - apply Hk.
  - destruct s as [|c s]; [done|]. destruct (p c); [apply Hk|done].
  - apply IH1. intros p s'. by apply IH2.
  - rewrite (IH1 prev s k1 k2 Hk), (IH2 prev s k1 k2 Hk). done.
  - by apply star_loop_ext.
  - destruct (at_bol ml prev); [apply Hk|done].
  - destruct (at_eol ml s); [apply Hk|done].
Qed.

Lemma star_loop_none {R} (body : option N -> jsstring -> @cont R -> option R) :
  strict body -> ∀ n, strict (star_loop body n).
Proof.
  intros Hb n. induction n as [|n IH]; intros prev s k Hk; simpl; [apply Hk|].
  rewrite Hb; [apply Hk|].
  intros p s'. destruct (length s' <? length s)%nat; [by apply IH|done].
Qed.

Lemma run_none {R} (r : re) : strict (@run R r).
Proof.
  induction r as [|p|r1 IH1 r2 IH2|r1 IH1 r2 IH2|r IH|ml|ml];
    intros prev s k Hk; simpl.
  - apply Hk.
  - destruct s as [|c s]; [done|]. destruct (p c); [apply Hk|done].
  - apply IH1. intros p s'. by apply IH2.
  - rewrite (IH1 prev s k Hk). by apply IH2.
  - by apply star_loop_none.
  - destruct (at_bol ml prev); [apply Hk|done].
  - destruct (at_eol ml s); [apply Hk|done].
Qed.

(** [length s] rounds of the greedy loop are enough: more change nothing. *)
Lemma star_loop_fuel {R} (r : re) (n m : nat) (prev : option N) (s : jsstring)
    (k : @cont R) :
  (length s <= n)%nat -> (length s <= m)%nat ->
  star_loop (run r) n prev s k = star_loop (run r) m prev s k.
Proof.
  revert m prev s. induction n as [|n IH]; intros m prev s Hn Hm.
  - destruct s; [|simpl in Hn; lia]. destruct m as [|m]; [done|]. simpl.
    by rewrite run_none.
  - destruct m as [|m].
    + destruct s; [|simpl in Hm; lia]. simpl. by rewrite run_none.
    + simpl. erewrite run_ext; [reflexivity|].
      intros p s'. simpl. destruct (length s' <? length s)%nat eqn:E; [|done].
      apply Nat.ltb_lt in E. apply IH; lia.
Qed.

(** [length s + 1] rounds of the replacement loop are enough. *)
Lemma replace_loop_fuel (r : re) (rep : jsstring) (n m : nat) (prev : option N)
    (s : jsstring) :
  (length s < n)%nat -> (length s < m)%nat ->
  replace_loop r rep n prev s = replace_loop r rep m prev s.
Proof.
  revert m prev s. induction n as [|n IH]; intros m prev s Hn Hm; [lia|].
  destruct m as [|m]; [lia|]. simpl.
  assert (Hskip :
    match s with [] => [] | c :: t => c :: replace_loop r rep n (Some c) t end
    = match s with [] => [] | c :: t => c :: replace_loop r rep m (Some c) t end).
  { destruct s as [|c t]; [done|]. f_equal. apply IH; simpl in *; lia. }
  rewrite Hskip. destruct (match_here r prev s) as [[p' s']|]; [|done].
  destruct (length s' <? length s)%nat eqn:E; [|done].
  apply Nat.ltb_lt in E. f_equal. apply IH; lia.
Qed.

End Fuel.

Section RegexFacts.

#[local] Arguments run : simpl never.
#[local] Arguments star_loop : simpl never.

(** Unfolding equations of the matcher. *)
Lemma run_chr_cons {R} (p : N -> bool) prev c s (k : @cont R) :
  run (Chr p) prev (c :: s) k = if p c then k (Some c) s else None.
Proof. reflexivity. Qed.

Lemma run_seq {R} (r1 r2 : re) prev s (k : @cont R) :
  run (Seq r1 r2) prev s k = run r1 prev s (fun prev' s' => run r2 prev' s' k).
Proof. reflexivity. Qed.

Lemma run_alt {R} (r1 r2 : re) prev s (k : @cont R) :
  run (Alt r1 r2) prev s k =
  match run r1 prev s k with Some x => Some x | None => run r2 prev s k end.
Proof. reflexivity. Qed.

Lemma run_star {R} (r : re) prev s (k : @cont R) :
  run (Star r) prev s k = star_loop (run r) (length s) prev s k.
Proof. reflexivity. Qed.


Lemma replace_loop_length (r : re) (n : nat) (prev : option N) (s : jsstring) :
  (length (replace_loop r [] n prev s) <= length s)%nat.
Proof.
  revert prev s. induction n as [|n IH]; intros prev s; simpl; [done|].
  assert (Hskip :
    (length (match s with [] => [] | c :: t => c :: replace_loop r [] n (Some c) t end)
     <= length s)%nat).
  { destruct s as [|c t]; simpl; [done|]. specialize (IH (Some c) t). lia. }
  destruct (match_here r prev s) as [[p' s']|]; [|done].
  destruct (length s' <? length s)%nat eqn:E; [|done].
  apply Nat.ltb_lt in E. specialize (IH p' s'). lia.
Qed.

(** A match of [ansiPattern] starts with ESC. *)
Lemma ansi_match_here_head (prev : option N) (s : jsstring) :
  head s ≠ Some JS.ESC -> match_here ansiPattern prev s = None.
Proof.
  intros H. unfold match_here, ansiPattern. rewrite run_seq.
  destruct s as [|c t]; [done|]. rewrite run_chr_cons.
  unfold code. destruct (c =? JS.ESC) eqn:E; [|done].
  apply N.eqb_eq in E. subst c. by destruct H.
Qed.

Lemma replace_loop_no_esc (n : nat) (prev : option N) (s : jsstring) :
  JS.ESC ∉ s -> replace_loop ansiPattern [] n prev s = s.
Proof.
  revert prev s. induction n as [|n IH]; intros prev s Hs; simpl; [done|].
  rewrite ansi_match_here_head.
  - destruct s as [|c t]; [done|]. f_equal. apply IH. set_solver.
  - destruct s as [|c t]; [done|]. simpl. intros [= ->]. set_solver.
Qed.

Lemma star_loop_S {R} body (n : nat) prev s (k : @cont R) :
  star_loop body (S n) prev s k =
  match body prev s (fun prev' s' =>
          if (length s' <? length s)%nat then star_loop body n prev' s' k else None) with
  | Some x => Some x
  | None => k prev s
  end.
Proof. reflexivity. Qed.

Lemma range_true (lo hi c : N) : range lo hi c = true <-> lo <= c <= hi.
Proof. unfold range. rewrite andb_true_iff, !N.leb_le. tauto. Qed.

Lemma range_false (lo hi c : N) : c < lo \/ hi < c -> range lo hi c = false.
Proof.
  intros H. destruct (range lo hi c) eqn:E; [|done].
  apply range_true in E. lia.
Qed.

Ltac range_solve :=
  repeat match goal with H : range _ _ _ = true |- _ => apply range_true in H end;
  apply range_false; lia.

(** The greedy loop over one character class takes the whole run of the
    class when what follows is outside the class and the rest matches. *)
Lemma star_class {R} (p : N -> bool) (xs rest : jsstring) (k : @cont R) (x : R) :
  Forall (fun c => p c = true) xs ->
  (∀ c, head rest = Some c -> p c = false) ->
  ∀ prev,
  k (default prev (Some <$> last xs)) rest = Some x ->
  run (Star (Chr p)) prev (xs ++ rest) k = Some x.
Proof.
  intros Hxs Hrest.
  induction Hxs as [|c xs Hc Hxs IH]; intros prev Hk; rewrite run_star in *.
  - simpl in Hk. destruct rest as [|c rest]; [done|].
    cbn [app length]. rewrite star_loop_S, run_chr_cons, (Hrest c eq_refl). done.
  - cbn [app length]. rewrite star_loop_S, run_chr_cons, Hc.
    assert (E : (length (xs ++ rest) <? length (c :: xs ++ rest))%nat = true)
      by (apply Nat.ltb_lt; simpl; lia).
    rewrite E. specialize (IH (Some c)). rewrite run_star in IH.
    rewrite IH; [done|].
    rewrite <- Hk. f_equal. clear.
    destruct xs as [|y ys]; [reflexivity|].
    change (last (c :: y :: ys)) with (last (y :: ys)).
    destruct (last (y :: ys)) eqn:E; [done|]. by apply last_None in E.
Qed.

Lemma ansi_match (m post : jsstring) (prev : option N) :
  ansiSequence m ->
  ∃ c, match_here ansiPattern prev (m ++ post) = Some (Some c, post).
Proof.
  intros [c Hc | params inter final Hp Hi Hf].
  - exists c. unfold match_here, ansiPattern.
    cbn [app]. rewrite run_seq, run_chr_cons. unfold code at 1. rewrite N.eqb_refl.
    by rewrite run_alt, run_chr_cons, Hc.
  - exists final. unfold match_here, ansiPattern.
    cbn [app seqs]. rewrite run_seq, run_chr_cons. unfold code at 1. rewrite N.eqb_refl.
    rewrite run_alt, run_chr_cons.
    replace (union (range 64 90) (range 92 95) 91) with false by done.
    rewrite run_seq, run_chr_cons. unfold code at 1. rewrite N.eqb_refl.
    rewrite run_seq, <- !app_assoc.
    rewrite (star_class (range 48 63) params (inter ++ [final] ++ post) _ (Some final, post));
      [done|done| |].
    + intros c Hc. destruct inter as [|i inter]; simpl in Hc; injection Hc as <-.
      * range_solve.
      * inversion Hi; subst. range_solve.
    + rewrite run_seq.
      rewrite (star_class (range 32 47) inter ([final] ++ post) _ (Some final, post));
        [done|done| |].
      * intros c [= <-]. range_solve.
      * cbn [app]. by rewrite run_chr_cons, Hf.
Qed.

Lemma replace_loop_shrinks (pre m post : jsstring) :
  ansiSequence m ->
  ∀ n prev, (length (pre ++ m ++ post) < n)%nat ->
  (length (replace_loop ansiPattern [] n prev (pre ++ m ++ post))
   < length (pre ++ m ++ post))%nat.
Proof.
  intros Hm. induction pre as [|c pre IH]; intros n prev Hn.
  - destruct n as [|n]; [lia|]. simpl.
    destruct (ansi_match m post prev Hm) as [c ->].
    assert (Hlt : (length post < length (m ++ post))%nat).
    { rewrite length_app. destruct Hm; simpl; lia. }
    apply Nat.ltb_lt in Hlt as Hb. rewrite Hb.
    pose proof (replace_loop_length ansiPattern n (Some c) post). lia.
  - destruct n as [|n]; [simpl in Hn; lia|].
    cbn [replace_loop]. cbv zeta.
    assert (Hskip :
      (length (c :: replace_loop ansiPattern [] n (Some c) (pre ++ m ++ post))
       < length ((c :: pre) ++ m ++ post))%nat).
    { simpl. specialize (IH n (Some c)). simpl in Hn. lia. }
    destruct (match_here ansiPattern prev ((c :: pre) ++ m ++ post)) as [[p' s']|];
      [|exact Hskip].
    destruct (length s' <? length ((c :: pre) ++ m ++ post))%nat eqn:E; [|exact Hskip].
    apply Nat.ltb_lt in E.
    pose proof (replace_loop_length ansiPattern n p' s'). simpl. simpl in E. lia.
Qed.

Lemma stripAnsi_length (s : jsstring) : (length (stripAnsi s) <= length s)%nat.
Proof. apply replace_loop_length. Qed.

Lemma stripAnsi_shrinks (s : jsstring) :
  containsAnsi s -> (length (stripAnsi s) < length s)%nat.
Proof.
  intros (pre & m & post & -> & Hm). apply replace_loop_shrinks; [done|lia].
Qed.

Lemma stripAnsi_no_esc (s : jsstring) : JS.ESC ∉ s -> stripAnsi s = s.
Proof. apply replace_loop_no_esc. Qed.

End RegexFacts.

Section StripAnsiExact.

#[local] Arguments run : simpl never.
#[local] Arguments star_loop : simpl never.

(** What the greedy loop over one character class hands to its
    continuation: the input without a run of units of the class. *)
Lemma star_loop_class_inv {R} (p : N -> bool) (k : @cont R) (x : R) (n : nat) :
  ∀ prev s,
  star_loop (run (Chr p)) n prev s k = Some x ->
  ∃ xs rest prev', s = xs ++ rest ∧ Forall (fun c => p c = true) xs ∧
                   k prev' rest = Some x.
Proof.
  induction n as [|n IH]; intros prev s H.
  { exists [], s, prev. by repeat split. }
  rewrite star_loop_S in H.
  destruct s as [|c t].
  { exists [], [], prev. by repeat split. }
  rewrite run_chr_cons in H. destruct (p c) eqn:Hc.
  - destruct (length t <? length (c :: t))%nat.
    + destruct (star_loop (run (Chr p)) n (Some c) t k) as [y|] eqn:E.
      * injection H as ->. apply IH in E as (xs & rest & prev' & -> & Hxs & Hk).
        exists (c :: xs), rest, prev'. repeat split; [by constructor|done].
      * exists [], (c :: t), prev. by repeat split.
    + exists [], (c :: t), prev. by repeat split.
  - exists [], (c :: t), prev. by repeat split.
Qed.

Lemma star_class_inv {R} (p : N -> bool) (k : @cont R) (x : R) prev s :
  run (Star (Chr p)) prev s k = Some x ->
  ∃ xs rest prev', s = xs ++ rest ∧ Forall (fun c => p c = true) xs ∧
                   k prev' rest = Some x.
Proof. rewrite run_star. apply star_loop_class_inv. Qed.

(** Every match of [ansiPattern] is an escape sequence as [stripAnsi]
    recognises it. *)
Lemma ansi_match_inv (prev p' : option N) (s s' : jsstring) :
  match_here ansiPattern prev s = Some (p', s') ->
  ∃ m, s = m ++ s' ∧ ansiSequence m.
Proof.
  unfold match_here, ansiPattern. rewrite run_seq.
  destruct s as [|c t]; [done|]. rewrite run_chr_cons.
  unfold code at 1. destruct (N.eqb_spec c JS.ESC) as [->|]; [|done].
  rewrite run_alt.
  destruct (run (Chr (union (range 64 90) (range 92 95))) (Some JS.ESC) t
              (fun p0 s0 => Some (p0, s0))) as [y|] eqn:E1.
  - intros [= ->]. destruct t as [|c2 t2]; [done|]. rewrite run_chr_cons in E1.
    destruct (union _ _ c2) eqn:Hc; [|done]. injection E1 as _ <-.
    exists [JS.ESC; c2]. split; [done|]. by constructor.
  - clear E1. cbn [seqs]. rewrite run_seq.
    destruct t as [|c2 t2]; [done|]. rewrite run_chr_cons.
    unfold code at 1. destruct (N.eqb_spec c2 0x5B) as [->|]; [|done].
    rewrite run_seq. intros H.
    apply star_class_inv in H as (params & r1 & prev1 & -> & Hp & H).
    rewrite run_seq in H.
    apply star_class_inv in H as (inter & r2 & prev2 & -> & Hi & H).
    destruct r2 as [|f r3]; [done|]. rewrite run_chr_cons in H.
    destruct (range 64 126 f) eqn:Hf; [|done]. injection H as _ <-.
    exists ([JS.ESC; 0x5B] ++ params ++ inter ++ [f]). split.
    + simpl. by rewrite <- !app_assoc.
    + by constructor.
Qed.

Lemma replace_loop_no_match (n : nat) (prev : option N) (s : jsstring) :
  ¬ containsAnsi s -> replace_loop ansiPattern [] n prev s = s.
Proof.
  revert prev s. induction n as [|n IH]; intros prev s Hs; [done|].
  cbn [replace_loop]. cbv zeta.
  destruct (match_here ansiPattern prev s) as [[p' s']|] eqn:E.
  { apply ansi_match_inv in E as (m & -> & Hm). destruct Hs. by exists [], m, s'. }
  destruct s as [|c t]; [done|]. f_equal. apply IH.
  intros (pre & m & post & -> & Hm). apply Hs. by exists (c :: pre), m, post.
Qed.

(** [stripAnsi] changes a text only if it contains such a sequence. *)
Lemma stripAnsi_no_match (s : jsstring) : ¬ containsAnsi s -> stripAnsi s = s.
Proof. apply replace_loop_no_match. Qed.

Lemma trimStart_fixed (s : jsstring) : ¬ leadingSpace s -> JS.trimStart s = s.
Proof.
  destruct s as [|c t]; [done|]. intros H. simpl.
  destruct (JS.isSpace c) eqn:Hc; [|done]. destruct H. by exists c, t.
Qed.

Lemma trim_fixed (s : jsstring) :
  ¬ leadingSpace s -> ¬ trailingSpace s -> JS.trim s = s.
Proof.
  intros Hl Ht. unfold JS.trim, JS.trimEnd. rewrite (trimStart_fixed s Hl).
  rewrite trimStart_fixed; [apply rev_involutive|].
  intros (c & t & E & Hc). apply Ht. exists (rev t), c. split; [|done].
  apply (f_equal (@rev N)) in E. rewrite rev_involutive in E. by rewrite E.
Qed.

End StripAnsiExact.

(* ===================================================================== *)
(** ** Facts about the daemon                                            *)
(* ===================================================================== *)

Module DaemonFacts.
Import Daemon Spec.

Lemma after_snoc cfg history a :
  after cfg (history ++ [a]) = step (after cfg history) a.
Proof. unfold after. by rewrite foldl_app. Qed.

Lemma reachable_ind (P : ToolDaemon -> Prop) :
  (∀ cfg, P (new cfg)) ->
  (∀ d a, reachable d -> P d -> P (step d a)) ->
  ∀ d, reachable d -> P d.
Proof.
  intros Hnew Hstep d (cfg & history & ->).
  induction history as [|a history IH] using rev_ind; [apply Hnew|].
  rewrite after_snoc. apply Hstep; [by eexists _, _|done].
Qed.

Lemma reachable_step d a : reachable d -> reachable (step d a).
Proof.
  intros (cfg & history & ->). exists cfg, (history ++ [a]). by rewrite after_snoc.
Qed.

Lemma existsb_snoc {A} (f : A -> bool) (l : list A) (x : A) :
  existsb f (l ++ [x]) = existsb f l || f x.
Proof. rewrite existsb_app. simpl. by rewrite orb_false_r. Qed.

(** Writing to the pty changes nothing but the effects. *)
Lemma write_frame (data : jsstring) (d : ToolDaemon) :
  state (write data d) = state d ∧
  responseBuffer (write data d) = responseBuffer d ∧
  responseResolver (write data d) = responseResolver d ∧
  responseTimeoutId (write data d) = responseTimeoutId d ∧
  sendCalls (write data d) = sendCalls d ∧
  ∀ q, existsb (resolves q) (io (write data d)) = existsb (resolves q) (io d).
Proof.
  unfold write. destruct (pty d); simpl; repeat split.
  intros q. rewrite existsb_snoc. simpl. apply orb_false_r.
Qed.

(** So does terminal input, which the handlers write to the pty. *)
Lemma onStdinData_frame (data : jsstring) (d : ToolDaemon) :
  let d' := onStdinData data d in
  state d' = state d ∧
  responseBuffer d' = responseBuffer d ∧
  responseResolver d' = responseResolver d ∧
  responseTimeoutId d' = responseTimeoutId d ∧
  sendCalls d' = sendCalls d ∧
  ∀ q, existsb (resolves q) (io d') = existsb (resolves q) (io d).
Proof.
  unfold onStdinData. generalize (stdinListeners d) as n.
  induction n as [|n (H1 & H2 & H3 & H4 & H5 & H6)].
  { simpl. repeat split. }
  rewrite !Nat.iter_succ.
  destruct (write_frame data (Nat.iter n (write data) d))
    as (E1 & E2 & E3 & E4 & E5 & E6).
  rewrite E1, E2, E3, E4, E5. repeat split; try assumption.
  intros q. by rewrite E6.
Qed.

(** Case analysis on what a step does. *)
Ltac step_cases a :=
  unfold step; destruct (enabled a _) eqn:?; [|done];
  destruct a; cbn [fst snd];
  try match goal with
    | |- context [onStdinData ?data ?d] =>
        let Hf := fresh in
        pose proof (onStdinData_frame data d) as Hf; cbv zeta in Hf;
        let E1 := fresh in let E2 := fresh in let E3 := fresh in
        let E4 := fresh in let E5 := fresh in let E6 := fresh in
        destruct Hf as (E1 & E2 & E3 & E4 & E5 & E6);
        rewrite ?E1, ?E2, ?E3, ?E4, ?E5;
        try (setoid_rewrite E6); clear E1 E2 E3 E4 E5 E6
    end;
  unfold start, send, enterInteractiveMode, exitInteractiveMode, write, stop,
    onData, onExit, onGraceTimer, onStartupTimeout, completeResponse,
    becomeReady, resetResponseTimeout;
  repeat (simpl; case_match); simpl in *;
  repeat match goal with
    | H : bool_decide _ = true |- _ => apply bool_decide_eq_true in H
    | H : bool_decide _ = false |- _ => apply bool_decide_eq_false in H
    | H : _ && _ = true |- _ => apply andb_true_iff in H as [? ?]
    | H : _ && _ = false |- _ => apply andb_false_iff in H
    end.

Lemma step_bufferOnlyWhilePending d a :
  bufferOnlyWhilePending d -> bufferOnlyWhilePending (step d a).
Proof.
  unfold bufferOnlyWhilePending. intros H.
  step_cases a; try done; try naive_solver.
Qed.


Lemma step_timerWhilePending d a :
  timerWhilePending d -> timerWhilePending (step d a).
Proof.
  unfold timerWhilePending. intros H.
  step_cases a; try done; try naive_solver.
  intros [? E]. congruence.
Qed.

Lemma step_pendingUnsettled d a :
  pendingUnsettled d -> pendingUnsettled (step d a).
Proof.
  unfold pendingUnsettled. intros [Hio Hres].
  step_cases a; try done;
    (split; [intros q | intros p']); rewrite ?existsb_snoc; simpl;
    rewrite ?orb_false_r; try (by auto); try (intros [= <-]);
    try (intros Hq; apply Hio in Hq; lia).
  all: try (intros E; apply Hres in E as [? ?]; split; [lia|done]).
  - split; [lia|]. destruct (existsb _ _) eqn:E; [|done]. apply Hio in E. lia.
  - intros [Hq|Hq]%orb_true_iff; [by apply Hio|].
    apply Nat.eqb_eq in Hq. subst q. by apply Hres.
  - congruence.
Qed.

Lemma reachable_invariants d :
  reachable d -> bufferOnlyWhilePending d ∧ timerWhilePending d ∧ pendingUnsettled d.
Proof.
  intros Hd. induction Hd as [cfg | d a _ (H1 & H2 & H3)] using reachable_ind.
  - unfold bufferOnlyWhilePending, timerWhilePending, pendingUnsettled. simpl.
    repeat split; try done; by intros [? ?].
  - auto using step_bufferOnlyWhilePending, step_timerWhilePending, step_pendingUnsettled.
Qed.

(** What the idle timer does to a daemon with a pending send. *)
Lemma idle_completion (d : ToolDaemon) (p : nat) :
  responseResolver d = Some p ->
  is_Some (responseTimeoutId d) ->
  step d IdleTimeout =
  set_state ready
    (set_responseBuffer []
       (set_responseResolver None
          (effect (ResolveSend p (responseBuffer d))
             (set_lastResponse (JS.trim (stripAnsi (responseBuffer d)))
                (set_responseTimeoutId None d))))).
Proof.
  intros Hp Ht. unfold step, enabled. rewrite bool_decide_eq_true_2; [|done].
  unfold completeResponse. simpl. by rewrite Hp.
Qed.

End DaemonFacts.

(* ===================================================================== *)
(** ** The claims about ToolDaemon                                       *)
(* ===================================================================== *)

Module DaemonTheorems.
Import Daemon Spec DaemonFacts.

(** C5 (confirmed).  A [send] on a daemon whose state is not Ready (Busy in
    particular) is rejected, and the daemon is left exactly as it was: it
    does not enter Busy, nothing is written to the pty (the effects are the
    same), and no field holds the command for later. *)
Theorem C5_send_rejected_unless_ready (d : ToolDaemon) (command : jsstring) :
  state d ≠ ready ->
  ∃ message, send command d = (Throw message, d).
Proof.
  intros Hstate. unfold send. destruct (pty d); [|by eexists].
  rewrite bool_decide_eq_false_2; [by eexists|done].
Qed.

Lemma C5_witness :
  state Example.answering = busy ∧
  ∃ message, send (JS.lit "again") Example.answering = (Throw message, Example.answering).
Proof.
  split; [vm_compute; reflexivity|].
  apply (C5_send_rejected_unless_ready Example.answering (JS.lit "again")).
  vm_compute. discriminate.
Defined.

(** C2 (amended).  When the pty process exits while a send is pending in
    state Busy, the exit handler moves the daemon to Dead and settles
    nothing: the send stays pending, neither resolved nor rejected, with its
    idle timer armed.  The send is completed by that timer, which resolves
    it with the accumulated raw buffer like any response. *)
Theorem C2_exit_leaves_send_to_idle_timer (d : ToolDaemon) (p : nat) (exitCode : Z) :
  reachable d ->
  state d = busy ->
  responseResolver d = Some p ->
  let d1 := onExit exitCode d in
  state d1 = dead ∧
  io d1 = io d ++ [EmitExit exitCode] ∧
  responseResolver d1 = Some p ∧
  sendSettled p d1 = Pending ∧
  is_Some (responseTimeoutId d1) ∧
  io (step d1 IdleTimeout) = io d1 ++ [ResolveSend p (responseBuffer d)] ∧
  sendSettled p (step d1 IdleTimeout) = Fulfilled.
Proof.
  intros Hd Hbusy Hp d1.
  destruct (reachable_invariants d Hd) as (_ & Htimer & _ & Hfresh).
  destruct (Hfresh p Hp) as [_ Hunsettled].
  assert (Ht : is_Some (responseTimeoutId d1)) by (apply Htimer; by eexists).
  assert (Hio : io (step d1 IdleTimeout) = io d1 ++ [ResolveSend p (responseBuffer d)])
    by (by rewrite (idle_completion d1 p Hp Ht)).
  repeat split; try done.
  - unfold sendSettled. simpl. by rewrite existsb_snoc, Hunsettled.
  - unfold sendSettled. rewrite Hio, existsb_snoc. simpl.
    by rewrite Nat.eqb_refl, orb_true_r.
Qed.

Lemma C2_witness :
  state Example.answering = busy ∧
  state (onExit 1 Example.answering) = dead ∧
  sendSettled 0 (onExit 1 Example.answering) = Pending ∧
  io (step (onExit 1 Example.answering) IdleTimeout)
    = io (onExit 1 Example.answering)
      ++ [ResolveSend 0 (responseBuffer Example.answering)].
Proof.
  assert (H1 : reachable Example.answering) by (by eexists _, _).
  assert (H2 : state Example.answering = busy) by (vm_compute; reflexivity).
  assert (H3 : responseResolver Example.answering = Some 0%nat)
    by (vm_compute; reflexivity).
  pose proof (C2_exit_leaves_send_to_idle_timer Example.answering 0%nat 1%Z H1 H2 H3) as H.
  cbv zeta in H. destruct H as (Ha & _ & _ & Hb & _ & Hc & _).
  exact (conj H2 (conj Ha (conj Hb Hc))).
Defined.

(** C2, as stated, fails: the process exits with code 1 while the send of
    "hi" is pending; after the exit the send promise is still pending (it is
    not rejected), and the idle timer then resolves it with "partial" and
    returns the daemon to Ready. *)
Lemma C2_counterexample :
  state Example.answering = busy ∧
  responseResolver Example.answering = Some 0%nat ∧
  sendSettled 0 Example.exited = Pending ∧
  state Example.exited = dead ∧
  io (step Example.exited IdleTimeout)
    = io Example.exited ++ [ResolveSend 0 (JS.lit "partial")] ∧
  sendSettled 0 (step Example.exited IdleTimeout) = Fulfilled ∧
  state (step Example.exited IdleTimeout) = ready.
Proof. vm_compute. done. Qed.

(** C3 (amended).  In every reachable state the response buffer is
    non-empty only while a send is pending.  Data arrival, response
    completion and [send] preserve that the buffer is non-empty only in
    state Busy; process exit and [stop] move the daemon to Dead and leave
    the buffer as it is. *)
Theorem C3_buffer_nonempty_only_while_pending (d : ToolDaemon) :
  reachable d ->
  bufferOnlyWhilePending d ∧
  (bufferOnlyWhileBusy d ->
     (∀ h data, bufferOnlyWhileBusy (onData h data d)) ∧
     bufferOnlyWhileBusy (completeResponse d) ∧
     (∀ command, bufferOnlyWhileBusy (send command d).2)) ∧
  (∀ exitCode, state (onExit exitCode d) = dead ∧
               responseBuffer (onExit exitCode d) = responseBuffer d) ∧
  state (stop d) = dead ∧ responseBuffer (stop d) = responseBuffer d.
Proof.
  intros Hd. split; [by apply reachable_invariants|].
  unfold bufferOnlyWhileBusy. split; [|split; [done|]].
  - intros Hinv. repeat split.
    + intros h data. unfold onData, becomeReady, resetResponseTimeout.
      repeat (simpl; case_match); simpl in *;
        repeat match goal with
          | H : bool_decide _ = true |- _ => apply bool_decide_eq_true in H
          | H : bool_decide _ = false |- _ => apply bool_decide_eq_false in H
          | H : _ && _ = true |- _ => apply andb_true_iff in H as [? ?]
          end; try done; try congruence;
        try (intros Hb; apply Hinv in Hb; congruence).
    + unfold completeResponse. simpl. by case_match.
    + intros command. unfold send, resetResponseTimeout.
      repeat (simpl; case_match); by simpl.
  - unfold stop, exitInteractiveMode. repeat (simpl; case_match); by simpl.
Qed.

Lemma C3_witness :
  bufferOnlyWhilePending Example.exited ∧
  state (stop Example.exited) = dead ∧
  responseBuffer (stop Example.exited) = responseBuffer Example.exited.
Proof.
  assert (H1 : reachable Example.exited) by (apply reachable_step; by eexists _, _).
  destruct (C3_buffer_nonempty_only_while_pending Example.exited H1)
    as (Ha & _ & _ & Hb & Hc).
  exact (conj Ha (conj Hb Hc)).
Defined.

(** C3, as stated, fails: once the process has exited during a response the
    state is Dead and the response buffer still holds "partial". *)
Lemma C3_counterexample :
  Example.exited
    = after Example.echoConfig
        [CallStart; GraceTimer 0; CallSend (JS.lit "hi");
         PtyData 0 (JS.lit "partial"); PtyExit 0 1%Z] ∧
  state Example.exited = dead ∧
  responseBuffer Example.exited = JS.lit "partial".
Proof. vm_compute. done. Qed.

(** C4 (amended).  When the idle timer completes a send, [getLastResponse()]
    is the ANSI-stripped, trimmed response buffer, the response buffer is
    empty and the state is Ready.  Nothing else changes but the resolver
    and the timer handle, which are cleared, and the effects, to which the
    resolution is added: in particular the configuration, which is all that
    a later [start()] reads, is as before, and the daemon records no
    session-continuation flag. *)
Theorem C4_idle_timer_completes_send (d : ToolDaemon) (p : nat) :
  responseResolver d = Some p ->
  is_Some (responseTimeoutId d) ->
  let d' := step d IdleTimeout in
  getLastResponse d' = JS.trim (stripAnsi (responseBuffer d)) ∧
  responseBuffer d' = [] ∧
  state d' = ready ∧
  config d' = config d ∧
  resumesSession d' = resumesSession d ∧
  d' = {| pty := pty d;
          config := config d;
          state := ready;
          outputBuffer := outputBuffer d;
          responseBuffer := [];
          lastResponse := JS.trim (stripAnsi (responseBuffer d));
          responseResolver := None;
          responseTimeoutId := None;
          interactiveStdinHandler := interactiveStdinHandler d;
          dataListeners := dataListeners d;
          stdinListeners := stdinListeners d;
          startCalls := startCalls d;
          sendCalls := sendCalls d;
          io := io d ++ [ResolveSend p (responseBuffer d)] |}.
Proof.
  intros Hp Ht d'. subst d'. by rewrite (idle_completion d p).
Qed.

Lemma C4_witness :
  responseResolver Example.coloured = Some 0%nat ∧
  getLastResponse (step Example.coloured IdleTimeout)
    = JS.trim (stripAnsi (responseBuffer Example.coloured)) ∧
  responseBuffer (step Example.coloured IdleTimeout) = [] ∧
  state (step Example.coloured IdleTimeout) = ready.
Proof.
  assert (H1 : responseResolver Example.coloured = Some 0%nat)
    by (vm_compute; reflexivity).
  assert (H2 : is_Some (responseTimeoutId Example.coloured))
    by (exists 3000; vm_compute; reflexivity).
  pose proof (C4_idle_timer_completes_send Example.coloured 0%nat H1 H2) as H.
  cbv zeta in H. destruct H as (Ha & Hb & Hc & _).
  exact (conj H1 (conj Ha (conj Hb Hc))).
Defined.

(** C4, as stated, fails: after a send completed by the idle timer the
    launch arguments carry no resume hint, no session-continuation flag has
    been set anywhere in the daemon. *)
Lemma C4_counterexample :
  responseResolver Example.answering = Some 0%nat ∧
  responseTimeoutId Example.answering = Some 3000 ∧
  state (step Example.answering IdleTimeout) = ready ∧
  resumesSession (step Example.answering IdleTimeout) = false.
Proof. vm_compute. done. Qed.

(** C10 (amended).  When the idle timer completes a send, the promise of
    the send is resolved with the raw response buffer, and
    [getLastResponse()] is its ANSI-stripped, trimmed form.  The two differ
    whenever the raw buffer contains an escape sequence that [stripAnsi]
    recognises (ESC and one unit of [@-Z\-_], or ESC [ with parameter
    units, intermediate units and a final unit) or starts or ends with
    white space, and they are equal otherwise: any other escape sequence
    stays in [getLastResponse()]. *)
Theorem C10_resolved_raw_kept_sanitized (d : ToolDaemon) (p : nat) :
  responseResolver d = Some p ->
  is_Some (responseTimeoutId d) ->
  let raw := responseBuffer d in
  let d' := step d IdleTimeout in
  io d' = io d ++ [ResolveSend p raw] ∧
  getLastResponse d' = JS.trim (stripAnsi raw) ∧
  (containsAnsi raw ∨ leadingSpace raw ∨ trailingSpace raw ->
   getLastResponse d' ≠ raw) ∧
  (¬ containsAnsi raw -> ¬ leadingSpace raw -> ¬ trailingSpace raw ->
   getLastResponse d' = raw).
Proof.
  intros Hp Ht raw d'. subst d'. rewrite (idle_completion d p Hp Ht).
  split; [done|]. split; [done|]. simpl. fold raw. split.
  - intros [Hansi | [(c & t & E & Hc) | (t & c & E & Hc)]] Heq.
    + apply stripAnsi_shrinks in Hansi.
      pose proof (trim_length (stripAnsi raw)). rewrite Heq in *. lia.
    + rewrite E in Heq at 2. apply trim_head in Heq. congruence.
    + rewrite E in Heq at 2. apply trim_last in Heq. congruence.
  - intros Hansi Hl Hr. rewrite (stripAnsi_no_match raw Hansi). by apply trim_fixed.
Qed.

Lemma C10_witness :
  trailingSpace (responseBuffer Example.coloured) ∧
  io (step Example.coloured IdleTimeout)
    = io Example.coloured ++ [ResolveSend 0 (responseBuffer Example.coloured)] ∧
  getLastResponse (step Example.coloured IdleTimeout) ≠ responseBuffer Example.coloured.
Proof.
  assert (H1 : responseResolver Example.coloured = Some 0%nat)
    by (vm_compute; reflexivity).
  assert (H2 : is_Some (responseTimeoutId Example.coloured))
    by (exists 3000; vm_compute; reflexivity).
  assert (H3 : trailingSpace (responseBuffer Example.coloured)).
  { exists ([JS.ESC] ++ JS.lit "[32mhello" ++ [JS.ESC] ++ JS.lit "[0m"), JS.LF.
    split; vm_compute; reflexivity. }
  pose proof (C10_resolved_raw_kept_sanitized Example.coloured 0%nat H1 H2) as H.
  cbv zeta in H. destruct H as (Hio & _ & Hne & _).
  exact (conj H3 (conj Hio (Hne (or_intror (or_intror H3))))).
Defined.

(** C10, as stated, fails: the raw buffer "ESC c hello" contains the escape
    sequence ESC c (as "ESC ( B hello" contains ESC ( B), which [stripAnsi]
    does not recognise; the send promise is resolved with the raw buffer
    and [getLastResponse()] is the same text, escape sequence included. *)
Lemma C10_counterexample :
  responseBuffer ExampleEscape.afterReset = [JS.ESC] ++ JS.lit "chello" ∧
  SpecEscape.containsEscape (responseBuffer ExampleEscape.afterReset) ∧
  responseResolver ExampleEscape.afterReset = Some 0%nat ∧
  responseTimeoutId ExampleEscape.afterReset = Some 3000 ∧
  io (step ExampleEscape.afterReset IdleTimeout)
    = io ExampleEscape.afterReset
      ++ [ResolveSend 0 (responseBuffer ExampleEscape.afterReset)] ∧
  getLastResponse (step ExampleEscape.afterReset IdleTimeout)
    = responseBuffer ExampleEscape.afterReset ∧
  responseBuffer ExampleEscape.afterCharset = [JS.ESC] ++ JS.lit "(Bhello" ∧
  SpecEscape.containsEscape (responseBuffer ExampleEscape.afterCharset) ∧
  io (step ExampleEscape.afterCharset IdleTimeout)
    = io ExampleEscape.afterCharset
      ++ [ResolveSend 0 (responseBuffer ExampleEscape.afterCharset)] ∧
  getLastResponse (step ExampleEscape.afterCharset IdleTimeout)
    = responseBuffer ExampleEscape.afterCharset.
Proof.
  assert (SpecEscape.containsEscape (responseBuffer ExampleEscape.afterReset)) as H1.
  { exists [], [JS.ESC; 0x63], (JS.lit "hello"). split; [vm_compute; reflexivity|].
    apply (SpecEscape.escape_sequence [] 0x63); [constructor|reflexivity]. }
  assert (SpecEscape.containsEscape (responseBuffer ExampleEscape.afterCharset)) as H2.
  { exists [], [JS.ESC; 0x28; 0x42], (JS.lit "hello"). split; [vm_compute; reflexivity|].
    apply (SpecEscape.escape_sequence [0x28] 0x42); [repeat constructor|reflexivity]. }
  split; [vm_compute; reflexivity|]. split; [exact H1|].
  split; [vm_compute; reflexivity|]. split; [vm_compute; reflexivity|].
  split; [vm_compute; reflexivity|]. split; [vm_compute; reflexivity|].
  split; [vm_compute; reflexivity|]. split; [exact H2|].
  split; vm_compute; reflexivity.
Qed.

End DaemonTheorems.

(* ===================================================================== *)
(** ** Facts about the manager                                           *)
(* ===================================================================== *)

Module ManagerFacts.
Import Daemon Manager.

Lemma resume_fold_daemons (ws : list (jsstring * nat)) (m : DaemonManager) :
  daemons (foldl (fun m w =>
             match awaited m w with
             | Fulfilled => set_activeDaemon (Some w.1) m
             | _ => m
             end) m ws) = daemons m.
Proof.
  revert m. induction ws as [|w ws IH]; intros m; simpl; [done|].
  rewrite IH. by destruct (awaited m w).
Qed.

Lemma daemons_resume (m : DaemonManager) : daemons (resume m) = daemons m.
Proof. unfold resume. by rewrite resume_fold_daemons. Qed.



Lemma daemons_deliver_ne (m : DaemonManager) (j k : jsstring) (a : Action) :
  j ≠ k -> daemons (deliver j a m) !! k = daemons m !! k.
Proof.
  intros Hne. unfold deliver. destruct (daemons m !! j) as [d|] eqn:E; [|done].
  rewrite daemons_resume. simpl.
  rewrite lookup_insert_ne; [|done]. by repeat case_match.
Qed.

Lemma daemons_deliver_eq (m : DaemonManager) (n : jsstring) (a : Action) d :
  daemons m !! n = Some d -> daemons (deliver n a m) !! n = Some (step d a).
Proof.
  intros E. unfold deliver. rewrite E, daemons_resume. simpl.
  by rewrite lookup_insert_eq.
Qed.


End ManagerFacts.

(* ===================================================================== *)
(** ** The claims about DaemonManager                                    *)
(* ===================================================================== *)

Module ManagerTheorems.
Import Daemon Manager ManagerFacts.

(** C6 (amended).  [setActive(name)] on a registered name takes the
    currently active daemon out of Interactive state (to Ready) before the
    active tool changes, and leaves every other daemon as it is;
    [enterInteractiveMode] on one daemon changes no other daemon.  So no
    daemon is Interactive after [setActive] when the active daemon was the
    only one that could be; nothing else keeps two daemons from being
    Interactive at once. *)
Theorem C6_setActive_detaches_active_daemon (m : DaemonManager) (n : jsstring) :
  is_Some (daemons m !! n) ->
  let m' := (setActive n m).2 in
  (setActive n m).1 = Return () ∧
  activeDaemon m' = Some n ∧
  (∀ prev d, activeDaemon m = Some prev -> JS.truthy prev = true ->
             daemons m !! prev = Some d ->
             daemons m' !! prev
             = Some (if bool_decide (state d = interactive)
                     then exitInteractiveMode d else d)) ∧
  (∀ k, activeDaemon m ≠ Some k -> daemons m' !! k = daemons m !! k) ∧
  (∀ j k, j ≠ k ->
          daemons (deliver j CallEnterInteractiveMode m) !! k = daemons m !! k) ∧
  ((∀ k d, daemons m !! k = Some d -> state d = interactive ->
           activeDaemon m = Some k ∧ JS.truthy k = true) ->
   ∀ k d', daemons m' !! k = Some d' -> state d' ≠ interactive).
Proof.
  intros [dn Hn] m'.
  assert (Hm' : m' = set_activeDaemon (Some n)
            match activeDaemon m, getActive m with
            | Some prev, Some previousDaemon =>
                if bool_decide (getState previousDaemon = interactive)
                then set_daemons (<[prev := exitInteractiveMode previousDaemon]> (daemons m)) m
                else m
            | _, _ => m
            end).
  { subst m'. unfold setActive. by rewrite Hn. }
  assert (Hprev : ∀ prev d, activeDaemon m = Some prev -> JS.truthy prev = true ->
             daemons m !! prev = Some d ->
             daemons m' !! prev
             = Some (if bool_decide (state d = interactive)
                     then exitInteractiveMode d else d)).
  { intros prev d Ha Ht Hd. rewrite Hm'. unfold getActive, getState.
    rewrite Ha, Ht, Hd. simpl. case_bool_decide; simpl; [|done].
    by rewrite lookup_insert_eq. }
  assert (Hother : ∀ k, activeDaemon m ≠ Some k -> daemons m' !! k = daemons m !! k).
  { intros k Hk. rewrite Hm'. simpl.
    destruct (activeDaemon m) as [prev|]; [|done].
    destruct (getActive m) as [pd|]; [|done].
    case_bool_decide; [|done]. simpl.
    rewrite lookup_insert_ne; [done|congruence]. }
  split; [unfold setActive; by rewrite Hn|].
  split; [by rewrite Hm'|].
  split; [exact Hprev|]. split; [exact Hother|].
  split; [intros j k Hjk; by apply daemons_deliver_ne|].
  intros Honly k d' Hk Hint.
  destruct (decide (activeDaemon m = Some k)) as [Ha|Ha].
  - destruct (JS.truthy k) eqn:Ht.
    + destruct (daemons m !! k) as [d|] eqn:Hd.
      * rewrite (Hprev k d Ha Ht Hd) in Hk. injection Hk as <-.
        case_bool_decide; [done|congruence].
      * rewrite Hm' in Hk. unfold getActive in Hk. rewrite Ha, Ht, Hd in Hk.
        simpl in Hk. congruence.
    + assert (Hk' : daemons m !! k = Some d').
      { rewrite Hm' in Hk. unfold getActive in Hk. by rewrite Ha, Ht in Hk. }
      destruct (Honly k d' Hk' Hint) as [_ ?]. congruence.
  - rewrite (Hother k Ha) in Hk. destruct (Honly k d' Hk Hint) as [? _]. done.
Qed.

Lemma C6_witness :
  is_Some (daemons ExampleManager.claudeAttached !! JS.lit "gemini") ∧
  state <$> daemons ExampleManager.claudeAttached !! JS.lit "claude" = Some interactive ∧
  activeDaemon (setActive (JS.lit "gemini") ExampleManager.claudeAttached).2
    = Some (JS.lit "gemini") ∧
  state <$> daemons (setActive (JS.lit "gemini") ExampleManager.claudeAttached).2
              !! JS.lit "claude"
    = Some ready.
Proof.
  assert (H : is_Some (daemons ExampleManager.claudeAttached !! JS.lit "gemini"))
    by (eexists; vm_compute; reflexivity).
  assert (Hc : daemons ExampleManager.claudeAttached !! JS.lit "claude"
               = Some ExampleManager.attachedClaude)
    by (vm_compute; reflexivity).
  assert (Hs : state <$> daemons ExampleManager.claudeAttached !! JS.lit "claude"
               = Some interactive)
    by (vm_compute; reflexivity).
  pose proof (C6_setActive_detaches_active_daemon
                ExampleManager.claudeAttached (JS.lit "gemini") H) as Hthm.
  cbv zeta in Hthm. destruct Hthm as (_ & Hactive & Hprev & _).
  assert (Hr : state <$> daemons (setActive (JS.lit "gemini")
                                    ExampleManager.claudeAttached).2
                          !! JS.lit "claude" = Some ready).
  { rewrite (Hprev (JS.lit "claude") ExampleManager.attachedClaude);
      vm_compute; reflexivity. }
  exact (conj H (conj Hs (conj Hactive Hr))).
Defined.

(** C6, as stated, fails: claude is active and Interactive when
    [startOne("gemini")] makes gemini the active daemon; [setActive("gemini")]
    then leaves claude Interactive, and once the active daemon enters
    interactive mode both daemons are Interactive. *)
Lemma C6_counterexample :
  state <$> daemons ExampleManager.geminiStarted !! JS.lit "claude" = Some interactive ∧
  activeDaemon ExampleManager.geminiStarted = Some (JS.lit "gemini") ∧
  state <$> daemons ExampleManager.geminiSelected !! JS.lit "claude" = Some interactive ∧
  state <$> daemons ExampleManager.bothAttached !! JS.lit "claude" = Some interactive ∧
  state <$> daemons ExampleManager.bothAttached !! JS.lit "gemini" = Some interactive ∧
  size (interactiveDaemons ExampleManager.bothAttached) = 2%nat.
Proof. vm_compute. done. Qed.




End ManagerTheorems.

(* ===================================================================== *)
(** ** The claims about the sanitizers                                   *)
(* ===================================================================== *)

Module SanitizerTheorems.
Import GeminiAdapter.

(** C8 (amended).  [stripAnsi] returns a text without ESC unchanged, and
    sanitizing twice equals sanitizing once whenever the first result holds
    no ESC.  (Idempotence is claimed for neither sanitizer in general.) *)
Theorem C8_stripAnsi_fixes_text_without_ESC (s : jsstring) :
  (JS.ESC ∉ s -> stripAnsi s = s) ∧
  (JS.ESC ∉ stripAnsi s -> stripAnsi (stripAnsi s) = stripAnsi s).
Proof. split; [apply stripAnsi_no_esc|]. intros H. by apply stripAnsi_no_esc. Qed.

Lemma C8_witness :
  (JS.ESC ∉ JS.lit "plain text") ∧
  stripAnsi (JS.lit "plain text") = JS.lit "plain text".
Proof.
  assert (H : JS.ESC ∉ JS.lit "plain text").
  { apply (bool_decide_unpack (JS.ESC ∉ JS.lit "plain text")). vm_compute. exact I. }
  exact (conj H (proj1 (C8_stripAnsi_fixes_text_without_ESC (JS.lit "plain text")) H)).
Defined.

(** C8, as stated, fails for both sanitizers: removing the inner escape
    sequence of "ESC ESC [0m [0m" leaves "ESC [0m", which a second pass
    removes. *)
Lemma C8_counterexample :
  stripAnsi ExampleRelay.nested = [JS.ESC] ++ JS.lit "[0m" ∧
  stripAnsi (stripAnsi ExampleRelay.nested) = [] ∧
  cleanResponse ExampleRelay.nested = [JS.ESC] ++ JS.lit "[0m" ∧
  cleanResponse (cleanResponse ExampleRelay.nested) = [].
Proof. vm_compute. done. Qed.

End SanitizerTheorems.


(* ===================================================================== *)
(** ** The claims about the conversation relay                           *)
(* ===================================================================== *)

Module RelayTheorems.
Import SpecRelay.

Lemma removelast_snoc {A} (l : list A) (x : A) : removelast (l ++ [x]) = l.
Proof. apply removelast_last. Qed.

(** C9 (confirmed).  When the send of the underlying tool fails, the
    conversation log after the failed send is the log before it: the user
    message recorded for the exchange is removed again.  This holds for
    [SessionManager.send], whose whole state is as before, and for
    [SDKSession.sendToTool]. *)
Theorem C9_failed_send_restores_log :
  (∀ (registry : jsstring -> option Session.ToolAdapter) (prompt : jsstring)
     (toolName : option jsstring) (t1 t2 : N) (s : Session.SessionManager)
     (adapter : Session.ToolAdapter) (error : jsstring),
     registry (JS.or_else toolName (Session.defaultTool s)) = Some adapter ->
     Session.Adapter.isAvailable adapter = true ->
     Session.Adapter.send adapter prompt = Throw error ->
     Session.send registry prompt toolName t1 t2 s = (Throw error, s)) ∧
  (∀ (message : jsstring) (res : SDK.ProcessResult) (s : SDK.SDKSession),
     failed res ->
     SDK.conversationHistory (SDK.sendToTool message res s) = SDK.conversationHistory s).
Proof.
  split.
  - intros registry prompt toolName t1 t2 s adapter error Hreg Hav Hsend.
    unfold Session.send. rewrite Hreg, Hav, Hsend. simpl.
    unfold Session.pop. simpl. rewrite removelast_snoc. by destruct s.
  - intros message res s Hfail. unfold SDK.sendToTool.
    destruct (SDK.activeTool s) eqn:Ha; simpl; rewrite Ha;
      unfold SDK.sendToClaude, SDK.sendToGemini, SDK.settle;
      destruct res as [code out err|msg]; simpl in *;
      rewrite ?bool_decide_eq_true_2 by done; simpl; by rewrite removelast_snoc.
Qed.

Lemma C9_witness :
  Session.send ExampleRelay.failingRegistry (JS.lit "again") (Some (JS.lit "gemini")) 3 4
    ExampleRelay.answered
  = (Throw (JS.lit "Gemini CLI exited with code 1: quota"), ExampleRelay.answered) ∧
  SDK.conversationHistory
    (SDK.sendToTool (JS.lit "again") (SDK.Close (Some 1%Z) [] (JS.lit "quota"))
       ExampleRelay.answeredSDK)
  = SDK.conversationHistory ExampleRelay.answeredSDK.
Proof.
  destruct C9_failed_send_restores_log as [H1 H2]. split.
  - apply (H1 ExampleRelay.failingRegistry (JS.lit "again") (Some (JS.lit "gemini")) 3 4
              ExampleRelay.answered (ExampleRelay.failingAdapter "gemini" "Gemini CLI"));
      vm_compute; reflexivity.
  - apply H2. vm_compute. discriminate.
Defined.


(** The prompt of [handleForward] is the envelope of the specification. *)
Lemma forwardPrompt_specEnvelope (displayName content additionalMessage : jsstring) :
  SDK.forwardPrompt displayName content additionalMessage
  = specEnvelope displayName content (supplied additionalMessage).
Proof.
  unfold SDK.forwardPrompt, specEnvelope, supplied.
  destruct (JS.truthy additionalMessage); cbv zeta.
  - by rewrite <- !app_assoc.
  - by rewrite !app_nil_r.
Qed.

(** Settling a request spawns nothing. *)
Lemma settle_spawned (who : string) (res : SDK.ProcessResult)
    (mark : SDK.SDKSession -> SDK.SDKSession) (s : SDK.SDKSession) :
  (∀ s, SDK.spawned (mark s) = SDK.spawned s) ->
  SDK.spawned (SDK.settle who res mark s).2 = SDK.spawned s.
Proof.
  intros Hmark. unfold SDK.settle. destruct res as [code out err|msg]; [|done].
  case_bool_decide; simpl; [done|apply Hmark].
Qed.

(** What [sendToTool] spawns. *)
Lemma sendToTool_spawned (message : jsstring) (res : SDK.ProcessResult) (s : SDK.SDKSession) :
  SDK.spawned (SDK.sendToTool message res s)
  = SDK.spawned s
    ++ [(SDK.toolName (SDK.activeTool s),
         printModeFlags (SDK.activeTool s) s ++ [message])].
Proof.
  unfold SDK.sendToTool. cbv zeta.
  set (s1 := SDK.set_conversationHistory _ s).
  assert (E : SDK.spawned
                (match SDK.activeTool s1 with
                 | SDK.claude => SDK.sendToClaude message res s1
                 | SDK.gemini => SDK.sendToGemini message res s1
                 end).2
              = SDK.spawned s
                ++ [(SDK.toolName (SDK.activeTool s),
                     printModeFlags (SDK.activeTool s) s ++ [message])]).
  { subst s1. cbn [SDK.activeTool SDK.set_conversationHistory].
    destruct (SDK.activeTool s); unfold SDK.sendToClaude, SDK.sendToGemini, printModeFlags;
      rewrite settle_spawned by done; cbn; by rewrite <- ?app_assoc. }
  destruct (match SDK.activeTool s1 with
            | SDK.claude => _ | SDK.gemini => _ end) as [[response|error] s2];
    exact E.
Qed.

(** C1 (amended).  [SDKSession.handleForward] sends to the other tool
    exactly the envelope "Another AI assistant (<display name of the source
    tool>) provided this response. Please review and share your
    thoughts:\n\n---\nX\n---" for the last assistant message X, with
    "\n\nAdditional context: <msg>" appended if and only if the additional
    message is non-empty: the envelope is the last argument of the command
    spawned for the target tool.  [SessionManager.forward], given a
    non-empty additional prompt and no custom prefix, sends through [send]
    the envelope "Another AI assistant (<display name>) proposed the
    following. Please review and provide feedback:\n\n---\nX\n---\n\n
    Additional context: <msg>". *)
Theorem C1_forward_envelope :
  (∀ (additionalMessage : jsstring) (res : SDK.ProcessResult) (s : SDK.SDKSession)
     (lastResponse : SDK.Message),
     List.find (fun m => bool_decide (SDK.role m = assistant))
               (rev (SDK.conversationHistory s)) = Some lastResponse ->
     let target := if JS.eqb (SDK.tool lastResponse) (JS.lit "claude")
                   then SDK.gemini else SDK.claude in
     SDK.spawned (SDK.handleForward additionalMessage res s)
     = SDK.spawned s
       ++ [(SDK.toolName target,
            printModeFlags target s
            ++ [specEnvelope (SDK.displayNameOf (SDK.tool lastResponse))
                  (SDK.content lastResponse) (supplied additionalMessage)])]) ∧
  (∀ (registry : jsstring -> option Session.ToolAdapter) (fromTool toTool : jsstring)
     (additionalPrompt : jsstring) (t1 t2 : N) (s : Session.SessionManager)
     (lastResponse : Session.Message),
     Session.getLastResponse (Some fromTool) s = Some lastResponse ->
     is_Some (registry toTool) ->
     JS.truthy additionalPrompt = true ->
     Session.forward registry fromTool toTool (Some additionalPrompt) None t1 t2 s
     = Session.send registry
         (JS.lit "Another AI assistant ("
          ++ JS.or_else (Session.Adapter.displayName <$> registry fromTool) fromTool
          ++ JS.lit ") proposed the following. Please review and provide feedback:"
          ++ [JS.LF; JS.LF] ++ JS.lit "---" ++ [JS.LF]
          ++ Session.content lastResponse
          ++ [JS.LF] ++ JS.lit "---" ++ [JS.LF; JS.LF]
          ++ JS.lit "Additional context: " ++ additionalPrompt)
         (Some toTool) t1 t2 s).
Proof.
  split.
  - intros additionalMessage res s lastResponse Hlast target.
    unfold SDK.handleForward. rewrite Hlast. fold target.
    rewrite sendToTool_spawned, forwardPrompt_specEnvelope. simpl.
    by destruct target.
  - intros registry fromTool toTool additionalPrompt t1 t2 s lastResponse Hlast [a Hto] Ht.
    unfold Session.forward. rewrite Hlast, Hto.
    unfold Session.forwardSuffix, Session.defaultPrefix. rewrite Ht. simpl.
    f_equal. by rewrite <- !app_assoc.
Qed.

Lemma C1_witness :
  List.find (fun m => bool_decide (SDK.role m = assistant))
            (rev (SDK.conversationHistory ExampleRelay.answeredSDK))
  = Some (SDK.mkMessage (JS.lit "claude") assistant (JS.lit "X")) ∧
  SDK.spawned (SDK.handleForward (JS.lit "be brief") (SDK.Close (Some 0%Z) (JS.lit "ok") [])
                 ExampleRelay.answeredSDK)
  = SDK.spawned ExampleRelay.answeredSDK
    ++ [(JS.lit "gemini",
         [specEnvelope (JS.lit "Claude Code") (JS.lit "X") (Some (JS.lit "be brief"))])].
Proof.
  assert (Hlast : List.find (fun m => bool_decide (SDK.role m = assistant))
            (rev (SDK.conversationHistory ExampleRelay.answeredSDK))
          = Some (SDK.mkMessage (JS.lit "claude") assistant (JS.lit "X")))
    by (vm_compute; reflexivity).
  destruct C1_forward_envelope as [H _].
  pose proof (H (JS.lit "be brief") (SDK.Close (Some 0%Z) (JS.lit "ok") [])
                ExampleRelay.answeredSDK _ Hlast) as Hf.
  split; [exact Hlast|]. rewrite Hf. vm_compute. reflexivity.
Defined.

(** C1, as stated, fails for [SessionManager.forward]: with claude's last
    answer "X" it sends gemini an envelope that says "proposed the
    following. Please review and provide feedback:", and without an
    additional prompt the envelope ends after "X", with no closing rule. *)
Lemma C1_counterexample :
  (Session.forward ExampleRelay.registry (JS.lit "claude") (JS.lit "gemini")
     (Some (JS.lit "be brief")) None 3 4 ExampleRelay.answered).1
  = Return (JS.lit "Another AI assistant (Claude Code) proposed the following. Please review and provide feedback:"
            ++ [JS.LF; JS.LF] ++ JS.lit "---" ++ [JS.LF] ++ JS.lit "X" ++ [JS.LF]
            ++ JS.lit "---" ++ [JS.LF; JS.LF] ++ JS.lit "Additional context: be brief") ∧
  (Session.forward ExampleRelay.registry (JS.lit "claude") (JS.lit "gemini")
     None None 3 4 ExampleRelay.answered).1
  = Return (JS.lit "Another AI assistant (Claude Code) proposed the following. Please review and provide feedback:"
            ++ [JS.LF; JS.LF] ++ JS.lit "---" ++ [JS.LF] ++ JS.lit "X") ∧
  JS.eqb (JS.lit "Another AI assistant (Claude Code) proposed the following. Please review and provide feedback:"
            ++ [JS.LF; JS.LF] ++ JS.lit "---" ++ [JS.LF] ++ JS.lit "X" ++ [JS.LF]
            ++ JS.lit "---" ++ [JS.LF; JS.LF] ++ JS.lit "Additional context: be brief")
         (specEnvelope (JS.lit "Claude Code") (JS.lit "X") (Some (JS.lit "be brief")))
  = false ∧
  JS.eqb (JS.lit "Another AI assistant (Claude Code) proposed the following. Please review and provide feedback:"
            ++ [JS.LF; JS.LF] ++ JS.lit "---" ++ [JS.LF] ++ JS.lit "X")
         (specEnvelope (JS.lit "Claude Code") (JS.lit "X") None)
  = false.
Proof. vm_compute. done. Qed.

End RelayTheorems.

(* ===================================================================== *)
(** ** Further properties: utils.ts                                      *)
(* ===================================================================== *)

Module UtilsExtras.
Import Utils.

Lemma length_lit_dots : length (JS.lit "...") = 3%nat.
Proof. reflexivity. Qed.

(** X1.  With a limit of at least 3, [truncate] never returns more than
    [maxLength] code units: a text that fits is returned as it is, a longer
    one is cut to its first [maxLength - 3] units followed by "...". *)
Theorem X1_truncate_within_limit (text : jsstring) (maxLength : Z) :
  (3 <= maxLength)%Z ->
  (Z.of_nat (length (truncate text maxLength)) <= maxLength)%Z ∧
  ((Z.of_nat (length text) <= maxLength)%Z -> truncate text maxLength = text) ∧
  ((maxLength < Z.of_nat (length text))%Z ->
   truncate text maxLength = take (Z.to_nat (maxLength - 3)) text ++ JS.lit "...").
Proof.
  intros H3. unfold truncate, slice0.
  destruct (Z.leb_spec (Z.of_nat (length text)) maxLength) as [Hfit|Hlong].
  - split; [lia|]. split; [done|lia].
  - destruct (Z.ltb_spec (maxLength - 3) 0); [lia|].
    rewrite Z.min_l by lia. split; [|split; [lia|done]].
    rewrite length_app, length_take, length_lit_dots. lia.
Qed.

Lemma X1_witness :
  (3 <= 8)%Z ∧
  truncate (JS.lit "conversation") 8 = JS.lit "conve...".
Proof.
  split; [lia|].
  destruct (X1_truncate_within_limit (JS.lit "conversation") 8 ltac:(lia)) as (_ & _ & H).
  rewrite H by (vm_compute; reflexivity). vm_compute. reflexivity.
Defined.

(** X2.  With a limit below 3, a text longer than the limit comes back
    longer than the limit: [slice(0, maxLength - 3)] then counts from the
    end of the text, and "..." is appended to what it leaves. *)
Theorem X2_truncate_exceeds_small_limit (text : jsstring) (maxLength : Z) :
  (maxLength < 3)%Z ->
  (maxLength < Z.of_nat (length text))%Z ->
  (maxLength < Z.of_nat (length (truncate text maxLength)))%Z ∧
  truncate text maxLength
  = take (length text - Z.to_nat (3 - maxLength)) text ++ JS.lit "...".
Proof.
  intros H3 Hlong. unfold truncate, slice0.
  destruct (Z.leb_spec (Z.of_nat (length text)) maxLength); [lia|].
  destruct (Z.ltb_spec (maxLength - 3) 0); [|lia].
  assert (E : Z.to_nat (Z.max (Z.of_nat (length text) + (maxLength - 3)) 0)
              = (length text - Z.to_nat (3 - maxLength))%nat) by lia.
  rewrite E. split; [|done].
  rewrite length_app, length_take, length_lit_dots. lia.
Qed.

Lemma X2_witness :
  (2 < 3)%Z ∧
  truncate (JS.lit "conversation") 2 = JS.lit "conversatio...".
Proof.
  split; [lia|].
  destruct (X2_truncate_exceeds_small_limit (JS.lit "conversation") 2) as [_ H];
    [lia|vm_compute; reflexivity|].
  rewrite H. vm_compute. reflexivity.
Defined.

End UtilsExtras.

(* ===================================================================== *)
(** ** Further properties: the sanitizers                                *)
(* ===================================================================== *)

Section MatcherSuffix.

Lemma star_loop_consuming {R} (body : option N -> jsstring -> @cont R -> option R) :
  consuming body -> ∀ n, consuming (star_loop body n).
Proof.
  intros Hb n. induction n as [|n IH]; intros prev s k x H; simpl in H.
  - by exists prev, s.
  - destruct (body prev s _) as [y|] eqn:E.
    + injection H as ->. apply Hb in E as (p1 & s1 & Hs1 & Hk).
      destruct (length s1 <? length s)%nat; [|done].
      apply IH in Hk as (p2 & s2 & Hs2 & Hk). exists p2, s2. split; [|done].
      by etrans.
    + by exists prev, s.
Qed.

Lemma run_consuming {R} (r : re) : consuming (@run R r).
Proof.
  induction r as [|p|r1 IH1 r2 IH2|r1 IH1 r2 IH2|r IH|ml|ml];
    intros prev s k x H; simpl in H.
  - by exists prev, s.
  - destruct s as [|c s]; [done|]. destruct (p c); [|done].
    exists (Some c), s. split; [by apply suffix_cons_r|done].
  - apply IH1 in H as (p1 & s1 & Hs1 & H). apply IH2 in H as (p2 & s2 & Hs2 & H).
    exists p2, s2. split; [by etrans|done].
  - destruct (run r1 prev s k) as [y|] eqn:E.
    + injection H as ->. by apply IH1 in E.
    + by apply IH2 in H.
  - by apply star_loop_consuming in H.
  - destruct (at_bol ml prev); [by exists prev, s|done].
  - destruct (at_eol ml s); [by exists prev, s|done].
Qed.

Lemma match_here_suffix (r : re) prev s p' s' :
  match_here r prev s = Some (p', s') -> s' `suffix_of` s.
Proof.
  unfold match_here. intros H. apply run_consuming in H as (p1 & s1 & Hs & [= _ <-]).
  done.
Qed.

Lemma suffix_sublist (l1 l2 : jsstring) : l1 `suffix_of` l2 -> l1 `sublist_of` l2.
Proof. intros [k ->]. by apply sublist_inserts_l. Qed.

(** A replacement that fits in what each match consumed gives a text whose
    code units are taken, in order, from the input. *)
Lemma replace_loop_sublist (r : re) (rep : jsstring) :
  (∀ prev s p' s' l, match_here r prev s = Some (p', s') ->
                     l `sublist_of` s' -> (rep ++ l) `sublist_of` s) ->
  ∀ n prev s, replace_loop r rep n prev s `sublist_of` s.
Proof.
  intros Hrep n. induction n as [|n IH]; intros prev s; simpl; [done|].
  assert (Hskip :
    match s with [] => [] | c :: t => c :: replace_loop r rep n (Some c) t end
    `sublist_of` s).
  { destruct s as [|c t]; [done|]. by apply sublist_skip. }
  destruct (match_here r prev s) as [[p' s']|] eqn:E; [|done].
  destruct (length s' <? length s)%nat eqn:El.
  - by eapply Hrep.
  - apply (Hrep prev s p' s'); [done|].
    apply match_here_suffix in E as [k Ek]. apply Nat.ltb_ge in El.
    rewrite Ek, length_app in El. destruct k; [|simpl in El; lia].
    simpl in Ek. by rewrite <- Ek.
Qed.

Lemma replaceAll_delete_sublist (r : re) (s : jsstring) :
  replaceAll r [] s `sublist_of` s.
Proof.
  apply replace_loop_sublist. intros prev s0 p' s' l E Hl. simpl.
  etrans; [exact Hl|]. apply suffix_sublist. by eapply match_here_suffix.
Qed.

End MatcherSuffix.

Section StripAnsiFacts.

#[local] Arguments run : simpl never.
#[local] Arguments star_loop : simpl never.

(** The pattern has no anchor: where a match starts does not depend on
    what came before. *)
Lemma ansi_match_here_prev (prev prev' : option N) (s : jsstring) :
  match_here ansiPattern prev s = match_here ansiPattern prev' s.
Proof.
  unfold match_here, ansiPattern. rewrite !run_seq.
  destruct s as [|c t]; [done|]. by rewrite !run_chr_cons.
Qed.

Lemma ansi_replace_loop_prev (n : nat) (prev prev' : option N) (s : jsstring) :
  replace_loop ansiPattern [] n prev s = replace_loop ansiPattern [] n prev' s.
Proof.
  destruct n as [|n]; [done|]. simpl.
  by rewrite (ansi_match_here_prev prev prev').
Qed.

Lemma stripAnsi_loop (n : nat) (prev : option N) (s : jsstring) :
  (length s < n)%nat -> replace_loop ansiPattern [] n prev s = stripAnsi s.
Proof.
  intros Hn. unfold stripAnsi, replaceAll.
  rewrite (ansi_replace_loop_prev n prev None).
  apply replace_loop_fuel; lia.
Qed.

Lemma stripAnsi_cons_plain (c : N) (s : jsstring) :
  c ≠ JS.ESC -> stripAnsi (c :: s) = c :: stripAnsi s.
Proof.
  intros Hc. unfold stripAnsi at 1, replaceAll. cbn [replace_loop length].
  rewrite ansi_match_here_head by (simpl; congruence).
  f_equal; try (apply stripAnsi_loop; lia).
Qed.

Lemma stripAnsi_sequence (m post : jsstring) :
  ansiSequence m -> stripAnsi (m ++ post) = stripAnsi post.
Proof.
  intros Hm. unfold stripAnsi at 1, replaceAll. cbn [replace_loop].
  destruct (ansi_match m post None Hm) as [c ->].
  assert (Hlt : (length post < length (m ++ post))%nat).
  { rewrite length_app. destruct Hm; simpl; lia. }
  rewrite (proj2 (Nat.ltb_lt _ _) Hlt). simpl. by apply stripAnsi_loop.
Qed.

End StripAnsiFacts.

Module SanitizerExtras.

(** X3.  [stripAnsi] only deletes: the code units of its result are code
    units of the input, in the same order. *)
Theorem X3_stripAnsi_only_deletes (s : jsstring) :
  stripAnsi s `sublist_of` s.
Proof. apply replaceAll_delete_sublist. Qed.

(** X4.  [stripAnsi] keeps text without ESC as it is and removes an escape
    sequence that follows it: for [pre] without ESC and an escape sequence
    [m], stripping [pre ++ m ++ post] gives [pre] followed by the stripped
    [post]. *)
Theorem X4_stripAnsi_removes_sequence (pre m post : jsstring) :
  JS.ESC ∉ pre ->
  ansiSequence m ->
  stripAnsi (pre ++ m ++ post) = pre ++ stripAnsi post.
Proof.
  intros Hpre Hm. induction pre as [|c pre IH]; simpl.
  - by apply stripAnsi_sequence.
  - rewrite stripAnsi_cons_plain by set_solver. f_equal. apply IH. set_solver.
Qed.

Lemma X4_witness :
  (JS.ESC ∉ JS.lit "ok ") ∧
  ansiSequence ([JS.ESC] ++ JS.lit "[1;32m") ∧
  stripAnsi (JS.lit "ok " ++ ([JS.ESC] ++ JS.lit "[1;32m") ++ JS.lit "done")
  = JS.lit "ok " ++ stripAnsi (JS.lit "done").
Proof.
  assert (H1 : JS.ESC ∉ JS.lit "ok ").
  { apply (bool_decide_unpack (JS.ESC ∉ JS.lit "ok ")). vm_compute. exact I. }
  assert (H2 : ansiSequence ([JS.ESC] ++ JS.lit "[1;32m")).
  { apply (ansi_csi (JS.lit "1;32") [] 109); [repeat constructor|constructor|reflexivity]. }
  exact (conj H1 (conj H2 (X4_stripAnsi_removes_sequence _ _ (JS.lit "done") H1 H2))).
Defined.

End SanitizerExtras.

Section CleanResponseFacts.
Import GeminiAdapter.

Lemma trim_sublist (s : jsstring) : JS.trim s `sublist_of` s.
Proof.
  unfold JS.trim.
  destruct (trimEnd_prefix (JS.trimStart s)) as [post E].
  destruct (trimStart_suffix s) as [pre E'].
  rewrite E' at 2. rewrite E at 2.
  apply sublist_inserts_l, sublist_inserts_r. done.
Qed.

(** Splitting at a separator and joining with it gives the text back. *)
Lemma join_split (sep : N) (s : jsstring) : JS.join [sep] (JS.split sep s) = s.
Proof.
  induction s as [|c s IH]; [done|]. simpl.
  destruct (N.eqb_spec c sep) as [->|Hne].
  - destruct (JS.split sep s) as [|l ls] eqn:E; simpl in *; [by subst|].
    by rewrite IH.
  - destruct (JS.split sep s) as [|l ls] eqn:E; simpl in *; [by subst|].
    destruct ls; simpl in *; by subst.
Qed.

Lemma join_cons (sep l : jsstring) (ls : list jsstring) :
  JS.join sep (l :: ls)
  = l ++ match ls with [] => [] | _ :: _ => sep ++ JS.join sep ls end.
Proof. destruct ls; simpl; by rewrite ?app_nil_r. Qed.

Lemma join_filter_sublist (sep : jsstring) (P : jsstring -> Prop)
    `{∀ l, Decision (P l)} (ls : list jsstring) :
  JS.join sep (filter P ls) `sublist_of` JS.join sep ls.
Proof.
  induction ls as [|l ls IH]; [done|].
  rewrite filter_cons. destruct (decide (P l)).
  - rewrite !join_cons. apply sublist_app; [done|].
    destruct (filter P ls) as [|l' ls'] eqn:E.
    + apply sublist_nil_l.
    + destruct ls as [|l0 ls0]; [done|]. by apply sublist_app.
  - etrans; [exact IH|]. rewrite join_cons. destruct ls as [|l0 ls0].
    + apply sublist_nil_l.
    + apply sublist_inserts_l, sublist_inserts_l. done.
Qed.

(** A run of three or more line feeds is replaced by two of them. *)
Lemma collapse_blank_lines_sublist (s : jsstring) :
  replaceAll (seqs [Chr (code JS.LF); Chr (code JS.LF); Chr (code JS.LF);
                    Star (Chr (code JS.LF))]) [JS.LF; JS.LF] s
  `sublist_of` s.
Proof.
  apply replace_loop_sublist. intros prev s0 p' s' l E Hl.
  unfold match_here in E. cbn [seqs] in E.
  destruct s0 as [|c1 [|c2 [|c3 t]]]; simpl in E;
    repeat (match type of E with
            | context [code JS.LF ?c] =>
                let Ec := fresh in
                destruct (code JS.LF c) eqn:Ec; [apply N.eqb_eq in Ec; subst c|done]
            end); try done.
  apply (star_loop_consuming _ (run_consuming (Chr (code JS.LF)))) in E
    as (p1 & s1 & Hs1 & [= _ <-]).
  simpl. apply sublist_skip, sublist_skip, sublist_cons.
  etrans; [exact Hl|]. by apply suffix_sublist.
Qed.

Lemma removals_sublist (rs : list re) (s : jsstring) :
  foldl (fun out r => replaceAll r [] out) s rs `sublist_of` s.
Proof.
  revert s. induction rs as [|r rs IH]; intros s; simpl; [done|].
  etrans; [apply IH|]. apply replaceAll_delete_sublist.
Qed.

(** What [cleanResponse] returns is left over from the text that the
    removals give. *)
Lemma cleanResponse_sublist_removed (rawOutput : jsstring) :
  cleanResponse rawOutput
  `sublist_of` foldl (fun out r => replaceAll r [] out) rawOutput removals.
Proof.
  unfold cleanResponse. cbv zeta.
  set (o1 := foldl _ rawOutput removals).
  set (o2 := if (0 <? lastIndicatorEnd o1)%nat then _ else _).
  assert (H2 : o2 `sublist_of` o1).
  { subst o2. destruct (0 <? lastIndicatorEnd o1)%nat.
    - etrans; [apply trim_sublist|]. apply sublist_drop.
    - destruct (JS.lastIndexOf _ o1); [|done].
      etrans; [apply trim_sublist|]. apply sublist_drop. }
  set (o3 := JS.join _ (filter _ _)).
  assert (H3 : o3 `sublist_of` o2).
  { subst o3. etrans; [apply join_filter_sublist|]. by rewrite join_split. }
  etrans; [apply trim_sublist|].
  etrans; [apply replaceAll_delete_sublist|].
  etrans; [apply collapse_blank_lines_sublist|].
  by etrans.
Qed.

End CleanResponseFacts.

Section ClassRemoval.
Import GeminiAdapter SpecGemini.

#[local] Arguments run : simpl never.
#[local] Arguments star_loop : simpl never.

(** Deleting the matches of a one-unit class leaves no unit of the class. *)
Lemma replace_loop_class (p : N -> bool) (n : nat) (prev : option N) (s : jsstring) :
  (length s < n)%nat ->
  Forall (fun c => p c = false) (replace_loop (Chr p) [] n prev s).
Proof.
  revert prev s. induction n as [|n IH]; intros prev s Hn; [lia|].
  destruct s as [|c t]; [by constructor|].
  cbn [replace_loop]. unfold match_here. rewrite run_chr_cons.
  simpl in Hn. destruct (p c) eqn:Hc.
  - rewrite (proj2 (Nat.ltb_lt (length t) (length (c :: t)))) by (simpl; lia).
    simpl. apply IH. lia.
  - constructor; [done|]. apply IH. lia.
Qed.

Lemma replaceAll_class (p : N -> bool) (s : jsstring) :
  Forall (fun c => p c = false) (replaceAll (Chr p) [] s).
Proof. apply replace_loop_class. lia. Qed.

Lemma removals_split :
  ∃ before between after,
    removals = before ++ [Chr spinnerFrame] ++ between ++ [Chr boxDrawing] ++ after.
Proof. by exists (take 5 removals), [], (drop 7 removals). Qed.

Lemma Forall_sublist_of {A} (P : A -> Prop) (l1 l2 : list A) :
  l1 `sublist_of` l2 -> Forall P l2 -> Forall P l1.
Proof.
  intros Hs H. apply Forall_forall. intros x Hx.
  eapply (proj1 (Forall_forall P l2) H), elem_of_sublist; eassumption.
Qed.

Lemma removals_classes (s : jsstring) :
  Forall (fun c => spinnerFrame c = false ∧ boxDrawing c = false)
         (foldl (fun out r => replaceAll r [] out) s removals).
Proof.
  destruct removals_split as (before & between & after & ->).
  rewrite !foldl_app. simpl.
  set (s1 := foldl _ s before).
  set (s2 := replaceAll (Chr spinnerFrame) [] s1).
  set (s3 := foldl _ s2 between).
  set (s4 := replaceAll (Chr boxDrawing) [] s3).
  assert (Forall (fun c => spinnerFrame c = false) s2) as H2 by apply replaceAll_class.
  assert (Forall (fun c => boxDrawing c = false) s4) as H4 by apply replaceAll_class.
  assert (s4 `sublist_of` s2) as H42.
  { etrans; [apply replaceAll_delete_sublist|]. apply removals_sublist. }
  apply (Forall_sublist_of _ _ _ (removals_sublist after s4)).
  apply Forall_and. split; [|done]. by apply (Forall_sublist_of _ _ _ H42).
Qed.

End ClassRemoval.

Module GeminiExtras.
Import GeminiAdapter SpecGemini.

(** X5.  [cleanResponse] only deletes: whatever it returns consists of code
    units of the raw output, in the same order (it never inserts or
    reorders text), and it neither starts nor ends with white space. *)
Theorem X5_cleanResponse_only_deletes (rawOutput : jsstring) :
  cleanResponse rawOutput `sublist_of` rawOutput ∧
  ¬ leadingSpace (cleanResponse rawOutput) ∧
  ¬ trailingSpace (cleanResponse rawOutput).
Proof.
  split.
  { etrans; [apply cleanResponse_sublist_removed|apply removals_sublist]. }
  unfold cleanResponse. cbv zeta. split.
  - intros (c & t & E & Hc). apply trim_head in E. congruence.
  - intros (t & c & E & Hc). apply trim_last in E. congruence.
Qed.

(** X6.  What [cleanResponse] returns contains none of the spinner frames
    and none of the box drawing characters that it removes. *)
Theorem X6_cleanResponse_leaves_no_spinner_or_box (rawOutput : jsstring) :
  Forall (fun c => spinnerFrame c = false ∧ boxDrawing c = false)
         (cleanResponse rawOutput).
Proof.
  eapply Forall_sublist_of; [apply cleanResponse_sublist_removed|].
  apply removals_classes.
Qed.

End GeminiExtras.

(* ===================================================================== *)
(** ** Further properties: ToolDaemon                                    *)
(* ===================================================================== *)

Module DaemonMoreFacts.
Import Daemon Spec SpecMore DaemonFacts.

Lemma filter_snoc {A} (f : A -> bool) (l : list A) (x : A) :
  List.filter f (l ++ [x]) = List.filter f l ++ (if f x then [x] else []).
Proof. by rewrite List.filter_app. Qed.

Lemma existsb_filter_nil {A} (f : A -> bool) (l : list A) :
  existsb f l = false -> List.filter f l = [].
Proof.
  induction l as [|x l IH]; simpl; [done|].
  destruct (f x); simpl; [done|]. exact IH.
Qed.

Lemma write_io (data : jsstring) (d : ToolDaemon) (f : Effect -> bool) :
  (∀ h, f (PtyWrite h data) = false) ->
  List.filter f (io (write data d)) = List.filter f (io d).
Proof.
  intros Hf. unfold write. destruct (pty d); [|done]. simpl.
  by rewrite filter_snoc, Hf, app_nil_r.
Qed.

Lemma onStdinData_io (data : jsstring) (d : ToolDaemon) (f : Effect -> bool) :
  (∀ h, f (PtyWrite h data) = false) ->
  List.filter f (io (onStdinData data d)) = List.filter f (io d).
Proof.
  intros Hf. unfold onStdinData. generalize (stdinListeners d) as n.
  induction n as [|n IH]; [done|].
  rewrite Nat.iter_succ, write_io; done.
Qed.

Lemma step_resolutions d a p :
  pendingUnsettled d ->
  (resolutions p d <= 1)%nat -> (resolutions p (step d a) <= 1)%nat.
Proof.
  unfold resolutions. intros [_ Hres] H.
  unfold step. destruct (enabled _ _); [|done].
  destruct a; cbn [fst snd].
  all: try (rewrite onStdinData_io; done).
  all: try (rewrite write_io; done).
  all: unfold start, send, enterInteractiveMode, exitInteractiveMode, stop,
    onData, onExit, onGraceTimer, onStartupTimeout, becomeReady, resetResponseTimeout.
  all: try (repeat (simpl; case_match); simpl; rewrite ?filter_snoc; simpl;
    rewrite ?app_nil_r; done).
  unfold completeResponse. simpl.
  destruct (responseResolver d) as [q|] eqn:Hq; [|done]. simpl.
  rewrite filter_snoc. simpl. destruct (Nat.eqb_spec p q) as [->|_].
  - destruct (Hres q eq_refl) as [_ E]. by rewrite (existsb_filter_nil _ _ E).
  - by rewrite app_nil_r.
Qed.

Lemma reachable_resolutions d p : reachable d -> (resolutions p d <= 1)%nat.
Proof.
  intros Hd. induction Hd as [cfg | d a Hd IH] using reachable_ind.
  - unfold resolutions. simpl. lia.
  - apply step_resolutions; [|done]. by apply reachable_invariants.
Qed.


(** Data that arrives while a send is pending in state Busy. *)
Lemma onData_busy (h : nat) (data : jsstring) (d : ToolDaemon) :
  state d = busy -> is_Some (responseResolver d) ->
  onData h data d
  = set_responseTimeoutId (Some (idleDelay d))
      (set_responseBuffer (responseBuffer d ++ data)
         (effect (EmitData data) (set_outputBuffer (outputBuffer d ++ data) d))).
Proof.
  intros Hs Hp. unfold onData, resetResponseTimeout. simpl.
  rewrite Hs. rewrite (bool_decide_eq_true_2 (busy = busy)); [|done].
  rewrite (bool_decide_eq_true_2 _ Hp). simpl. by rewrite Hs.
Qed.

Lemma deliverChunks_busy (chunks : list (nat * jsstring)) : ∀ d,
  state d = busy -> is_Some (responseResolver d) ->
  let d' := deliverChunks chunks d in
  state d' = busy ∧
  responseResolver d' = responseResolver d ∧
  (chunks ≠ [] -> responseTimeoutId d' = Some (idleDelay d)) ∧
  (chunks = [] -> responseTimeoutId d' = responseTimeoutId d) ∧
  responseBuffer d' = responseBuffer d ++ concat chunks.*2 ∧
  outputBuffer d' = outputBuffer d ++ concat chunks.*2 ∧
  io d' = io d ++ map EmitData chunks.*2.
Proof.
  induction chunks as [|[h data] chunks IH]; intros d Hs Hp.
  { simpl. rewrite !app_nil_r. repeat split; done. }
  cbn [deliverChunks foldl fst snd]. cbv zeta.
  rewrite (onData_busy h data d Hs Hp).
  set (d1 := set_responseTimeoutId _ _).
  destruct (IH d1) as (E1 & E2 & E3 & E4 & E5 & E6 & E7); [done..|].
  fold (deliverChunks chunks d1).
  rewrite E1, E2, E5, E6, E7. simpl. rewrite <- !app_assoc. simpl.
  repeat split; try done.
  intros _. destruct chunks as [|c chunks]; [by rewrite E4|by rewrite E3].
Qed.

(** What a step of a daemon that has left Starting does to the start calls. *)
Lemma keepsUnfulfilled_clearGraceTimer : keepsUnfulfilled clearGraceTimer.
Proof. by intros c. Qed.

Lemma keepsUnfulfilled_reject msg :
  keepsUnfulfilled (fun c => rejectStart msg (clearStartupTimer c)).
Proof. intros [[] ? ?]; done. Qed.

Lemma step_not_starting d a : state d ≠ starting -> state (step d a) ≠ starting.
Proof.
  intros Hs. unfold step. destruct (enabled a d); [|done].
  destruct a; cbn [fst snd];
    try (by destruct (onStdinData_frame data d) as (-> & _));
    try (by destruct (write_frame data d) as (-> & _)).
  all: unfold start, send, enterInteractiveMode, exitInteractiveMode, stop,
    onData, onExit, onGraceTimer, onStartupTimeout, completeResponse,
    becomeReady, resetResponseTimeout.
  all: repeat (simpl; case_match); simpl in *; try done.
  all: repeat match goal with
    | H : bool_decide _ = true |- _ => apply bool_decide_eq_true in H
    end; done.
Qed.

Lemma write_startCalls data d : startCalls (write data d) = startCalls d.
Proof. unfold write. by destruct (pty d). Qed.

Lemma onStdinData_startCalls data d : startCalls (onStdinData data d) = startCalls d.
Proof.
  unfold onStdinData. generalize (stdinListeners d) as n.
  induction n as [|n IH]; [done|]. by rewrite Nat.iter_succ, write_startCalls.
Qed.

Lemma step_startCalls d a :
  state d ≠ starting ->
  startCalls (step d a) = startCalls d ∨
  (∃ c, startCalls (step d a) = startCalls d ++ [c] ∧ startPromise c = Pending) ∨
  (∃ f k, startCalls (step d a) = alter f k (startCalls d) ∧ keepsUnfulfilled f).
Proof.
  intros Hs. unfold step. destruct (enabled a d); [|by left].
  destruct a; cbn [fst snd].
  all: try (left; apply onStdinData_startCalls).
  all: try (left; apply write_startCalls).
  all: unfold start, send, enterInteractiveMode, exitInteractiveMode, stop,
    onData, onExit, onGraceTimer, onStartupTimeout, completeResponse,
    becomeReady, resetResponseTimeout.
  all: repeat (simpl; case_match); simpl in *.
  all: repeat match goal with
    | H : bool_decide _ = true |- _ => apply bool_decide_eq_true in H
    | H : _ && _ = true |- _ => apply andb_true_iff in H as [? ?]
    end; try done.
  all: try (by left).
  all: try (right; left; eexists; split; [reflexivity|done]).
  - right; right. eexists _, _. split; [reflexivity|]. apply keepsUnfulfilled_clearGraceTimer.
  - right; right. eexists _, _. split; [reflexivity|]. apply keepsUnfulfilled_reject.
Qed.

Lemma step_no_fulfil d a h c' :
  state d ≠ starting ->
  startCalls (step d a) !! h = Some c' -> startPromise c' = Fulfilled ->
  ∃ c, startCalls d !! h = Some c ∧ startPromise c = Fulfilled.
Proof.
  intros Hs Hl Hf.
  destruct (step_startCalls d a Hs) as [E|[(c & E & Hc)|(f & k & E & Hk)]];
    rewrite E in Hl.
  - by exists c'.
  - apply lookup_app_Some in Hl as [Hl|[_ Hl]]; [by exists c'|].
    apply list_lookup_singleton_Some in Hl as [_ <-]. congruence.
  - destruct (decide (k = h)) as [->|Hne].
    + rewrite list_lookup_alter_eq in Hl.
      destruct (startCalls d !! h) as [c|]; [|done]. simpl in Hl.
      injection Hl as <-. exists c. split; [done|]. by apply Hk.
    + rewrite list_lookup_alter_ne in Hl by done. by exists c'.
Qed.

Lemma steps_no_fulfil history : ∀ d,
  state d ≠ starting ->
  let d' := foldl step d history in
  state d' ≠ starting ∧
  ∀ h c', startCalls d' !! h = Some c' -> startPromise c' = Fulfilled ->
    ∃ c, startCalls d !! h = Some c ∧ startPromise c = Fulfilled.
Proof.
  induction history as [|a history IH] using rev_ind; intros d Hs.
  { simpl. split; [done|]. intros h c' ? ?. by exists c'. }
  cbv zeta. rewrite foldl_app. simpl.
  destruct (IH d Hs) as [Hs' Hf']. split; [by apply step_not_starting|].
  intros h c' Hl Hf.
  destruct (step_no_fulfil _ _ _ _ Hs' Hl Hf) as (c & Hc & Hcf). eauto.
Qed.


(** Terminal input is written to the pty once for every handler. *)
Lemma onStdinData_effects (data : jsstring) (d : ToolDaemon) :
  onStdinData data d
  = match pty d with
    | Some h => Nat.iter (stdinListeners d) (effect (PtyWrite h data)) d
    | None => d
    end.
Proof.
  unfold onStdinData. generalize (stdinListeners d) as n.
  assert (∀ n h, pty d = Some h ->
            pty (Nat.iter n (effect (PtyWrite h data)) d) = Some h) as Hpty.
  { intros n h Hh. induction n as [|n IH]; [done|]. by rewrite Nat.iter_succ. }
  induction n as [|n IH].
  { simpl. by destruct (pty d). }
  rewrite Nat.iter_succ, IH. destruct (pty d) as [h|] eqn:Hh.
  - rewrite Nat.iter_succ. unfold write. by rewrite (Hpty n h eq_refl).
  - unfold write. by rewrite Hh.
Qed.

Lemma iter_effect_io (n : nat) (e : Effect) (d : ToolDaemon) :
  io (Nat.iter n (effect e) d) = io d ++ replicate n e.
Proof.
  induction n as [|n IH]; [by rewrite app_nil_r|].
  rewrite Nat.iter_succ. simpl. rewrite IH, <- app_assoc.
  f_equal. change [e] with (replicate 1 e). rewrite <- replicate_add.
  by rewrite Nat.add_comm.
Qed.

Lemma emitted_snoc (l : list Effect) (e : Effect) :
  emitted (l ++ [e])
  = emitted l ++ match e with EmitData data => [data] | _ => [] end.
Proof. unfold emitted. rewrite omap_app. f_equal. by destruct e. Qed.

Lemma write_outputBuffer data d :
  outputBuffer (write data d) = outputBuffer d ∧ emitted (io (write data d)) = emitted (io d).
Proof.
  unfold write. destruct (pty d); [|done]. simpl.
  by rewrite emitted_snoc, app_nil_r.
Qed.

Lemma onStdinData_outputBuffer data d :
  outputBuffer (onStdinData data d) = outputBuffer d ∧
  emitted (io (onStdinData data d)) = emitted (io d).
Proof.
  unfold onStdinData. generalize (stdinListeners d) as n.
  induction n as [|n [IH1 IH2]]; [done|]. rewrite Nat.iter_succ.
  destruct (write_outputBuffer data (Nat.iter n (write data) d)) as [-> ->]. done.
Qed.

Lemma step_outputBuffer d a :
  outputBuffer d = concat (emitted (io d)) ->
  outputBuffer (step d a) = concat (emitted (io (step d a))).
Proof.
  intros H. unfold step. destruct (enabled a d); [|done].
  destruct a; cbn [fst snd].
  all: try (by destruct (onStdinData_outputBuffer data d) as [-> ->]).
  all: try (by destruct (write_outputBuffer data d) as [-> ->]).
  all: unfold start, send, enterInteractiveMode, exitInteractiveMode, stop,
    onData, onExit, onGraceTimer, onStartupTimeout, completeResponse,
    becomeReady, resetResponseTimeout.
  all: repeat (simpl; case_match); simpl;
    rewrite ?emitted_snoc, ?app_nil_r, ?concat_app; simpl; rewrite ?app_nil_r;
    by rewrite ?H.
Qed.

(** A daemon in state Busy has a pending send. *)
Lemma step_busy_pending d a :
  (state d = busy -> is_Some (responseResolver d)) ->
  state (step d a) = busy -> is_Some (responseResolver (step d a)).
Proof.
  intros H. step_cases a; try done; try naive_solver.
Qed.

Lemma reachable_busy_pending d :
  reachable d -> state d = busy -> is_Some (responseResolver d).
Proof.
  intros Hd. induction Hd as [cfg | d a _ IH] using reachable_ind; [done|].
  by apply step_busy_pending.
Qed.

(** A send promise that is pending and no longer held in [responseResolver]
    stays pending. *)
Lemma step_abandoned d a p :
  (p < sendCalls d)%nat ∧ responseResolver d ≠ Some p ∧
    existsb (resolves p) (io d) = false ->
  (p < sendCalls (step d a))%nat ∧ responseResolver (step d a) ≠ Some p ∧
    existsb (resolves p) (io (step d a)) = false.
Proof.
  intros (Hlt & Hne & Hio).
  step_cases a; try done;
    rewrite ?existsb_snoc; simpl; rewrite ?orb_false_r;
    repeat split; try done; try lia; try congruence.
  all: try (intros [= ->]; lia).
  all: try (rewrite Hio; simpl; apply Nat.eqb_neq; congruence).
  intros [= E]. lia.
Qed.

Lemma steps_abandoned history p : ∀ d,
  (p < sendCalls d)%nat ∧ responseResolver d ≠ Some p ∧
    existsb (resolves p) (io d) = false ->
  existsb (resolves p) (io (foldl step d history)) = false.
Proof.
  induction history as [|a history IH]; intros d H; [apply H|].
  simpl. apply IH. by apply step_abandoned.
Qed.

(** Without [start()], a daemon that holds no pty does nothing to ptys. *)
Lemma step_no_pty d a :
  a ≠ CallStart -> pty d = None ->
  pty (step d a) = None ∧ ptyEffects (step d a) = ptyEffects d.
Proof.
  intros Ha Hp. unfold step. destruct (enabled a d); [|done].
  destruct a; cbn [fst snd]; try done.
  all: try (rewrite onStdinData_effects, Hp; done).
  all: unfold ptyEffects, start, send, enterInteractiveMode, exitInteractiveMode, stop,
    write, onData, onExit, onGraceTimer, onStartupTimeout, completeResponse,
    becomeReady, resetResponseTimeout.
  all: rewrite ?Hp.
  all: repeat (simpl; case_match); simpl; rewrite ?Hp; rewrite ?filter_snoc; simpl;
    rewrite ?app_nil_r; try done.
  all: exfalso; unfold exitInteractiveMode in *;
    destruct (interactiveStdinHandler d); simpl in *; congruence.
Qed.

(** [enterInteractiveMode()], called [n] times on a daemon with a pty. *)
Lemma enterTimes_fields (n : nat) (d : ToolDaemon) :
  is_Some (pty d) ->
  pty (enterTimes n d) = pty d ∧
  stdinListeners (enterTimes n d) = (stdinListeners d + n)%nat ∧
  (n ≠ O -> interactiveStdinHandler (enterTimes n d) = true ∧
            state (enterTimes n d) = interactive).
Proof.
  intros [h Hh]. unfold enterTimes. induction n as [|n (IH1 & IH2 & IH3)].
  { simpl. split; [done|]. split; [lia|done]. }
  rewrite Nat.iter_succ.
  set (d' := Nat.iter n _ d) in *. unfold enterInteractiveMode.
  rewrite IH1, Hh. simpl. rewrite IH1, IH2, Hh. split; [done|]. split; [lia|done].
Qed.

End DaemonMoreFacts.

Module DaemonExtras.
Import Daemon Spec SpecMore DaemonFacts DaemonMoreFacts.

(** X7.  In every state a daemon can reach, the promise of each [send] call
    has been resolved at most once. *)
Theorem X7_send_resolved_at_most_once (d : ToolDaemon) (p : nat) :
  reachable d -> (resolutions p d <= 1)%nat.
Proof. apply reachable_resolutions. Qed.

Lemma X7_witness :
  reachable (step Example.answering IdleTimeout) ∧
  (resolutions 0 (step Example.answering IdleTimeout) <= 1)%nat.
Proof.
  assert (H : reachable (step Example.answering IdleTimeout))
    by (apply reachable_step; by eexists _, _).
  exact (conj H (X7_send_resolved_at_most_once _ 0%nat H)).
Defined.

(** X8.  A [send] on a Ready daemon returns a fresh promise and writes the
    command and a line feed to the pty; the chunks of data that then arrive
    are emitted one by one, and when the idle timer fires the promise is
    resolved with their concatenation, in order, [getLastResponse()] is its
    ANSI-stripped, trimmed form, and the daemon is Ready again. *)
Theorem X8_response_is_concatenation_of_chunks
    (d : ToolDaemon) (h : nat) (command : jsstring) (chunks : list (nat * jsstring)) :
  pty d = Some h ->
  state d = ready ->
  let p := sendCalls d in
  let response := concat chunks.*2 in
  let d' := step (deliverChunks chunks (send command d).2) IdleTimeout in
  (send command d).1 = Return p ∧
  io d' = io d ++ [PtyWrite h (command ++ [JS.LF])] ++ map EmitData chunks.*2
            ++ [ResolveSend p response] ∧
  getLastResponse d' = JS.trim (stripAnsi response) ∧
  state d' = ready ∧
  responseBuffer d' = [].
Proof.
  intros Hh Hs p response d'.
  assert (send command d
          = (Return p,
             resetResponseTimeout
               (effect (PtyWrite h (command ++ [JS.LF]))
                  (set_responseResolver (Some p)
                     (set_responseBuffer []
                        (set_state busy (set_sendCalls (S p) d))))))) as Hsend.
  { unfold send. rewrite Hh, bool_decide_eq_true_2; done. }
  split; [by rewrite Hsend|].
  subst d'. rewrite Hsend. cbn [snd]. set (d1 := resetResponseTimeout _).
  destruct (deliverChunks_busy chunks d1) as (E1 & E2 & E3 & E4 & E5 & E6 & E7);
    [done|by eexists|].
  assert (is_Some (responseTimeoutId (deliverChunks chunks d1))) as Ht.
  { destruct chunks as [|c chunks]; [rewrite E4|rewrite E3]; by eauto. }
  rewrite (idle_completion _ p E2 Ht). simpl. rewrite E5, E7. simpl.
  rewrite <- !app_assoc. done.
Qed.

Lemma X8_witness :
  pty ExampleMore.idle = Some 0%nat ∧
  state ExampleMore.idle = ready ∧
  io (step (deliverChunks [(0%nat, JS.lit "hel"); (0%nat, JS.lit "lo")]
            (send (JS.lit "hi") ExampleMore.idle).2) IdleTimeout)
  = io ExampleMore.idle
    ++ [PtyWrite 0 (JS.lit "hi" ++ [JS.LF])]
    ++ [EmitData (JS.lit "hel"); EmitData (JS.lit "lo")]
    ++ [ResolveSend 0 (JS.lit "hello")].
Proof.
  assert (H1 : pty ExampleMore.idle = Some 0%nat) by (vm_compute; reflexivity).
  assert (H2 : state ExampleMore.idle = ready) by (vm_compute; reflexivity).
  pose proof (X8_response_is_concatenation_of_chunks ExampleMore.idle 0%nat
                (JS.lit "hi") [(0%nat, JS.lit "hel"); (0%nat, JS.lit "lo")] H1 H2) as H.
  cbv zeta in H. destruct H as (_ & Hio & _).
  exact (conj H1 (conj H2 Hio)).
Defined.

(** X9.  Once a daemon has left state Starting it never returns to it, and
    no [start()] promise is fulfilled from then on, whatever happens: a
    promise that is fulfilled later was fulfilled already.  So a [start()]
    called on a daemon that was ready, dead or stopped never reports
    readiness. *)
Theorem X9_no_start_fulfilled_after_starting
    (d : ToolDaemon) (history : list Action) (h : nat) (c' : StartCall) :
  state d ≠ starting ->
  let d' := foldl step d history in
  state d' ≠ starting ∧
  (startCalls d' !! h = Some c' -> startPromise c' = Fulfilled ->
   ∃ c, startCalls d !! h = Some c ∧ startPromise c = Fulfilled).
Proof.
  intros Hs d'. destruct (steps_no_fulfil history d Hs) as [H1 H2].
  split; [done|]. apply H2.
Qed.

Lemma X9_witness :
  state ExampleMore.stopped ≠ starting ∧
  let d' := foldl step ExampleMore.stopped
              [CallStart; GraceTimer 1; PtyData 1 (JS.lit "ready")] in
  state d' ≠ starting ∧
  (startCalls d' !! 0%nat = Some (mkStartCall Fulfilled None None) ->
   startPromise (mkStartCall Fulfilled None None) = Fulfilled ->
   ∃ c, startCalls ExampleMore.stopped !! 0%nat = Some c ∧ startPromise c = Fulfilled).
Proof.
  assert (H1 : state ExampleMore.stopped ≠ starting) by (vm_compute; discriminate).
  exact (conj H1 (X9_no_start_fulfilled_after_starting ExampleMore.stopped
                    [CallStart; GraceTimer 1; PtyData 1 (JS.lit "ready")] 0%nat
                    (mkStartCall Fulfilled None None) H1)).
Defined.

(** X10.  A daemon never stays Busy for want of a timer: in every reachable
    state Busy there is a pending send whose idle timer is armed, and when
    that timer fires the send is resolved and the daemon is Ready. *)
Theorem X10_busy_has_armed_idle_timer (d : ToolDaemon) :
  reachable d ->
  state d = busy ->
  ∃ p, responseResolver d = Some p ∧
       sendSettled p d = Pending ∧
       is_Some (responseTimeoutId d) ∧
       enabled IdleTimeout d = true ∧
       state (step d IdleTimeout) = ready ∧
       sendSettled p (step d IdleTimeout) = Fulfilled.
Proof.
  intros Hd Hs.
  destruct (reachable_busy_pending d Hd Hs) as [p Hp]. exists p.
  destruct (reachable_invariants d Hd) as (_ & Ht & _ & Hu).
  specialize (Ht (ex_intro _ p Hp)). destruct (Hu p Hp) as [_ Hio].
  split; [done|]. split; [by unfold sendSettled; rewrite Hio|].
  split; [done|]. split; [by apply bool_decide_eq_true_2|].
  rewrite (idle_completion d p Hp Ht). split; [done|].
  unfold sendSettled. simpl. rewrite existsb_snoc. simpl.
  by rewrite Nat.eqb_refl, orb_true_r.
Qed.

Lemma X10_witness :
  reachable Example.answering ∧
  state Example.answering = busy ∧
  ∃ p, responseResolver Example.answering = Some p ∧
       sendSettled p Example.answering = Pending ∧
       is_Some (responseTimeoutId Example.answering) ∧
       enabled IdleTimeout Example.answering = true ∧
       state (step Example.answering IdleTimeout) = ready ∧
       sendSettled p (step Example.answering IdleTimeout) = Fulfilled.
Proof.
  assert (H1 : reachable Example.answering) by (by eexists _, _).
  assert (H2 : state Example.answering = busy) by (vm_compute; reflexivity).
  exact (conj H1 (conj H2 (X10_busy_has_armed_idle_timer Example.answering H1 H2))).
Defined.

(** X11.  A send that is still pending when the daemon is Ready (it was sent
    before a detour through interactive mode) is abandoned by the next
    [send]: the new call takes over [responseResolver], and the promise of
    the earlier call is never settled, whatever happens afterwards. *)
Theorem X11_pending_send_abandoned_by_next_send
    (d : ToolDaemon) (h p : nat) (command : jsstring) (history : list Action) :
  reachable d ->
  pty d = Some h ->
  state d = ready ->
  responseResolver d = Some p ->
  (send command d).1 = Return (sendCalls d) ∧
  responseResolver (send command d).2 = Some (sendCalls d) ∧
  p ≠ sendCalls d ∧
  sendSettled p (foldl step (send command d).2 history) = Pending.
Proof.
  intros Hd Hh Hs Hp.
  destruct (reachable_invariants d Hd) as (_ & _ & _ & Hu).
  destruct (Hu p Hp) as [Hlt Hio].
  assert (send command d
          = (Return (sendCalls d),
             resetResponseTimeout
               (effect (PtyWrite h (command ++ [JS.LF]))
                  (set_responseResolver (Some (sendCalls d))
                     (set_responseBuffer []
                        (set_state busy (set_sendCalls (S (sendCalls d)) d))))))) as ->.
  { unfold send. rewrite Hh, bool_decide_eq_true_2; done. }
  cbn [fst snd]. split; [done|]. split; [done|]. split; [lia|].
  unfold sendSettled. rewrite steps_abandoned; [done|].
  simpl. rewrite existsb_snoc, Hio. simpl.
  split; [lia|]. split; [|done]. intros [= E]. lia.
Qed.

Lemma X11_witness :
  reachable ExampleMore.detoured ∧
  pty ExampleMore.detoured = Some 0%nat ∧
  state ExampleMore.detoured = ready ∧
  responseResolver ExampleMore.detoured = Some 0%nat ∧
  sendSettled 0
    (foldl step (send (JS.lit "again") ExampleMore.detoured).2
       [PtyData 0 (JS.lit "hello"); IdleTimeout]) = Pending.
Proof.
  assert (H1 : reachable ExampleMore.detoured) by (by eexists _, _).
  assert (H2 : pty ExampleMore.detoured = Some 0%nat) by (vm_compute; reflexivity).
  assert (H3 : state ExampleMore.detoured = ready) by (vm_compute; reflexivity).
  assert (H4 : responseResolver ExampleMore.detoured = Some 0%nat)
    by (vm_compute; reflexivity).
  destruct (X11_pending_send_abandoned_by_next_send ExampleMore.detoured 0%nat 0%nat
              (JS.lit "again") [PtyData 0 (JS.lit "hello"); IdleTimeout] H1 H2 H3 H4)
    as (_ & _ & _ & H).
  exact (conj H1 (conj H2 (conj H3 (conj H4 H)))).
Defined.

(** X12.  The output buffer of a daemon is never cleared: in every reachable
    state it is the concatenation, in order, of all the data the daemon has
    emitted in ['data'] events since it was created. *)
Theorem X12_outputBuffer_is_all_emitted_data (d : ToolDaemon) :
  reachable d -> outputBuffer d = concat (emitted (io d)).
Proof.
  intros Hd. induction Hd as [cfg | d a _ IH] using reachable_ind; [done|].
  by apply step_outputBuffer.
Qed.

Lemma X12_witness :
  reachable ExampleMore.stopped ∧
  outputBuffer ExampleMore.stopped = concat (emitted (io ExampleMore.stopped)).
Proof.
  assert (H1 : reachable ExampleMore.stopped) by (by eexists _, _).
  exact (conj H1 (X12_outputBuffer_is_all_emitted_data ExampleMore.stopped H1)).
Defined.

(** X13.  A daemon that holds no pty (it was never started, or was stopped)
    does nothing to ptys until [start()] is called: whatever else happens,
    it still holds no pty, and it has spawned, written to and killed
    nothing more. *)
Theorem X13_no_pty_activity_without_start (d : ToolDaemon) (history : list Action) :
  pty d = None ->
  CallStart ∉ history ->
  pty (foldl step d history) = None ∧
  ptyEffects (foldl step d history) = ptyEffects d.
Proof.
  revert d. induction history as [|a history IH]; intros d Hp Hn; [done|].
  apply not_elem_of_cons in Hn as [Ha Hn]. simpl.
  destruct (step_no_pty d a) as [Hp' <-]; [done..|]. by apply IH.
Qed.

Lemma X13_witness :
  pty ExampleMore.stopped = None ∧
  (CallStart ∉ [CallSend (JS.lit "hi"); CallWrite (JS.lit "x"); CallStop]) ∧
  ptyEffects (foldl step ExampleMore.stopped
                [CallSend (JS.lit "hi"); CallWrite (JS.lit "x"); CallStop])
  = ptyEffects ExampleMore.stopped.
Proof.
  assert (H1 : pty ExampleMore.stopped = None) by (vm_compute; reflexivity).
  assert (H2 : CallStart ∉ [CallSend (JS.lit "hi"); CallWrite (JS.lit "x"); CallStop]).
  { intros H. repeat (apply elem_of_cons in H as [H|H]; [discriminate H|]).
    by apply elem_of_nil in H. }
  exact (conj H1 (conj H2 (proj2 (X13_no_pty_activity_without_start
                                    ExampleMore.stopped _ H1 H2)))).
Defined.

(** X14.  Every [enterInteractiveMode()] puts one more handler on the
    terminal input, and [exitInteractiveMode()] removes only the one it
    holds: after [n + 1] calls of [enterInteractiveMode()] and one of
    [exitInteractiveMode()] the daemon is Ready with [n] more handlers than
    before, and terminal input is then still written to the pty, once for
    each handler left. *)
Theorem X14_exit_removes_one_stdin_handler
    (d : ToolDaemon) (h n : nat) (data : jsstring) :
  pty d = Some h ->
  let d' := exitInteractiveMode (enterTimes (S n) d) in
  state d' = ready ∧
  interactiveStdinHandler d' = false ∧
  stdinListeners d' = (stdinListeners d + n)%nat ∧
  io (onStdinData data d') = io d' ++ replicate (stdinListeners d + n) (PtyWrite h data).
Proof.
  intros Hh d'.
  destruct (enterTimes_fields (S n) d) as (E1 & E2 & E3); [by eexists|].
  destruct E3 as [E3 E4]; [done|].
  set (e := enterTimes (S n) d) in *. clearbody e.
  assert (stdinListeners d' = (stdinListeners d + n)%nat) as Hl.
  { subst d'. unfold exitInteractiveMode. rewrite E3. simpl. rewrite E2. lia. }
  assert (pty d' = Some h) as Hp.
  { subst d'. unfold exitInteractiveMode. rewrite E3. simpl. congruence. }
  split; [done|]. split; [subst d'; unfold exitInteractiveMode; by rewrite E3|].
  split; [done|].
  by rewrite onStdinData_effects, Hp, iter_effect_io, Hl.
Qed.

Lemma X14_witness :
  pty ExampleMore.idle = Some 0%nat ∧
  let d' := exitInteractiveMode (enterTimes 2 ExampleMore.idle) in
  state d' = ready ∧
  interactiveStdinHandler d' = false ∧
  stdinListeners d' = (stdinListeners ExampleMore.idle + 1)%nat ∧
  io (onStdinData (JS.lit "x") d')
  = io d' ++ replicate (stdinListeners ExampleMore.idle + 1) (PtyWrite 0 (JS.lit "x")).
Proof.
  assert (H1 : pty ExampleMore.idle = Some 0%nat) by (vm_compute; reflexivity).
  exact (conj H1 (X14_exit_removes_one_stdin_handler ExampleMore.idle 0%nat 1%nat
                    (JS.lit "x") H1)).
Defined.

End DaemonExtras.

(* ===================================================================== *)
(** ** Further properties: DaemonManager                                 *)
(* ===================================================================== *)

Module ManagerMoreFacts.
Import Daemon Manager ManagerFacts ManagerRuns.

Lemma write_config data d : config (write data d) = config d.
Proof. unfold write. by destruct (pty d). Qed.

Lemma onStdinData_config data d : config (onStdinData data d) = config d.
Proof.
  unfold onStdinData. generalize (stdinListeners d) as n.
  induction n as [|n IH]; [done|]. by rewrite Nat.iter_succ, write_config.
Qed.

(** No step changes the configuration of a daemon. *)
Lemma step_config d a : config (step d a) = config d.
Proof.
  unfold step. destruct (enabled a d); [|done].
  destruct a; cbn [fst snd].
  all: try apply onStdinData_config.
  all: try apply write_config.
  all: unfold start, send, enterInteractiveMode, exitInteractiveMode, stop,
    onData, onExit, onGraceTimer, onStartupTimeout, completeResponse,
    becomeReady, resetResponseTimeout.
  all: repeat (simpl; case_match); done.
Qed.

Lemma setupAndStartDaemon_config d : config (setupAndStartDaemon d).2 = config d.
Proof.
  unfold setupAndStartDaemon, start.
  case_bool_decide; simpl; by case_match.
Qed.

Lemma exitInteractiveMode_config d : config (exitInteractiveMode d) = config d.
Proof. unfold exitInteractiveMode. by case_match. Qed.

Lemma resume_fold_display (ws : list (jsstring * nat)) (m : DaemonManager) :
  display (foldl (fun m w =>
             match awaited m w with
             | Fulfilled => set_activeDaemon (Some w.1) m
             | _ => m
             end) m ws) = display m.
Proof.
  revert m. induction ws as [|w ws IH]; intros m; simpl; [done|].
  rewrite IH. by destruct (awaited m w).
Qed.

Lemma display_resume (m : DaemonManager) : display (resume m) = display m.
Proof. unfold resume. by rewrite resume_fold_display. Qed.

Lemma awaited_registered (m : DaemonManager) w :
  awaited m w = Fulfilled -> is_Some (daemons m !! w.1).
Proof.
  unfold awaited. destruct (daemons m !! w.1); [by eauto|done].
Qed.

Lemma resume_fold_active (ws : list (jsstring * nat)) (m : DaemonManager) :
  activeRegistered m ->
  activeRegistered (foldl (fun m w =>
             match awaited m w with
             | Fulfilled => set_activeDaemon (Some w.1) m
             | _ => m
             end) m ws).
Proof.
  revert m. induction ws as [|w ws IH]; intros m H; simpl; [done|].
  apply IH. destruct (awaited m w) eqn:E; try done.
  intros n [= <-]. by apply awaited_registered.
Qed.

Lemma activeRegistered_resume (m : DaemonManager) :
  activeRegistered m -> activeRegistered (resume m).
Proof. intros H. unfold resume. by apply resume_fold_active. Qed.

Lemma perform_keyedByName m c : keyedByName m -> keyedByName (perform m c).
Proof.
  intros K. destruct c as [cfg|n| |n|n a|]; simpl.
  - intros k d. simpl. destruct (decide (name cfg = k)) as [<-|Hne].
    + rewrite lookup_insert_eq. by intros [= <-].
    + rewrite lookup_insert_ne by done. apply K.
  - unfold setActive. destruct (daemons m !! n); [|done]. simpl.
    destruct (activeDaemon m) as [prev|] eqn:Ha; [|done].
    destruct (getActive m) as [pd|] eqn:Hpd; [|done].
    case_bool_decide; [|done]. intros k d. simpl.
    destruct (decide (prev = k)) as [<-|Hne].
    + rewrite lookup_insert_eq. intros [= <-]. rewrite exitInteractiveMode_config.
      apply K. unfold getActive in Hpd. rewrite Ha in Hpd.
      by destruct (JS.truthy prev).
    + rewrite lookup_insert_ne by done. apply K.
  - done.
  - unfold startOne. destruct (daemons m !! n) as [d|] eqn:Hd; [|done].
    destruct (_ && _); [done|].
    pose proof (setupAndStartDaemon_config d) as Hc.
    destruct (setupAndStartDaemon d) as [[h|msg] d']; simpl in *.
    all: intros k d0; simpl; destruct (decide (n = k)) as [<-|Hne];
      [rewrite lookup_insert_eq; intros [= <-]; rewrite Hc; by apply K
      |rewrite lookup_insert_ne by done; apply K].
  - intros k d. destruct (decide (n = k)) as [<-|Hne].
    + destruct (daemons m !! n) as [d0|] eqn:Hd.
      * rewrite (daemons_deliver_eq m n a d0 Hd). intros [= <-].
        rewrite step_config. by apply K.
      * unfold deliver. rewrite Hd. by rewrite Hd.
    + rewrite daemons_deliver_ne by done. apply K.
  - by intros k d.
Qed.

Lemma perform_activeRegistered m c : activeRegistered m -> activeRegistered (perform m c).
Proof.
  intros A. destruct c as [cfg|n| |n|n a|]; simpl.
  - intros k Hk. simpl in *. apply lookup_insert_is_Some'. right. by apply A.
  - unfold setActive. destruct (daemons m !! n) as [d|] eqn:Hd; [|done]. simpl.
    intros k [= <-].
    destruct (activeDaemon m) as [prev|]; [|by simpl; rewrite Hd].
    destruct (getActive m) as [pd|]; [|by simpl; rewrite Hd].
    case_bool_decide; [|by simpl; rewrite Hd]. simpl.
    apply lookup_insert_is_Some'. right. by rewrite Hd.
  - done.
  - unfold startOne. destruct (daemons m !! n) as [d|] eqn:Hd; [|done].
    destruct (_ && _); [done|].
    destruct (setupAndStartDaemon d) as [[h|msg] d']; simpl.
    all: intros k Hk; simpl in *; apply lookup_insert_is_Some'; right; by apply A.
  - unfold deliver. destruct (daemons m !! n) as [d|] eqn:Hd; [|done].
    apply activeRegistered_resume.
    set (m1 := match a with PtyData _ _ => _ | _ => m end).
    assert (daemons m1 = daemons m ∧ activeDaemon m1 = activeDaemon m) as [E1 E2]
      by (subst m1; by repeat case_match).
    intros k Hk. simpl in *.
    apply lookup_insert_is_Some'. right. rewrite E1. apply A. by rewrite <- E2.
  - by intros k.
Qed.

Lemma attainable_manager_invariants m :
  attainable m -> keyedByName m ∧ activeRegistered m.
Proof.
  intros [calls ->]. induction calls as [|c calls [K A]] using rev_ind.
  { split; [by intros n d|by intros n]. }
  rewrite foldl_app. simpl. auto using perform_keyedByName, perform_activeRegistered.
Qed.

End ManagerMoreFacts.

Module ManagerExtras.
Import Daemon Manager ManagerFacts ManagerRuns ManagerMoreFacts.

(** X15.  In every state a manager can reach, the active tool, if there is
    one, is a registered daemon, registered under the name of its own
    configuration; so [getActive()] returns that daemon unless the name is
    the empty string. *)
Theorem X15_active_daemon_is_registered (m : DaemonManager) (n : jsstring) :
  attainable m ->
  activeDaemon m = Some n ->
  ∃ d, daemons m !! n = Some d ∧ name (config d) = n ∧
       (n ≠ [] -> getActive m = Some d).
Proof.
  intros Hm Hn. destruct (attainable_manager_invariants m Hm) as [K A].
  destruct (A n Hn) as [d Hd]. exists d. split; [done|]. split; [by apply K|].
  intros Hne. unfold getActive. rewrite Hn.
  destruct n; [done|]. by simpl.
Qed.

Lemma X15_witness :
  attainable ExampleManager.claudeReady ∧
  activeDaemon ExampleManager.claudeReady = Some (JS.lit "claude") ∧
  ∃ d, daemons ExampleManager.claudeReady !! JS.lit "claude" = Some d ∧
       name (config d) = JS.lit "claude" ∧
       (JS.lit "claude" ≠ [] -> getActive ExampleManager.claudeReady = Some d).
Proof.
  assert (H1 : attainable ExampleManager.claudeReady).
  { exists [CallRegister ExampleManager.claudeConfig;
            CallRegister ExampleManager.geminiConfig;
            CallStartOne (JS.lit "claude");
            OnDaemon (JS.lit "claude") (GraceTimer 0)].
    vm_compute; reflexivity. }
  assert (H2 : activeDaemon ExampleManager.claudeReady = Some (JS.lit "claude"))
    by (vm_compute; reflexivity).
  exact (conj H1 (conj H2 (X15_active_daemon_is_registered _ _ H1 H2))).
Defined.

(** X16.  Output of a registered daemon reaches the display only while that
    daemon is the active one: whatever happens to the daemon registered as
    [n], the display is unchanged, or the event is data of its pty, [n] is
    the active tool, and exactly that data is appended. *)
Theorem X16_only_active_daemon_is_displayed
    (m : DaemonManager) (n : jsstring) (a : Action) :
  attainable m ->
  display (deliver n a m) = display m ∨
  (∃ h data, a = PtyData h data ∧ activeDaemon m = Some n ∧
             display (deliver n a m) = display m ++ [data]).
Proof.
  intros Hm. destruct (attainable_manager_invariants m Hm) as [K _].
  unfold deliver. destruct (daemons m !! n) as [d|] eqn:Hd; [|by left].
  rewrite display_resume. simpl.
  destruct a; try (by left).
  destruct (_ && _ && _) eqn:E; [|by left].
  right. exists h, data. split; [done|].
  apply andb_true_iff in E as [_ E]. apply bool_decide_eq_true in E.
  rewrite (K n d Hd) in E. done.
Qed.

Lemma X16_witness :
  attainable ExampleManager.geminiStarted ∧
  display (deliver (JS.lit "claude") (PtyData 0 (JS.lit "late")) ExampleManager.geminiStarted)
  = display ExampleManager.geminiStarted.
Proof.
  assert (H1 : attainable ExampleManager.geminiStarted).
  { exists [CallRegister ExampleManager.claudeConfig;
            CallRegister ExampleManager.geminiConfig;
            CallStartOne (JS.lit "claude");
            OnDaemon (JS.lit "claude") (GraceTimer 0);
            OnDaemon (JS.lit "claude") CallEnterInteractiveMode;
            CallStartOne (JS.lit "gemini");
            OnDaemon (JS.lit "gemini") (GraceTimer 0)].
    vm_compute; reflexivity. }
  destruct (X16_only_active_daemon_is_displayed ExampleManager.geminiStarted
              (JS.lit "claude") (PtyData 0 (JS.lit "late")) H1) as [H|(h & data & _ & H & _)].
  - exact (conj H1 H).
  - exfalso. vm_compute in H. discriminate H.
Defined.

End ManagerExtras.

(* ===================================================================== *)
(** ** Further properties: relaying                                      *)
(* ===================================================================== *)

Module RelayMoreFacts.
Import SpecRelay SpecRelayMore.

Lemma removelast_snoc' {A} (l : list A) (x : A) : removelast (l ++ [x]) = l.
Proof. apply removelast_last. Qed.

(** What [SessionManager.send] returns and leaves. *)
Lemma session_send_cases registry prompt toolName t1 t2 s :
  let r := Session.send registry prompt toolName t1 t2 s in
  (∃ message, r = (Throw message, s)) ∨
  (∃ adapter response,
     registry (JS.or_else toolName (Session.defaultTool s)) = Some adapter ∧
     Session.Adapter.isAvailable adapter = true ∧
     Session.Adapter.send adapter prompt = Return response ∧
     r = (Return response,
          Session.mkSession
            (Session.messages s
             ++ [Session.mkMessage user (Session.Adapter.name adapter) prompt t1;
                 Session.mkMessage assistant (Session.Adapter.name adapter) response t2])
            (Session.defaultTool s))).
Proof.
  cbv zeta. unfold Session.send.
  destruct (registry _) as [adapter|] eqn:Hr; [|left; by eexists].
  destruct (Session.Adapter.isAvailable adapter) eqn:Ha; simpl; [|left; by eexists].
  destruct (Session.Adapter.send adapter prompt) as [response|error] eqn:Hs.
  - right. exists adapter, response. repeat split; try done.
    unfold Session.addAssistantMessage, Session.addUserMessage. simpl.
    by rewrite <- app_assoc.
  - left. exists error. unfold Session.pop, Session.addUserMessage. simpl.
    rewrite removelast_snoc'. by destruct s.
Qed.

Lemma session_send_exchanges registry prompt toolName t1 t2 s :
  exchanges (Session.messages s) ->
  exchanges (Session.messages (Session.send registry prompt toolName t1 t2 s).2).
Proof.
  intros H.
  destruct (session_send_cases registry prompt toolName t1 t2 s)
    as [[msg ->]|(adapter & response & _ & _ & _ & ->)]; [done|].
  simpl. by constructor.
Qed.

Lemma session_send_prefix registry prompt toolName t1 t2 s :
  Session.messages s `prefix_of`
  Session.messages (Session.send registry prompt toolName t1 t2 s).2.
Proof.
  destruct (session_send_cases registry prompt toolName t1 t2 s)
    as [[msg ->]|(adapter & response & _ & _ & _ & ->)]; [done|].
  simpl. by eexists.
Qed.

(** What [sendToTool] leaves, by the fate of the request. *)
Lemma sendToTool_succeeded (message : jsstring) (res : SDK.ProcessResult) (s : SDK.SDKSession) :
  succeeded res ->
  SDK.sendToTool message res s
  = {| SDK.activeTool := SDK.activeTool s;
       SDK.conversationHistory :=
         SDK.conversationHistory s
         ++ [SDK.mkMessage (SDK.toolName (SDK.activeTool s)) user message;
             SDK.mkMessage (SDK.toolName (SDK.activeTool s)) assistant (answerOf res)];
       SDK.claudeHasSession :=
         match SDK.activeTool s with SDK.claude => true | _ => SDK.claudeHasSession s end;
       SDK.geminiHasSession :=
         match SDK.activeTool s with SDK.gemini => true | _ => SDK.geminiHasSession s end;
       SDK.spawned :=
         SDK.spawned s
         ++ [(SDK.toolName (SDK.activeTool s),
              printModeFlags (SDK.activeTool s) s ++ [message])] |}.
Proof.
  destruct res as [code stdout stderr|msg]; [|done]. simpl. intros ->.
  unfold SDK.sendToTool. simpl.
  destruct (SDK.activeTool s) eqn:Et; simpl;
    unfold SDK.sendToClaude, SDK.sendToGemini, SDK.settle; simpl;
    rewrite ?Et; simpl; rewrite <- ?app_assoc;
    unfold SDK.set_conversationHistory, SDK.set_claudeHasSession,
      SDK.set_geminiHasSession, SDK.spawn; simpl; by rewrite ?Et.
Qed.

Lemma sendToTool_failed (message : jsstring) (res : SDK.ProcessResult) (s : SDK.SDKSession) :
  failed res ->
  SDK.sendToTool message res s
  = {| SDK.activeTool := SDK.activeTool s;
       SDK.conversationHistory := SDK.conversationHistory s;
       SDK.claudeHasSession := SDK.claudeHasSession s;
       SDK.geminiHasSession := SDK.geminiHasSession s;
       SDK.spawned :=
         SDK.spawned s
         ++ [(SDK.toolName (SDK.activeTool s),
              printModeFlags (SDK.activeTool s) s ++ [message])] |}.
Proof.
  intros Hf. unfold SDK.sendToTool. simpl.
  destruct (SDK.activeTool s) eqn:Et; simpl;
    unfold SDK.sendToClaude, SDK.sendToGemini, SDK.settle;
    destruct res as [code stdout stderr|msg]; simpl in *;
    rewrite ?bool_decide_eq_true_2 by done; simpl;
    rewrite removelast_snoc', ?Et; simpl; rewrite <- ?app_assoc;
    unfold SDK.set_conversationHistory, SDK.set_claudeHasSession,
      SDK.set_geminiHasSession, SDK.spawn; simpl; by rewrite ?Et.
Qed.

Lemma find_last_snoc {A} (f : A -> bool) (l : list A) (x : A) :
  f x = true -> List.find f (rev (l ++ [x])) = Some x.
Proof. intros H. rewrite rev_app_distr. simpl. by rewrite H. Qed.

Lemma succeeded_or_failed (res : SDK.ProcessResult) : succeeded res ∨ failed res.
Proof.
  destruct res as [code ? ?|?]; simpl; [|by right].
  destruct (decide (code = Some 0%Z)); [by left|by right].
Qed.

(** [handleForward] is [sendToTool] of the envelope, with the target tool
    made active. *)
Lemma handleForward_sendToTool
    (additionalMessage : jsstring) (res : SDK.ProcessResult) (s : SDK.SDKSession)
    (lastResponse : SDK.Message) :
  lastAssistant s = Some lastResponse ->
  SDK.handleForward additionalMessage res s
  = SDK.sendToTool
      (specEnvelope (SDK.displayNameOf (SDK.tool lastResponse))
         (SDK.content lastResponse) (supplied additionalMessage))
      res
      (SDK.set_activeTool (if JS.eqb (SDK.tool lastResponse) (JS.lit "claude")
                           then SDK.gemini else SDK.claude) s).
Proof.
  intros Hlast. unfold SDK.handleForward. fold (lastAssistant s). rewrite Hlast.
  by rewrite RelayTheorems.forwardPrompt_specEnvelope.
Qed.

Lemma lastAssistant_succeeded (message : jsstring) (res : SDK.ProcessResult)
    (s : SDK.SDKSession) :
  succeeded res ->
  lastAssistant (SDK.sendToTool message res s)
  = Some (SDK.mkMessage (SDK.toolName (SDK.activeTool s)) assistant (answerOf res)).
Proof.
  intros H. rewrite (sendToTool_succeeded _ _ _ H). unfold lastAssistant. simpl.
  change [?a; ?b] with ([a] ++ [b]). rewrite app_assoc.
  by apply find_last_snoc.
Qed.

End RelayMoreFacts.

Module RelayExtras.
Import SpecRelay SpecRelayMore RelayMoreFacts.

(** X17.  [SessionManager.send] and [SessionManager.forward] only append to
    the log, and they keep it a sequence of complete exchanges: whether the
    call succeeds or fails, no user message is left without the answer of
    its tool. *)
Theorem X17_log_stays_complete_exchanges
    (registry : jsstring -> option Session.ToolAdapter)
    (prompt fromTool toTool : jsstring) (toolName additionalPrompt prefix : option jsstring)
    (t1 t2 : N) (s : Session.SessionManager) :
  exchanges (Session.messages s) ->
  let s1 := (Session.send registry prompt toolName t1 t2 s).2 in
  let s2 := (Session.forward registry fromTool toTool additionalPrompt prefix t1 t2 s).2 in
  exchanges (Session.messages s1) ∧
  Session.messages s `prefix_of` Session.messages s1 ∧
  exchanges (Session.messages s2) ∧
  Session.messages s `prefix_of` Session.messages s2.
Proof.
  intros H. cbv zeta.
  split; [by apply session_send_exchanges|]. split; [apply session_send_prefix|].
  unfold Session.forward.
  destruct (Session.getLastResponse _ s) as [lastResponse|]; [|done].
  destruct (registry toTool); [|done].
  split; [by apply session_send_exchanges|apply session_send_prefix].
Qed.

Lemma X17_witness :
  exchanges (Session.messages ExampleRelay.answered) ∧
  exchanges (Session.messages
               (Session.forward ExampleRelay.failingRegistry (JS.lit "claude") (JS.lit "gemini")
                  None None 3 4 ExampleRelay.answered).2) ∧
  exchanges (Session.messages
               (Session.send ExampleRelay.registry (JS.lit "more") None 3 4
                  ExampleRelay.answered).2).
Proof.
  assert (H : exchanges (Session.messages ExampleRelay.answered)).
  { apply (exchanges_snoc [] _ _ exchanges_nil); reflexivity. }
  pose proof (X17_log_stays_complete_exchanges ExampleRelay.failingRegistry
                (JS.lit "more") (JS.lit "claude") (JS.lit "gemini") None None None 3 4
                ExampleRelay.answered H) as H1.
  pose proof (X17_log_stays_complete_exchanges ExampleRelay.registry
                (JS.lit "more") (JS.lit "claude") (JS.lit "gemini") None None None 3 4
                ExampleRelay.answered H) as H2.
  cbv zeta in H1, H2.
  exact (conj H (conj (proj1 (proj2 (proj2 H1))) (proj1 H2))).
Defined.

(** X18.  After a successful [send] to a tool registered under its own
    (non-empty) name, [getLastResponse] for that tool is the answer just
    received, and [forward] from that tool sends the target the default
    introduction followed by exactly that answer. *)
Theorem X18_forward_relays_the_answer_just_received
    (registry : jsstring -> option Session.ToolAdapter)
    (fromTool toTool prompt response : jsstring) (adapter : Session.ToolAdapter)
    (t1 t2 t3 t4 : N) (s : Session.SessionManager) :
  registry fromTool = Some adapter ->
  Session.Adapter.name adapter = fromTool ->
  fromTool ≠ [] ->
  Session.Adapter.isAvailable adapter = true ->
  Session.Adapter.send adapter prompt = Return response ->
  is_Some (registry toTool) ->
  let s1 := (Session.send registry prompt (Some fromTool) t1 t2 s).2 in
  Session.getLastResponse (Some fromTool) s1
  = Some (Session.mkMessage assistant fromTool response t2) ∧
  Session.forward registry fromTool toTool None None t3 t4 s1
  = Session.send registry
      (JS.lit "Another AI assistant ("
       ++ JS.or_else (Some (Session.Adapter.displayName adapter)) fromTool
       ++ JS.lit ") proposed the following. Please review and provide feedback:"
       ++ [JS.LF; JS.LF] ++ JS.lit "---" ++ [JS.LF] ++ response)
      (Some toTool) t3 t4 s1.
Proof.
  intros Hr Hn Hne Ha Hs [target Ht] s1.
  assert (JS.truthy fromTool = true) as Htruthy by (by destruct fromTool).
  assert (Session.getLastResponse (Some fromTool) s1
          = Some (Session.mkMessage assistant fromTool response t2)) as Hlast.
  { subst s1. unfold Session.send, JS.or_else. rewrite Htruthy, Hr, Ha, Hs. simpl.
    unfold Session.getLastResponse. rewrite Htruthy. simpl. rewrite Hn.
    rewrite <- app_assoc. simpl. rewrite filter_app.
    rewrite filter_cons_False by (simpl; by intros [_ ?]).
    rewrite filter_cons_True by done. rewrite filter_nil. apply last_snoc. }
  split; [done|].
  unfold Session.forward. rewrite Hlast, Hr, Ht. simpl.
  unfold Session.defaultPrefix. simpl.
  by rewrite app_nil_r, <- !app_assoc.
Qed.

Lemma X18_witness :
  ExampleRelay.registry (JS.lit "claude") = Some (ExampleRelay.echoAdapter "claude" "Claude Code") ∧
  JS.lit "claude" ≠ [] ∧
  is_Some (ExampleRelay.registry (JS.lit "gemini")) ∧
  let s1 := (Session.send ExampleRelay.registry (JS.lit "hello") (Some (JS.lit "claude")) 3 4
               ExampleRelay.answered).2 in
  Session.getLastResponse (Some (JS.lit "claude")) s1
  = Some (Session.mkMessage assistant (JS.lit "claude") (JS.lit "hello") 4) ∧
  Session.forward ExampleRelay.registry (JS.lit "claude") (JS.lit "gemini") None None 5 6 s1
  = Session.send ExampleRelay.registry
      (JS.lit "Another AI assistant ("
       ++ JS.or_else (Some (JS.lit "Claude Code")) (JS.lit "claude")
       ++ JS.lit ") proposed the following. Please review and provide feedback:"
       ++ [JS.LF; JS.LF] ++ JS.lit "---" ++ [JS.LF] ++ JS.lit "hello")
      (Some (JS.lit "gemini")) 5 6 s1.
Proof.
  assert (H1 : ExampleRelay.registry (JS.lit "claude")
               = Some (ExampleRelay.echoAdapter "claude" "Claude Code"))
    by (vm_compute; reflexivity).
  assert (H2 : JS.lit "claude" ≠ []) by (vm_compute; discriminate).
  assert (H3 : is_Some (ExampleRelay.registry (JS.lit "gemini")))
    by (eexists; vm_compute; reflexivity).
  exact (conj H1 (conj H2 (conj H3
    (X18_forward_relays_the_answer_just_received ExampleRelay.registry
       (JS.lit "claude") (JS.lit "gemini") (JS.lit "hello") (JS.lit "hello")
       (ExampleRelay.echoAdapter "claude" "Claude Code") 3 4 5 6 ExampleRelay.answered
       H1 eq_refl H2 eq_refl eq_refl H3)))).
Defined.

(** X19.  A print-mode request that succeeds marks the session of the
    active tool, and of that tool only, so that the next request to it
    asks the tool to resume ([--continue] for claude, [--resume latest] for
    gemini); a request that fails marks nothing, and the next request is
    launched with the same flags as the failed one. *)
Theorem X19_next_request_resumes_after_success
    (m1 m2 : jsstring) (res1 res2 : SDK.ProcessResult) (s : SDK.SDKSession) :
  let tool := SDK.activeTool s in
  let s1 := SDK.sendToTool m1 res1 s in
  SDK.activeTool s1 = tool ∧
  toolHasSession (other tool) s1 = toolHasSession (other tool) s ∧
  (succeeded res1 ->
   toolHasSession tool s1 = true ∧
   SDK.spawned (SDK.sendToTool m2 res2 s1)
   = SDK.spawned s ++ [(SDK.toolName tool, printModeFlags tool s ++ [m1]);
                       (SDK.toolName tool, resumeFlags tool ++ [m2])]) ∧
  (failed res1 ->
   toolHasSession tool s1 = toolHasSession tool s ∧
   SDK.spawned (SDK.sendToTool m2 res2 s1)
   = SDK.spawned s ++ [(SDK.toolName tool, printModeFlags tool s ++ [m1]);
                       (SDK.toolName tool, printModeFlags tool s ++ [m2])]).
Proof.
  cbv zeta.
  assert (succeeded res1 ∨ failed res1) as Hres.
  { destruct res1 as [code ? ?|?]; simpl; [|by right].
    destruct (decide (code = Some 0%Z)); [by left|by right]. }
  assert (∀ s', SDK.activeTool s' = SDK.activeTool s ->
            SDK.spawned (SDK.sendToTool m2 res2 s')
            = SDK.spawned s' ++ [(SDK.toolName (SDK.activeTool s),
                                  printModeFlags (SDK.activeTool s) s' ++ [m2])]) as Hnext.
  { intros s' <-. apply RelayTheorems.sendToTool_spawned. }
  split; [|split; [|split]].
  - destruct Hres as [H|H];
      [rewrite (sendToTool_succeeded _ _ _ H)|rewrite (sendToTool_failed _ _ _ H)]; done.
  - destruct Hres as [H|H];
      [rewrite (sendToTool_succeeded _ _ _ H)|rewrite (sendToTool_failed _ _ _ H)];
      by destruct (SDK.activeTool s).
  - intros H. rewrite Hnext by (by rewrite (sendToTool_succeeded _ _ _ H)).
    rewrite (sendToTool_succeeded _ _ _ H). simpl.
    split; [by destruct (SDK.activeTool s)|].
    rewrite <- app_assoc. do 3 f_equal. unfold printModeFlags. simpl.
    by destruct (SDK.activeTool s).
  - intros H. rewrite Hnext by (by rewrite (sendToTool_failed _ _ _ H)).
    rewrite (sendToTool_failed _ _ _ H). simpl.
    split; [by destruct (SDK.activeTool s)|].
    by rewrite <- app_assoc.
Qed.

Lemma X19_witness :
  succeeded (SDK.Close (Some 0%Z) (JS.lit "ok") []) ∧
  SDK.spawned
    (SDK.sendToTool (JS.lit "second") (SDK.Error (JS.lit "spawn ENOENT"))
       (SDK.sendToTool (JS.lit "first") (SDK.Close (Some 0%Z) (JS.lit "ok") [])
          (SDK.set_activeTool SDK.gemini ExampleRelay.answeredSDK)))
  = SDK.spawned ExampleRelay.answeredSDK
    ++ [(JS.lit "gemini", [JS.lit "first"]);
        (JS.lit "gemini", [JS.lit "--resume"; JS.lit "latest"; JS.lit "second"])].
Proof.
  assert (H : succeeded (SDK.Close (Some 0%Z) (JS.lit "ok") [])) by reflexivity.
  pose proof (X19_next_request_resumes_after_success (JS.lit "first") (JS.lit "second")
                (SDK.Close (Some 0%Z) (JS.lit "ok") []) (SDK.Error (JS.lit "spawn ENOENT"))
                (SDK.set_activeTool SDK.gemini ExampleRelay.answeredSDK)) as Hthm.
  cbv zeta in Hthm. destruct Hthm as (_ & _ & Hs & _).
  exact (conj H (proj2 (Hs H))).
Defined.

(** X20.  [handleForward] makes the tool that did not give the last answer
    the active tool, also when the forwarded request fails; on failure the
    conversation and the session flags are as before, on success the
    envelope and the answer are recorded for the target tool, and the
    answer becomes the last assistant message. *)
Theorem X20_handleForward_switches_tool
    (additionalMessage : jsstring) (res : SDK.ProcessResult) (s : SDK.SDKSession)
    (lastResponse : SDK.Message) :
  lastAssistant s = Some lastResponse ->
  let target := if JS.eqb (SDK.tool lastResponse) (JS.lit "claude")
                then SDK.gemini else SDK.claude in
  let envelope := specEnvelope (SDK.displayNameOf (SDK.tool lastResponse))
                    (SDK.content lastResponse) (supplied additionalMessage) in
  let s' := SDK.handleForward additionalMessage res s in
  SDK.activeTool s' = target ∧
  (failed res ->
   SDK.conversationHistory s' = SDK.conversationHistory s ∧
   SDK.claudeHasSession s' = SDK.claudeHasSession s ∧
   SDK.geminiHasSession s' = SDK.geminiHasSession s) ∧
  (succeeded res ->
   SDK.conversationHistory s'
   = SDK.conversationHistory s
     ++ [SDK.mkMessage (SDK.toolName target) user envelope;
         SDK.mkMessage (SDK.toolName target) assistant (answerOf res)] ∧
   lastAssistant s' = Some (SDK.mkMessage (SDK.toolName target) assistant (answerOf res))).
Proof.
  intros Hlast target envelope s'. subst s' envelope target.
  rewrite (handleForward_sendToTool _ _ _ _ Hlast).
  split; [|split].
  - destruct (succeeded_or_failed res) as [H|H].
    + by rewrite (sendToTool_succeeded _ _ _ H).
    + by rewrite (sendToTool_failed _ _ _ H).
  - intros H. by rewrite (sendToTool_failed _ _ _ H).
  - intros H. split; [by rewrite (sendToTool_succeeded _ _ _ H)|].
    by rewrite (lastAssistant_succeeded _ _ _ H).
Qed.

Lemma X20_witness :
  lastAssistant ExampleRelay.answeredSDK
  = Some (SDK.mkMessage (JS.lit "claude") assistant (JS.lit "X")) ∧
  SDK.activeTool ExampleRelay.answeredSDK = SDK.claude ∧
  SDK.activeTool (SDK.handleForward [] (SDK.Close (Some 1%Z) [] (JS.lit "quota"))
                    ExampleRelay.answeredSDK) = SDK.gemini ∧
  SDK.conversationHistory (SDK.handleForward [] (SDK.Close (Some 1%Z) [] (JS.lit "quota"))
                             ExampleRelay.answeredSDK)
  = SDK.conversationHistory ExampleRelay.answeredSDK.
Proof.
  assert (H1 : lastAssistant ExampleRelay.answeredSDK
               = Some (SDK.mkMessage (JS.lit "claude") assistant (JS.lit "X")))
    by (vm_compute; reflexivity).
  assert (H2 : failed (SDK.Close (Some 1%Z) [] (JS.lit "quota"))) by (simpl; discriminate).
  pose proof (X20_handleForward_switches_tool [] (SDK.Close (Some 1%Z) [] (JS.lit "quota"))
                ExampleRelay.answeredSDK _ H1) as Hthm.
  cbv zeta in Hthm. destruct Hthm as (Ha & Hf & _).
  exact (conj H1 (conj eq_refl (conj Ha (proj1 (Hf H2))))).
Defined.

(** X21.  Forwarding twice goes there and back: when [handleForward]
    succeeds, the next [handleForward] makes the other tool active again
    and sends it, in the envelope, the answer that the first forward
    received. *)
Theorem X21_forward_twice_returns_the_answer
    (message1 message2 : jsstring) (res1 res2 : SDK.ProcessResult) (s : SDK.SDKSession)
    (lastResponse : SDK.Message) :
  lastAssistant s = Some lastResponse ->
  succeeded res1 ->
  let target := if JS.eqb (SDK.tool lastResponse) (JS.lit "claude")
                then SDK.gemini else SDK.claude in
  let s1 := SDK.handleForward message1 res1 s in
  let s2 := SDK.handleForward message2 res2 s1 in
  SDK.activeTool s1 = target ∧
  SDK.activeTool s2 = other target ∧
  SDK.spawned s2
  = SDK.spawned s1
    ++ [(SDK.toolName (other target),
         printModeFlags (other target) s1
         ++ [specEnvelope (SDK.displayNameOf (SDK.toolName target))
               (answerOf res1) (supplied message2)])].
Proof.
  intros Hlast Hok target s1 s2.
  assert (SDK.activeTool s1 = target ∧
          lastAssistant s1 = Some (SDK.mkMessage (SDK.toolName target) assistant
                                     (answerOf res1))) as [Ha Hl].
  { subst s1. rewrite (handleForward_sendToTool _ _ _ _ Hlast).
    split; [by rewrite (sendToTool_succeeded _ _ _ Hok)|].
    by rewrite (lastAssistant_succeeded _ _ _ Hok). }
  assert ((if JS.eqb (SDK.toolName target) (JS.lit "claude")
           then SDK.gemini else SDK.claude) = other target) as Ho
    by (by destruct target).
  split; [done|]. subst s2.
  rewrite (handleForward_sendToTool _ _ _ _ Hl). simpl. rewrite Ho.
  split.
  - destruct (succeeded_or_failed res2) as [H|H].
    + by rewrite (sendToTool_succeeded _ _ _ H).
    + by rewrite (sendToTool_failed _ _ _ H).
  - by rewrite RelayTheorems.sendToTool_spawned.
Qed.

Lemma X21_witness :
  lastAssistant ExampleRelay.answeredSDK
  = Some (SDK.mkMessage (JS.lit "claude") assistant (JS.lit "X")) ∧
  succeeded (SDK.Close (Some 0%Z) (JS.lit "Y") []) ∧
  let s1 := SDK.handleForward [] (SDK.Close (Some 0%Z) (JS.lit "Y") [])
              ExampleRelay.answeredSDK in
  let s2 := SDK.handleForward [] (SDK.Close (Some 0%Z) (JS.lit "Z") []) s1 in
  SDK.activeTool s1 = SDK.gemini ∧
  SDK.activeTool s2 = SDK.claude ∧
  SDK.spawned s2
  = SDK.spawned s1
    ++ [(JS.lit "claude",
         printModeFlags SDK.claude s1
         ++ [specEnvelope (JS.lit "Gemini CLI") (JS.lit "Y") None])].
Proof.
  assert (H1 : lastAssistant ExampleRelay.answeredSDK
               = Some (SDK.mkMessage (JS.lit "claude") assistant (JS.lit "X")))
    by (vm_compute; reflexivity).
  assert (H2 : succeeded (SDK.Close (Some 0%Z) (JS.lit "Y") [])) by reflexivity.
  exact (conj H1 (conj H2
    (X21_forward_twice_returns_the_answer [] [] (SDK.Close (Some 0%Z) (JS.lit "Y") [])
       (SDK.Close (Some 0%Z) (JS.lit "Z") []) ExampleRelay.answeredSDK _ H1 H2))).
Defined.


End RelayExtras.

(* ===================================================================== *)
(** ** Further properties: display helpers                               *)
(* ===================================================================== *)

Section LeadingChr.

#[local] Arguments run : simpl never.
#[local] Arguments star_loop : simpl never.

(** Global replacement by the empty string for a pattern that starts with
    one code unit of a class [p]. *)

Lemma lead_head (p : N -> bool) (r : re) (prev : option N) (s : jsstring) :
  (∀ c, head s = Some c -> p c = false) ->
  match_here (Seq (Chr p) r) prev s = None.
Proof.
  intros H. unfold match_here. rewrite run_seq.
  destruct s as [|c t]; [done|]. by rewrite run_chr_cons, (H c eq_refl).
Qed.

Lemma lead_prev (p : N -> bool) (r : re) (prev prev' : option N) (s : jsstring) :
  match_here (Seq (Chr p) r) prev s = match_here (Seq (Chr p) r) prev' s.
Proof.
  unfold match_here. rewrite !run_seq.
  destruct s as [|c t]; [done|]. by rewrite !run_chr_cons.
Qed.

Lemma lead_loop (p : N -> bool) (r : re) (n : nat) (prev : option N) (s : jsstring) :
  (length s < n)%nat ->
  replace_loop (Seq (Chr p) r) [] n prev s = replaceAll (Seq (Chr p) r) [] s.
Proof.
  intros Hn. unfold replaceAll.
  transitivity (replace_loop (Seq (Chr p) r) [] n None s).
  - destruct n as [|n]; [done|]. simpl. by rewrite (lead_prev p r prev None).
  - apply replace_loop_fuel; lia.
Qed.

Lemma lead_cons_plain (p : N -> bool) (r : re) (c : N) (s : jsstring) :
  p c = false ->
  replaceAll (Seq (Chr p) r) [] (c :: s) = c :: replaceAll (Seq (Chr p) r) [] s.
Proof.
  intros Hc. unfold replaceAll at 1. cbn [replace_loop length].
  rewrite lead_head by (by intros ? [= <-]).
  f_equal; try (apply lead_loop; lia).
Qed.

Lemma lead_plain (p : N -> bool) (r : re) (pre s : jsstring) :
  Forall (fun c => p c = false) pre ->
  replaceAll (Seq (Chr p) r) [] (pre ++ s) = pre ++ replaceAll (Seq (Chr p) r) [] s.
Proof.
  induction 1 as [|c pre Hc _ IH]; [done|].
  simpl. by rewrite lead_cons_plain, IH.
Qed.

Lemma lead_match (p : N -> bool) (r : re) (m post : jsstring) (x : option N) :
  match_here (Seq (Chr p) r) None (m ++ post) = Some (x, post) ->
  m ≠ [] ->
  replaceAll (Seq (Chr p) r) [] (m ++ post) = replaceAll (Seq (Chr p) r) [] post.
Proof.
  intros Hm Hne. unfold replaceAll at 1. cbn [replace_loop]. rewrite Hm.
  assert (Hlt : (length post < length (m ++ post))%nat).
  { rewrite length_app. destruct m; [done|simpl; lia]. }
  rewrite (proj2 (Nat.ltb_lt _ _) Hlt). simpl. by apply lead_loop.
Qed.

End LeadingChr.

Section SgrFacts.
Import SDKDisplay.

#[local] Arguments run : simpl never.
#[local] Arguments star_loop : simpl never.

Lemma sgr_match (m post : jsstring) :
  sgrSequence m ->
  match_here sgrPattern None (m ++ post) = Some (Some 0x6D, post).
Proof.
  intros [params Hp]. unfold match_here, sgrPattern.
  cbn [app seqs]. rewrite run_seq, run_chr_cons. unfold code at 1. rewrite N.eqb_refl.
  rewrite run_seq, run_chr_cons. unfold code at 1. rewrite N.eqb_refl.
  rewrite run_seq, <- !app_assoc.
  rewrite (star_class _ params ([0x6D] ++ post) _ (Some 0x6D, post)); [done|done| |].
  - by intros c [= <-].
  - cbn [app]. by rewrite run_chr_cons.
Qed.

Lemma sgr_removed (m post : jsstring) :
  sgrSequence m -> replaceAll sgrPattern [] (m ++ post) = replaceAll sgrPattern [] post.
Proof.
  intros Hm. apply (lead_match (code JS.ESC) _ m post (Some 0x6D)).
  - by apply sgr_match.
  - by destruct Hm.
Qed.

Lemma sgr_plain (pre s : jsstring) :
  JS.ESC ∉ pre -> replaceAll sgrPattern [] (pre ++ s) = pre ++ replaceAll sgrPattern [] s.
Proof.
  intros Hpre. apply (lead_plain (code JS.ESC)).
  apply Forall_forall. intros c Hc. unfold code. apply N.eqb_neq. set_solver.
Qed.

End SgrFacts.

Module DisplayExtras.
Import SDKDisplay.

(** X22.  Colouring does not change the width that [stripAnsiLength]
    measures: for a text without ESC and a colour code of the form ESC [
    digits-and-semicolons m, the measured length of [colorize(text, color)]
    is the length of the text. *)
Theorem X22_stripAnsiLength_ignores_colour (text color : jsstring) :
  JS.ESC ∉ text ->
  sgrSequence color ->
  stripAnsiLength (colorize text color) = length text.
Proof.
  intros Ht Hc. unfold stripAnsiLength, colorize.
  rewrite sgr_removed by done. rewrite sgr_plain by done.
  assert (sgrSequence reset) as Hr by (apply (sgr (JS.lit "0")); repeat constructor).
  rewrite <- (app_nil_r reset), sgr_removed by done.
  by rewrite app_nil_r.
Qed.

Lemma X22_witness :
  (JS.ESC ∉ JS.lit "Claude Code") ∧
  sgrSequence ([JS.ESC] ++ JS.lit "[96m") ∧
  stripAnsiLength (colorize (JS.lit "Claude Code") ([JS.ESC] ++ JS.lit "[96m")) = 11%nat.
Proof.
  assert (H1 : JS.ESC ∉ JS.lit "Claude Code").
  { apply (bool_decide_unpack (JS.ESC ∉ JS.lit "Claude Code")). vm_compute. exact I. }
  assert (H2 : sgrSequence ([JS.ESC] ++ JS.lit "[96m")).
  { apply (sgr (JS.lit "96")). repeat constructor. }
  exact (conj H1 (conj H2 (X22_stripAnsiLength_ignores_colour _ _ H1 H2))).
Defined.

End DisplayExtras.

(* ===================================================================== *)
(** ** Further properties: the gemini adapter                            *)
(* ===================================================================== *)

Module GeminiSessionExtras.
Import GeminiSession.

(** X23.  After a [send] that succeeds (the run ends with exit code 0),
    the adapter has a session: the answer is the trimmed output, every
    later command resumes the latest session unless the caller sets
    [continueSession] to false, the prompt staying the last argument, until
    [resetContext()] makes the commands start afresh. *)
Theorem X23_gemini_send_starts_session
    (prompt : jsstring) (continueSession : option bool)
    (runCommand : list jsstring -> outcome RunResult) (a : GeminiAdapter)
    (result : RunResult) :
  runCommand (drop 1 (getCommand prompt continueSession a)) = Return result ->
  exitCode result = 0%Z ->
  let r := send prompt continueSession runCommand a in
  r.1 = Return (JS.trim (stdout result)) ∧
  hasSession r.2 = true ∧
  getPersistentArgs r.2 = [JS.lit "--resume"; JS.lit "latest"] ∧
  (∀ next,
     getCommand next None r.2 = [JS.lit "gemini"; JS.lit "--resume"; JS.lit "latest"; next] ∧
     getCommand next (Some true) r.2
     = [JS.lit "gemini"; JS.lit "--resume"; JS.lit "latest"; next] ∧
     getCommand next (Some false) r.2 = [JS.lit "gemini"; next] ∧
     getCommand next None (resetContext r.2) = [JS.lit "gemini"; next]) ∧
  getPersistentArgs (resetContext r.2) = [].
Proof.
  intros Hrun Hcode r. subst r. unfold send. rewrite Hrun, Hcode. simpl.
  repeat split.
Qed.

Lemma X23_witness :
  ExampleGemini.pong (drop 1 (getCommand (JS.lit "ping") None new))
  = Return (mkRunResult (JS.lit " pong" ++ [JS.LF]) [] 0) ∧
  (send (JS.lit "ping") None ExampleGemini.pong new).1 = Return (JS.lit "pong") ∧
  getCommand (JS.lit "again") None (send (JS.lit "ping") None ExampleGemini.pong new).2
  = [JS.lit "gemini"; JS.lit "--resume"; JS.lit "latest"; JS.lit "again"].
Proof.
  pose proof (X23_gemini_send_starts_session (JS.lit "ping") None ExampleGemini.pong
                new (mkRunResult (JS.lit " pong" ++ [JS.LF]) [] 0) eq_refl eq_refl) as H.
  cbv zeta in H. destruct H as (H1 & _ & _ & H2 & _).
  exact (conj eq_refl (conj H1 (proj1 (H2 (JS.lit "again"))))).
Defined.

(** X24.  A [send] whose run ends with an exit code other than 0 is
    rejected and leaves the adapter as it was, without a session mark; the
    message names the exit code and always gives a reason that is not
    empty: the trimmed error output, else the trimmed output, else
    "Unknown error". *)
Theorem X24_gemini_send_failure_has_reason
    (prompt : jsstring) (continueSession : option bool)
    (runCommand : list jsstring -> outcome RunResult) (a : GeminiAdapter)
    (result : RunResult) :
  runCommand (drop 1 (getCommand prompt continueSession a)) = Return result ->
  exitCode result ≠ 0%Z ->
  ∃ reason,
    send prompt continueSession runCommand a
    = (Throw (JS.lit "Gemini CLI exited with code "
              ++ SDK.showCode (Some (exitCode result)) ++ JS.lit ": " ++ reason), a) ∧
    reason ≠ [] ∧
    (JS.trim (stderr result) ≠ [] -> reason = JS.trim (stderr result)) ∧
    (JS.trim (stderr result) = [] -> JS.trim (stdout result) ≠ [] ->
     reason = JS.trim (stdout result)) ∧
    (JS.trim (stderr result) = [] -> JS.trim (stdout result) = [] ->
     reason = JS.lit "Unknown error").
Proof.
  intros Hrun Hcode. unfold send. rewrite Hrun.
  rewrite bool_decide_eq_true_2 by done.
  eexists. split; [reflexivity|]. unfold JS.or_else.
  destruct (JS.trim (stderr result)) as [|c1 t1] eqn:E1;
    destruct (JS.trim (stdout result)) as [|c2 t2] eqn:E2; simpl;
    repeat split; try done.
Qed.

Lemma X24_witness :
  ExampleGemini.failing (drop 1 (getCommand (JS.lit "ping") None new))
  = Return (mkRunResult (JS.lit "  ") [JS.LF] 1) ∧
  exitCode (mkRunResult (JS.lit "  ") [JS.LF] 1) ≠ 0%Z ∧
  send (JS.lit "ping") None ExampleGemini.failing new
  = (Throw (JS.lit "Gemini CLI exited with code 1: Unknown error"), new).
Proof.
  destruct (X24_gemini_send_failure_has_reason (JS.lit "ping") None ExampleGemini.failing
              new (mkRunResult (JS.lit "  ") [JS.LF] 1) eq_refl)
    as (reason & Hs & _ & _ & _ & Hr); [discriminate|].
  rewrite Hs, Hr by (vm_compute; reflexivity).
  split; [reflexivity|]. split; [discriminate|]. vm_compute. reflexivity.
Defined.

End GeminiSessionExtras.
